(** * AutoCSV: connection discovery, outlier detection and charts

    A shallow embedding of [csv_analyzer.py] (class [CSVAnalyzer]), of
    the control flow of [visualizer.py] (class [Visualizer]) and of
    [main.py], and the properties of the analyses, [find_connections]
    and [get_outliers], of the summary, of the charts and of a run.

    Numbers are IEEE 754 binary64 values, as Python's [float] and numpy's
    [float64] are: Rocq's primitive floats, whose operations the kernel
    evaluates and whose meaning [FloatAxioms] gives in terms of
    [SpecFloat].  A missing numeric entry is NaN (pandas' convention for a
    numeric column), a missing label is [None].

    The sums and recurrences of numpy and pandas are written once, over
    the arithmetic they run in: binary64 in the program, and the real
    numbers to say what they compute when no result is rounded. *)

From Stdlib Require Import String Ascii ZArith Bool Arith Lia List.
From Stdlib Require Import Floats.
From Stdlib Require Import Sorted Permutation OrderedTypeEx.
From Stdlib Require Reals Lra.
Import ListNotations.

Set Implicit Arguments.

(* Decimal literals such as 0.3 and 1e-10 stand for the nearest binary64
   value, as they do in Python. *)
#[local] Set Warnings "-inexact-float".

(* [py_object] below is nested through [list]; no scheme for it is needed. *)
#[local] Set Warnings "-register-all".

(* ================================================================== *)
(** * Floating-point vocabulary *)
(* ================================================================== *)

Module F.

Local Open Scope float_scope.

Definition is_nan (x : float) : bool := PrimFloat.is_nan x.

(** [np.isfinite]: neither NaN nor an infinity. *)
Definition isfinite (x : float) : bool :=
  negb (PrimFloat.is_nan x) && negb (PrimFloat.is_infinity x).

(** Python's [a > b] on floats is [b < a]; [a != b] is [not (a == b)]. *)
Definition gtb (a b : float) : bool := b <? a.
Definition neqb (a b : float) : bool := negb (a =? b).

(** Python's builtin [min(a, b)]: the first argument unless the second
    is strictly smaller. *)
Definition py_min (a b : float) : float := if b <? a then b else a.

(** The count of a sequence as a float ([int] to [float64], exact below
    2^53 and rounded to nearest above); the conversion goes through a
    63-bit integer, enough for any frame that fits in memory. *)
Definition of_nat (n : nat) : float :=
  PrimFloat.of_uint63 (Uint63.of_Z (Z.of_nat n)).

Definition dropna (l : list float) : list float :=
  filter (fun x => negb (is_nan x)) l.

End F.

(* ================================================================== *)
(** * Arithmetic *)
(* ================================================================== *)

Module Arithmetic.

(** What the sums and recurrences below need of their numbers. *)
Record ops (T : Type) := {
  o_zero : T;
  o_neg_zero : T;
  o_one : T;
  o_add : T -> T -> T;
  o_sub : T -> T -> T;
  o_mul : T -> T -> T;
  o_div : T -> T -> T;
  o_sqrt : T -> T;
  o_of_nat : nat -> T;
  o_is_nan : T -> bool;
  o_isfinite : T -> bool
}.

(** The arithmetic of the program. *)
Definition binary64 : ops float :=
  {| o_zero := 0%float;
     o_neg_zero := neg_zero;
     o_one := 1%float;
     o_add := PrimFloat.add;
     o_sub := PrimFloat.sub;
     o_mul := PrimFloat.mul;
     o_div := PrimFloat.div;
     o_sqrt := PrimFloat.sqrt;
     o_of_nat := F.of_nat;
     o_is_nan := F.is_nan;
     o_isfinite := F.isfinite |}.

(** The real numbers: every number is finite, none is missing, and the
    two zeros are one. *)
Definition real : ops Rdefinitions.R :=
  {| o_zero := Rdefinitions.IZR 0;
     o_neg_zero := Rdefinitions.IZR 0;
     o_one := Rdefinitions.IZR 1;
     o_add := Rdefinitions.Rplus;
     o_sub := Rdefinitions.Rminus;
     o_mul := Rdefinitions.Rmult;
     o_div := Rdefinitions.Rdiv;
     o_sqrt := R_sqrt.sqrt;
     o_of_nat := Raxioms.INR;
     o_is_nan := fun _ => false;
     o_isfinite := fun _ => true |}.

End Arithmetic.

Declare Scope ops_scope.

(* ================================================================== *)
(** * pandas: the library operations the analyzer calls *)
(* ================================================================== *)

Module Pandas.

Import Arithmetic.
Local Open Scope float_scope.

(** ** Sums and recurrences, over the arithmetic they run in *)

Section Recurrences.

Variable T : Type.
Variable o : ops T.

Local Notation "a + b" := (o_add o a b) : ops_scope.
Local Notation "a - b" := (o_sub o a b) : ops_scope.
Local Notation "a * b" := (o_mul o a b) : ops_scope.
Local Notation "a / b" := (o_div o a b) : ops_scope.
Local Open Scope ops_scope.

(** numpy's [add.reduce] over a contiguous array ([pairwise_sum] in
    its loops): fewer than eight entries are added in order, starting
    from [-0.0]; up to 128 go to eight accumulators in turn, which are
    then added in pairs, and what is left over is added in order; a
    longer array is split in two, the first part a multiple of eight
    long. *)
Fixpoint unrolled_in (r0 r1 r2 r3 r4 r5 r6 r7 : T) (a : list T) : T :=
  match a with
  | a0 :: a1 :: a2 :: a3 :: a4 :: a5 :: a6 :: a7 :: rest =>
      unrolled_in (r0 + a0) (r1 + a1) (r2 + a2) (r3 + a3)
                  (r4 + a4) (r5 + a5) (r6 + a6) (r7 + a7) rest
  | _ => fold_left (o_add o) a (((r0 + r1) + (r2 + r3)) + ((r4 + r5) + (r6 + r7)))
  end.

Definition block_sum_in (a : list T) : T :=
  match a with
  | r0 :: r1 :: r2 :: r3 :: r4 :: r5 :: r6 :: r7 :: rest =>
      unrolled_in r0 r1 r2 r3 r4 r5 r6 r7 rest
  | _ => fold_left (o_add o) a (o_neg_zero o)
  end.

(** [depth] bounds the number of splits; the length of the array is
    enough. *)
Fixpoint pairwise_sum_in (depth : nat) (a : list T) : T :=
  match depth with
  | S d =>
      let n := List.length a in
      if (128 <? n)%nat then
        let n2 := (n / 2 - (n / 2) mod 8)%nat in
        pairwise_sum_in d (firstn n2 a) + pairwise_sum_in d (skipn n2 a)
      else block_sum_in a
  | O => block_sum_in a
  end.

(** [a.sum()]: zero for an empty array. *)
Definition sum_in (a : list T) : T :=
  match a with
  | [] => o_zero o
  | _ :: _ => pairwise_sum_in (List.length a) a
  end.

(** The state of Welford's recurrence in [algos.nancorr]. *)
Record welford_in := {
  nobs : nat;
  meanx : T; meany : T;
  ssqdm_x : T; ssqdm_y : T;
  covxy : T
}.

Definition welford0_in : welford_in :=
  {| nobs := 0; meanx := o_zero o; meany := o_zero o;
     ssqdm_x := o_zero o; ssqdm_y := o_zero o; covxy := o_zero o |}.

(** One row: skipped unless both entries are finite. *)
Definition welford_step_in (w : welford_in) (vxy : T * T) : welford_in :=
  let (vx, vy) := vxy in
  if o_isfinite o vx && o_isfinite o vy then
    let n := S (nobs w) in
    let dx := vx - meanx w in
    let dy := vy - meany w in
    let mx := meanx w + o_one o / o_of_nat o n * dx in
    let my := meany w + o_one o / o_of_nat o n * dy in
    {| nobs := n; meanx := mx; meany := my;
       ssqdm_x := ssqdm_x w + (vx - mx) * dx;
       ssqdm_y := ssqdm_y w + (vy - my) * dy;
       covxy := covxy w + (vx - mx) * dy |}
  else w.

Definition welford_run_in (rows : list (T * T)) : welford_in :=
  fold_left welford_step_in rows welford0_in.

(** Kahan-compensated sum of [group_mean]; a compensation that is not
    a number, as it is after an infinite entry, is reset. *)
Definition kahan_step_in (sc : T * T) (val : T) : T * T :=
  let (sumx, comp) := sc in
  let y := val - comp in
  let t := sumx + y in
  let c := t - sumx - y in
  (t, if o_is_nan o c then o_zero o else c).

Definition kahan_sum_in (l : list T) : T :=
  fst (fold_left kahan_step_in l (o_zero o, o_zero o)).

(** Welford's recurrence of [group_var] ([ddof = 1]): the count, the
    mean and the sum of the squared deviations. *)
Definition group_var_step_in (st : nat * T * T) (val : T) : nat * T * T :=
  let '(n, mean, out) := st in
  let n' := S n in
  let mean' := mean + (val - mean) / o_of_nat o n' in
  (n', mean', out + (val - mean') * (val - mean)).

Definition group_var_run_in (l : list T) : nat * T * T :=
  fold_left group_var_step_in l (O, o_zero o, o_zero o).

Local Close Scope ops_scope.

End Recurrences.

(** ** Frames and series *)

(** A column by dtype: numeric ([int64]/[float64], read as [float64]),
    [object] (text labels), or anything else ([bool], dates). *)
Inductive column :=
| NumericCol (values : list float)
| ObjectCol (labels : list (option string))
| OtherCol (size : nat).

(** A frame: its columns in file order, by name. *)
Definition DataFrame := list (string * column).

(** A series: values with the row labels they came from. *)
Definition Series := list (nat * float).

Definition is_numeric (c : column) : bool :=
  match c with NumericCol _ => true | _ => false end.

Definition is_object (c : column) : bool :=
  match c with ObjectCol _ => true | _ => false end.

(** [df.select_dtypes(include=...).columns.tolist()] *)
Definition select_dtypes (keep : column -> bool) (df : DataFrame) : list string :=
  map fst (filter (fun nc => keep (snd nc)) df).

(** [df[name]] *)
Fixpoint getitem (df : DataFrame) (name : string) : option column :=
  match df with
  | [] => None
  | (n, c) :: rest => if String.eqb n name then Some c else getitem rest name
  end.

Definition numeric_values (df : DataFrame) (name : string) : list float :=
  match getitem df name with
  | Some (NumericCol v) => v
  | _ => []
  end.

Definition object_labels (df : DataFrame) (name : string) : list (option string) :=
  match getitem df name with
  | Some (ObjectCol l) => l
  | _ => []
  end.

Fixpoint enumerate_from {A} (i : nat) (l : list A) : list (nat * A) :=
  match l with
  | [] => []
  | x :: r => (i, x) :: enumerate_from (S i) r
  end.

Definition to_series (v : list float) : Series := enumerate_from 0 v.

(** [s.dropna()] *)
Definition series_dropna (s : Series) : Series :=
  filter (fun iv => negb (F.is_nan (snd iv))) s.

Definition series_values (s : Series) : list float := map snd s.

(** [s[mask]] for a mask computed value by value. *)
Definition series_where (p : float -> bool) (s : Series) : Series :=
  filter (fun iv => p (snd iv)) s.

(** ** Reductions of a series (all skip NaN) *)

(** [values.sum()] of a [float64] array. *)
Definition np_sum (a : list float) : float := sum_in binary64 a.

(** [nanops] puts 0 in the place of a missing entry before it sums. *)
Definition fillna0 (v : list float) : list float :=
  map (fun x => if F.is_nan x then 0 else x) v.

(** [s.mean()], by [nanops.nanmean] (the optional [bottleneck]
    accelerator not installed): the sum over the count of the values
    present; NaN when there is none. *)
Definition mean (v : list float) : float :=
  let count := length (F.dropna v) in
  if (count =? 0)%nat then nan
  else np_sum (fillna0 v) / F.of_nat count.

(** [s.std()], the sample standard deviation ([ddof = 1]) by the
    two-pass formula of [nanops.nanvar]; NaN when there are fewer than
    two values. *)
Definition var (v : list float) : float :=
  let count := length (F.dropna v) in
  if (count <=? 1)%nat then nan
  else
    let avg := np_sum (fillna0 v) / F.of_nat count in
    let sqr := map (fun x => if F.is_nan x then 0 else (avg - x) * (avg - x)) v in
    np_sum sqr / F.of_nat (count - 1).

Definition std (v : list float) : float := sqrt (var v).

(** [s.max()] and [s.min()]: NaN entries are skipped; NaN when nothing
    is left.  Between zeros of opposite signs, which compare as equal,
    numpy's vector loops return one or the other depending on the
    platform; the first is kept here. *)
Definition nanmax (v : list float) : float :=
  match F.dropna v with
  | [] => nan
  | x :: r => fold_left (fun a b => if a <? b then b else a) r x
  end.

Definition nanmin (v : list float) : float :=
  match F.dropna v with
  | [] => nan
  | x :: r => fold_left (fun a b => if b <? a then b else a) r x
  end.

(** ** Quantiles *)

Fixpoint insert_asc (x : float) (l : list float) : list float :=
  match l with
  | [] => [x]
  | y :: r => if y <=? x then y :: insert_asc x r else x :: l
  end.

Definition sort_asc (l : list float) : list float := fold_right insert_asc [] l.

(** numpy's [_lerp]: [a + (b - a) * t], computed from the right end
    when [t >= 0.5]. *)
Definition lerp (a b t : float) : float :=
  let diff := b - a in
  if 0.5 <=? t then b - diff * (1 - t) else a + diff * t.

(** [s.quantile(k / 4)] with linear interpolation ([k] is 1 for 0.25
    and 3 for 0.75): the virtual index [k/4 * (n - 1)] splits into the
    position below it and the fraction above; both are exact in
    binary64, so they are taken from integer division. *)
Definition quartile (k : nat) (v : list float) : float :=
  let xs := sort_asc (F.dropna v) in
  match length xs with
  | O => nan
  | S n1 =>
      let lo := (k * n1 / 4)%nat in
      let hi := Nat.min (S lo) n1 in
      let gamma := F.of_nat ((k * n1) mod 4) / 4 in
      lerp (nth lo xs nan) (nth hi xs nan) gamma
  end.

(** ** Pairwise Pearson correlation: [df.corr()] *)

(** Welford's recurrence of [algos.nancorr], in binary64. *)
Definition welford : Type := welford_in float.

Definition welford0 : welford := welford0_in binary64.

Definition welford_step : welford -> float * float -> welford :=
  welford_step_in binary64.

Definition welford_run (xs ys : list float) : welford :=
  welford_run_in binary64 (combine xs ys).

(** The coefficient from the final state ([min_periods = 1]); NaN when
    nothing was observed or when the divisor is zero; clipped to
    [[-1, 1]]. *)
Definition welford_coeff (w : welford) : float :=
  if (nobs w <? 1)%nat then nan
  else
    let divisor := sqrt (ssqdm_x w * ssqdm_y w) in
    if F.neqb divisor 0 then
      let val := covxy w / divisor in
      if F.gtb val 1 then 1
      else if val <? -1 then -1
      else val
    else nan.

Definition nancorr (xs ys : list float) : float :=
  welford_coeff (welford_run xs ys).

(** ** Group-by aggregation: [df.groupby(cat)[num].agg(['mean','std','count'])] *)

Record group_stats := {
  g_mean : float;
  g_std : float;
  g_count : nat
}.

Fixpoint insert_label (s : string) (l : list string) : list string :=
  match l with
  | [] => [s]
  | t :: r =>
      match String.compare s t with
      | Lt => s :: l
      | Eq => l
      | Gt => t :: insert_label s r
      end
  end.

(** The group keys: the distinct labels present, sorted; rows without a
    label belong to no group. *)
Fixpoint group_keys (labels : list (option string)) : list string :=
  match labels with
  | [] => []
  | None :: r => group_keys r
  | Some s :: r => insert_label s (group_keys r)
  end.

(** The numeric entries of the rows carrying label [key], in row order. *)
Fixpoint group_values (key : string) (labels : list (option string)) (v : list float)
  : list float :=
  match labels, v with
  | Some s :: lr, x :: vr =>
      if String.eqb s key then x :: group_values key lr vr
      else group_values key lr vr
  | None :: lr, _ :: vr => group_values key lr vr
  | _, _ => []
  end.

(** [group_mean]: the Kahan-compensated sum, in binary64, over the
    count; NaN for a group without a value. *)
Definition kahan_step : float * float -> float -> float * float :=
  kahan_step_in binary64.

Definition group_mean (v : list float) : float :=
  let xs := F.dropna v in
  match xs with
  | [] => nan
  | _ => kahan_sum_in binary64 xs / F.of_nat (length xs)
  end.

(** [group_var]: the recurrence, in binary64; NaN for fewer than two
    values. *)
Definition group_var_step : nat * float * float -> float -> nat * float * float :=
  group_var_step_in binary64.

Definition group_var (v : list float) : float :=
  let xs := F.dropna v in
  let '(n, _, out) := group_var_run_in binary64 xs in
  if (n <=? 1)%nat then nan else out / F.of_nat (n - 1).

Definition group_std (v : list float) : float := sqrt (group_var v).

Definition agg_mean_std_count (v : list float) : group_stats :=
  {| g_mean := group_mean v; g_std := group_std v; g_count := length (F.dropna v) |}.

(** One row of the result per group key. *)
Definition groupby_agg (labels : list (option string)) (v : list float)
  : list (string * group_stats) :=
  map (fun key => (key, agg_mean_std_count (group_values key labels v)))
      (group_keys labels).

End Pandas.

(* ================================================================== *)
(** * The analyzer: [class CSVAnalyzer] *)
(* ================================================================== *)

Module CSVAnalyzer.

Import Pandas.
Local Open Scope float_scope.

(** The instance state after [load_data]: the frame and the two lists
    of column names computed from its dtypes. *)
Record t := {
  data : DataFrame;
  numeric_columns : list string;
  categorical_columns : list string
}.

Definition load_data (df : DataFrame) : t :=
  {| data := df;
     numeric_columns := select_dtypes is_numeric df;
     categorical_columns := select_dtypes is_object df |}.

(** ** Connections *)

Inductive direction := positive | negative.

(** The dictionaries [find_connections] appends, by their ['type']. *)
Inductive connection :=
| correlation (column1 column2 : string) (strength : float)
              (dir : direction) (value : float)
| categorical_influence (categorical_column numeric_column : string)
                        (strength : float)
                        (details : list (string * group_stats)).

Definition strength_of (c : connection) : float :=
  match c with
  | correlation _ _ s _ _ => s
  | categorical_influence _ _ s _ => s
  end.

(** [corr_matrix.loc[col1, col2]] for [col1] before [col2]: [nancorr]
    fills the entry from the pass that takes the later column first. *)
Definition corr_loc (a : t) (col1 col2 : string) : float :=
  nancorr (numeric_values (data a) col2) (numeric_values (data a) col1).

(** The body of the inner loop over numeric pairs. *)
Definition correlation_of (a : t) (col1 col2 : string) : list connection :=
  let c := corr_loc a col1 col2 in
  if F.gtb (abs c) 0.3 then
    [correlation col1 col2 (abs c)
                 (if F.gtb c 0 then positive else negative) c]
  else [].

(** [for i, col1 in enumerate(cols): for col2 in cols[i+1:]] *)
Fixpoint numeric_pairs (a : t) (cols : list string) : list connection :=
  match cols with
  | [] => []
  | col1 :: rest =>
      flat_map (correlation_of a col1) rest ++ numeric_pairs a rest
  end.

Definition correlations (a : t) : list connection :=
  if (1 <? List.length (numeric_columns a))%nat
  then numeric_pairs a (numeric_columns a)
  else [].

Definition grouped (a : t) (cat_col num_col : string) : list (string * group_stats) :=
  groupby_agg (object_labels (data a) cat_col) (numeric_values (data a) num_col).

Definition std_column (g : list (string * group_stats)) : list float :=
  map (fun kv => g_std (snd kv)) g.

Definition variance_ratio (g : list (string * group_stats)) : float :=
  nanmax (std_column g) / (nanmin (std_column g) + 1e-10).

(** The body of the inner loop over categorical-by-numeric pairs. *)
Definition influence_of (a : t) (cat_col num_col : string) : list connection :=
  let g := grouped a cat_col num_col in
  if (1 <? List.length g)%nat then
    let r := variance_ratio g in
    if F.gtb r 2 then
      [categorical_influence cat_col num_col (F.py_min (r / 10) 1) g]
    else []
  else [].

Definition influences (a : t) : list connection :=
  flat_map (fun cat_col => flat_map (influence_of a cat_col) (numeric_columns a))
           (categorical_columns a).

(** [sorted(connections, key=strength, reverse=True)]: a stable sort,
    so entries whose keys do not compare as smaller keep their order;
    the insertion below passes an entry only over strictly smaller
    ones. *)
Fixpoint insert_by_strength (c : connection) (l : list connection) : list connection :=
  match l with
  | [] => [c]
  | y :: r =>
      if strength_of c <? strength_of y then y :: insert_by_strength c r
      else c :: l
  end.

Definition sorted_by_strength (l : list connection) : list connection :=
  fold_right insert_by_strength [] l.

Definition discovered (a : t) : list connection :=
  correlations a ++ influences a.

Definition find_connections (a : t) : list connection :=
  sorted_by_strength (discovered a).

(** ** Outliers *)

Inductive result (A : Type) :=
| Ok (x : A)
| ValueError (message : string).
Arguments Ok {A} x.
Arguments ValueError {A} message.

Fixpoint mem (s : string) (l : list string) : bool :=
  match l with
  | [] => false
  | x :: r => String.eqb s x || mem s r
  end.

Definition iqr_bounds (v : list float) : float * float :=
  let Q1 := quartile 1 v in
  let Q3 := quartile 3 v in
  let IQR := Q3 - Q1 in
  (Q1 - 1.5 * IQR, Q3 + 1.5 * IQR).

Definition outside (bounds : float * float) (x : float) : bool :=
  (x <? fst bounds) || F.gtb x (snd bounds).

Definition z_score (m s x : float) : float := abs ((x - m) / s).

Definition get_outliers (a : t) (column method : string) : result Series :=
  if negb (mem column (numeric_columns a)) then
    ValueError ("Column '" ++ column ++ "' is not numeric")
  else
    let data_col := series_dropna (to_series (numeric_values (data a) column)) in
    let v := series_values data_col in
    if String.eqb method "iqr" then
      Ok (series_where (outside (iqr_bounds v)) data_col)
    else if String.eqb method "zscore" then
      Ok (series_where (fun x => F.gtb (z_score (mean v) (std v) x) 3) data_col)
    else Ok [].

End CSVAnalyzer.

(* ================================================================== *)
(** * The summary: [CSVAnalyzer.get_summary] *)
(* ================================================================== *)

Module Summary.

Import Pandas CSVAnalyzer.
Local Open Scope string_scope.
Local Open Scope float_scope.

(** ** What pandas computes for it *)

Definition column_size (c : column) : nat :=
  match c with
  | NumericCol values => List.length values
  | ObjectCol labels => List.length labels
  | OtherCol size => size
  end.

(** [len(df)]: every column of a frame has as many entries as the
    frame has rows. *)
Definition n_rows (df : DataFrame) : nat :=
  match df with
  | [] => 0
  | (_, c) :: _ => column_size c
  end.

Definition rectangular (df : DataFrame) : Prop :=
  forall name c, In (name, c) df -> column_size c = n_rows df.

Definition is_none (l : option string) : bool :=
  match l with None => true | Some _ => false end.

(** [df.isnull().sum()], column by column; a column of another dtype
    as [read_csv] infers it ([bool]) has no missing entry. *)
Definition isnull_sum (c : column) : nat :=
  match c with
  | NumericCol values => List.length (filter F.is_nan values)
  | ObjectCol labels => List.length (filter is_none labels)
  | OtherCol _ => 0
  end.

(** One column of [df.describe()]: count, mean, std, min, the three
    quartiles and max of the non-missing values. *)
Record describe_stats := {
  d_count : float;
  d_mean : float;
  d_std : float;
  d_min : float;
  d_25 : float;
  d_50 : float;
  d_75 : float;
  d_max : float
}.

Definition describe_1d (values : list float) : describe_stats :=
  {| d_count := F.of_nat (List.length (F.dropna values));
     d_mean := mean values;
     d_std := std values;
     d_min := nanmin values;
     d_25 := quartile 1 values;
     d_50 := quartile 2 values;
     d_75 := quartile 3 values;
     d_max := nanmax values |}.

(** [df.describe().to_dict()] for a frame with a numeric column: the
    numeric columns are described, the others left out. *)
Fixpoint describe (df : DataFrame) : list (string * describe_stats) :=
  match df with
  | [] => []
  | (name, NumericCol values) :: rest => (name, describe_1d values) :: describe rest
  | _ :: rest => describe rest
  end.

(** ** The dictionary returned *)

Record summary := {
  shape : nat * nat;
  columns : list string;
  summary_numeric_columns : list string;
  summary_categorical_columns : list string;
  missing_values : list (string * nat);
  basic_stats : list (string * describe_stats)
}.

(** The instance is [None] while [self.data] is, that is until
    [load_data] has run. *)
Definition get_summary (self : option t) : result summary :=
  match self with
  | None => ValueError "Data not loaded. Call load_data() first."
  | Some a =>
      Ok {| shape := (n_rows (data a), List.length (data a));
            columns := map fst (data a);
            summary_numeric_columns := numeric_columns a;
            summary_categorical_columns := categorical_columns a;
            missing_values := map (fun nc => (fst nc, isnull_sum (snd nc))) (data a);
            basic_stats := match numeric_columns a with
                           | [] => []
                           | _ :: _ => describe (data a)
                           end |}
  end.

End Summary.

(* ================================================================== *)
(** * The charts: [class Visualizer] *)
(* ================================================================== *)

(** [visualizer.py] draws with matplotlib, seaborn and plotly.  What is
    drawn is not modelled; which calls are made, on which subplot, and
    which files are written is: a method is the list of these events,
    ended by the exception it raises if it raises one.  The drawing
    and fitting calls themselves are taken to succeed. *)

Module Visualizer.

Import Pandas CSVAnalyzer.
Local Open Scope string_scope.
Local Open Scope nat_scope.

(** ** The subplots of a figure *)

(** What the code holds in [axes]: one subplot, or a sequence (a numpy
    array or a Python list) of such objects. *)
Inductive py_object :=
| Axes (k : nat)
| Sequence (items : list py_object).

Definition axes_row (start n : nat) : list py_object := map Axes (seq start n).

(** The second component of [plt.subplots(nrows, ncols)]: matplotlib
    squeezes it, to the subplot itself for a 1 x 1 grid, to a
    one-dimensional array for a single row or column, and leaves a
    two-dimensional array otherwise.  Subplots are numbered row by
    row. *)
Definition subplots (nrows ncols : nat) : py_object :=
  if (nrows =? 1) && (ncols =? 1) then Axes 0
  else if (nrows =? 1) || (ncols =? 1) then Sequence (axes_row 0 (nrows * ncols))
  else Sequence (map (fun r => Sequence (axes_row (r * ncols) ncols)) (seq 0 nrows)).

(** The entries of a list or of an array along its first axis. *)
Definition elements (o : py_object) : list py_object :=
  match o with
  | Axes _ => []
  | Sequence items => items
  end.

(** [axes.flatten()] *)
Fixpoint flatten (o : py_object) : list py_object :=
  match o with
  | Axes k => [Axes k]
  | Sequence items => flat_map flatten items
  end.

(** ** Events and exceptions *)

Inductive event :=
| hist (ax : nat) (column : string)
| bar (ax : nat) (column : string)
| set_visible_false (ax : nat)
| heatmap
| pairplot
| draw_network (connections : list connection)
| scatter (ax : nat) (column1 column2 : string)
| boxplot (ax : nat) (numeric_column categorical_column : string)
| savefig (file : string)
| add_trace (row col : nat) (column : string)
| imshow
| write_html (file : string)
| print (message : string).

Inductive exception := AttributeError | IndexError.

Definition action := (list event * option exception)%type.

Definition skip : action := ([], None).
Definition emit (e : event) : action := ([e], None).
Definition raise (x : exception) : action := ([], Some x).

(** One statement after another: the second runs unless the first
    raised. *)
Definition and_then (a b : action) : action :=
  match snd a with
  | Some _ => a
  | None => ((fst a ++ fst b)%list, snd b)
  end.

Notation "a ;; b" := (and_then a b) (at level 61, right associativity).

Fixpoint for_each {A : Type} (l : list A) (body : A -> action) : action :=
  match l with
  | [] => skip
  | x :: rest => body x ;; for_each rest body
  end.

Definition when (condition : bool) (a : action) : action :=
  if condition then a else skip.

(** A drawing method called on [axes[i]]: a subplot has it, an array
    has not, and past the end there is no entry. *)
Definition on_item (axes : list py_object) (i : nat) (call : nat -> event) : action :=
  match nth_error axes i with
  | Some (Axes k) => emit (call k)
  | Some (Sequence _) => raise AttributeError
  | None => raise IndexError
  end.

(** ** The basic plots *)

Definition _create_distribution_plots (numeric_cols : list string) (format : string)
  : action :=
  let n_cols := List.length numeric_cols in
  let n_rows := ((n_cols + 2) / 3)%nat in
  let grid := subplots n_rows 3 in
  let axes :=
    if (n_rows =? 1) && (n_cols =? 1) then [grid]
    else if n_rows =? 1 then elements grid
    else flatten grid in
  for_each (enumerate_from 0 numeric_cols)
    (fun ic => if fst ic <? List.length axes
               then on_item axes (fst ic) (fun k => hist k (snd ic))
               else skip) ;;
  for_each (seq n_cols (List.length axes - n_cols))
    (fun i => on_item axes i set_visible_false) ;;
  when (mem format ["png"; "both"]) (emit (savefig "distributions.png")) ;;
  when (mem format ["html"; "both"])
    (for_each (enumerate_from 0 numeric_cols)
       (fun ic => emit (add_trace (fst ic / 3 + 1) (fst ic mod 3 + 1) (snd ic))) ;;
     emit (write_html "distributions.html")).

Definition _create_categorical_plots (categorical_cols : list string) (format : string)
  : action :=
  let n_cols := List.length categorical_cols in
  let n_rows := ((n_cols + 2) / 3)%nat in
  let grid := subplots n_rows 3 in
  let axes :=
    if (n_rows =? 1) && (n_cols =? 1)
    then (if n_cols =? 1 then [grid] else elements grid)
    else flatten grid in
  for_each (enumerate_from 0 categorical_cols)
    (fun ic => if fst ic <? List.length axes
               then on_item axes (fst ic) (fun k => bar k (snd ic))
               else skip) ;;
  for_each (seq n_cols (List.length axes - n_cols))
    (fun i => on_item axes i set_visible_false) ;;
  when (mem format ["png"; "both"]) (emit (savefig "categorical.png")).

Definition _create_correlation_heatmap (format : string) : action :=
  emit heatmap ;;
  when (mem format ["png"; "both"]) (emit (savefig "correlation_heatmap.png")) ;;
  when (mem format ["html"; "both"])
    (emit imshow ;; emit (write_html "correlation_heatmap.html")).

Definition _create_pairplot (format : string) : action :=
  when (mem format ["png"; "both"])
    (emit pairplot ;; emit (savefig "pairplot.png")).

Definition create_basic_plots (data : DataFrame) (format : string) : action :=
  let numeric_cols := select_dtypes is_numeric data in
  let categorical_cols := select_dtypes is_object data in
  when (0 <? List.length numeric_cols)
    (_create_distribution_plots numeric_cols format) ;;
  when (0 <? List.length categorical_cols)
    (_create_categorical_plots categorical_cols format) ;;
  when (1 <? List.length numeric_cols)
    (_create_correlation_heatmap format) ;;
  when ((2 <=? List.length numeric_cols) && (List.length numeric_cols <=? 6))
    (_create_pairplot format).

(** ** The charts of the connections *)

Definition _create_connection_network (connections : list connection) (format : string)
  : action :=
  emit (draw_network connections) ;;
  when (mem format ["png"; "both"]) (emit (savefig "connection_network.png")).

Definition _create_connection_details (top_connections : list connection)
                                      (format : string) : action :=
  let n_connections := List.length top_connections in
  if n_connections =? 0 then skip
  else
    let grid := subplots n_connections 1 in
    let axes := if n_connections =? 1 then [grid] else elements grid in
    for_each (enumerate_from 0 top_connections)
      (fun ic =>
         match snd ic with
         | correlation column1 column2 _ _ _ =>
             on_item axes (fst ic) (fun k => scatter k column1 column2)
         | categorical_influence categorical_column numeric_column _ _ =>
             on_item axes (fst ic)
                     (fun k => boxplot k numeric_column categorical_column)
         end) ;;
    when (mem format ["png"; "both"]) (emit (savefig "connection_details.png")).

Definition plot_connections (connections : list connection) (format : string)
  : action :=
  match connections with
  | [] => emit (print "No connections to visualize")
  | _ :: _ =>
      _create_connection_network connections format ;;
      _create_connection_details (firstn 5 connections) format
  end.

(** ** Vocabulary *)

(** The files an action writes. *)
Definition written (a : action) : list string :=
  flat_map (fun e => match e with
                     | savefig file => [file]
                     | write_html file => [file]
                     | _ => []
                     end) (fst a).

Definition raised (a : action) : option exception := snd a.

(** The chart of the i-th of the connections detailed. *)
Definition detail (ic : nat * connection) : event :=
  match snd ic with
  | correlation column1 column2 _ _ _ => scatter (fst ic) column1 column2
  | categorical_influence categorical_column numeric_column _ _ =>
      boxplot (fst ic) numeric_column categorical_column
  end.

End Visualizer.

(* ================================================================== *)
(** * The command line: [main.py] *)
(* ================================================================== *)

(** A run of [main], once the arguments are parsed, is what it prints
    and draws, in order, and how it ends.  What it finds outside the
    program is given with the arguments: whether the file exists,
    whether the visualizer gets its output directory and style, and the
    frame [read_csv] makes of the file, if it makes one. *)

Module Main.

Import Pandas CSVAnalyzer Summary Visualizer.
Local Open Scope string_scope.
Local Open Scope nat_scope.

(** The parsed arguments. *)
Record arguments := {
  file : string;
  output : string;
  connections : bool;
  visualize : bool;
  format : string
}.

Record world := {
  file_exists : bool;
  visualizer_ready : bool;
  read_csv : option DataFrame
}.

(** [Path(args.file)], which prints in its own, normalised, form. *)
Inductive path := Path (text : string).

(** What the [try] block can raise. *)
Inductive failure :=
| LoadError
| SummaryError
| ChartError (x : exception).

(** One constructor per [print] of [main], with the values it
    interpolates, and one for what the visualizer does. *)
Inductive effect :=
| say_not_found (file : string)
| say_loading (csv_file : path)
| say_loaded (rows columns : nat)
| say_summary (s : summary)
| say_analyzing
| say_found (n : nat)
| say_generating
| say_saved (directory : string)
| say_error (e : failure)
| chart (e : event).

Definition step := (list effect * option failure)%type.

Definition nothing : step := ([], None).
Definition say (o : effect) : step := ([o], None).
Definition fail (x : failure) : step := ([], Some x).

Definition next (a b : step) : step :=
  match snd a with
  | Some _ => a
  | None => ((fst a ++ fst b)%list, snd b)
  end.

Notation "a >> b" := (next a b) (at level 61, right associativity).

(** A method of the visualizer, run from [main]. *)
Definition draw (a : action) : step :=
  (map chart (fst a), option_map ChartError (snd a)).

(** The body of the [try] block. *)
Definition body (args : arguments) (w : world) : step :=
  say (say_loading (Path (file args))) >>
  match read_csv w with
  | None => fail LoadError
  | Some data =>
      let analyzer := load_data data in
      say (say_loaded (n_rows data) (List.length data)) >>
      match get_summary (Some analyzer) with
      | ValueError _ => fail SummaryError
      | Ok summary => say (say_summary summary)
      end >>
      (if connections args then
         let found := find_connections analyzer in
         say say_analyzing >>
         say (say_found (List.length found)) >>
         (if visualize args then draw (plot_connections found (format args))
          else nothing)
       else nothing) >>
      (if visualize args then
         say say_generating >>
         draw (create_basic_plots data (format args)) >>
         say (say_saved (output args))
       else nothing)
  end.

(** How a run ends: [main] returns, [sys.exit] is called, or an
    exception is not caught. *)
Inductive ending :=
| returned
| exited (status : nat)
| uncaught.

(** The exit status of the process: 0 after a return, and 1 after the
    traceback of an exception that was not caught. *)
Definition exit_status (e : ending) : nat :=
  match e with
  | returned => 0
  | exited status => status
  | uncaught => 1
  end.

(** [main]: the file is checked, the analyzer and the visualizer are
    made, and the body runs under [except Exception], whose handler
    prints the error and exits with status 1.  A visualizer that cannot
    be made is outside the [try]. *)
Definition main (args : arguments) (w : world) : list effect * ending :=
  if negb (file_exists w) then ([say_not_found (file args)], exited 1)
  else if negb (visualizer_ready w) then ([], uncaught)
  else
    match body args w with
    | (out, None) => (out, returned)
    | (out, Some e) => ((out ++ [say_error e])%list, exited 1)
    end.

(** The files a run writes. *)
Definition files (out : list effect) : list string :=
  flat_map (fun o => match o with
                     | chart (savefig name) => [name]
                     | chart (write_html name) => [name]
                     | _ => []
                     end) out.

End Main.

(* ================================================================== *)
(** * Vocabulary of the statements *)
(* ================================================================== *)

(** [subseq s l]: [s] is [l] with some entries removed, the others in
    their original relative order. *)
Inductive subseq {A : Type} : list A -> list A -> Prop :=
| subseq_nil : subseq [] []
| subseq_skip x s l : subseq s l -> subseq s (x :: l)
| subseq_keep x s l : subseq s l -> subseq (x :: s) (x :: l).

(** [before x y l]: [x] occurs in [l] at a position before one of [y]. *)
Definition before {A : Type} (x y : A) (l : list A) : Prop :=
  exists l1 l2 l3, l = l1 ++ x :: l2 ++ y :: l3.

(** ** Pairs of columns *)

Module ConnectionVocabulary.

Import CSVAnalyzer.

(** The two columns a connection joins. *)
Definition endpoints (c : connection) : string * string :=
  match c with
  | correlation column1 column2 _ _ _ => (column1, column2)
  | categorical_influence categorical_column numeric_column _ _ =>
      (categorical_column, numeric_column)
  end.

(** Every pair of a list, the earlier entry first. *)
Fixpoint ordered_pairs {A : Type} (l : list A) : list (A * A) :=
  match l with
  | [] => []
  | x :: rest => map (pair x) rest ++ ordered_pairs rest
  end.

End ConnectionVocabulary.

(** ** Statistics by their definitions *)

Module Statistics.

Import Arithmetic.

Section Definitions.

Variable T : Type.
Variable o : ops T.

(** The entries, added one after the other. *)
Definition total (l : list T) : T := fold_left (o_add o) l (o_zero o).

Definition average (l : list T) : T :=
  o_div o (total l) (o_of_nat o (List.length l)).

Definition deviations (l : list T) : list T :=
  map (fun x => o_sub o x (average l)) l.

(** The sum of the squared deviations from the average. *)
Definition sum_of_squares (l : list T) : T :=
  total (map (fun d => o_mul o d d) (deviations l)).

(** The sum, over the rows, of the product of the deviations of the
    two entries, each from the average of its column. *)
Definition sum_of_products (rows : list (T * T)) : T :=
  total (map (fun dd => o_mul o (fst dd) (snd dd))
             (combine (deviations (map fst rows)) (deviations (map snd rows)))).


(** Pearson's coefficient of the rows. *)
Definition pearson (rows : list (T * T)) : T :=
  o_div o (sum_of_products rows)
        (o_sqrt o (o_mul o (sum_of_squares (map fst rows))
                           (sum_of_squares (map snd rows)))).

End Definitions.

End Statistics.

(** ** Sums over the reals *)

Module Moments.

Import Arithmetic Pandas.
Import Rdefinitions Raxioms.
Local Open Scope R_scope.

Fixpoint summed (l : list R) : R :=
  match l with
  | [] => 0
  | x :: r => x + summed r
  end.

Definition squares (l : list R) : list R := map (fun x => x * x) l.

Definition products (rows : list (R * R)) : list R :=
  map (fun p => fst p * snd p) rows.


(** What the state of [nancorr] holds after [k] rows with sums [Ax] and
    [Ay], sums of squares [Bxx] and [Byy], and sum of products [Bxy]. *)
Definition welford_state (k : nat) (Ax Ay Bxx Byy Bxy : R) (w : welford_in R) : Prop :=
  nobs w = k /\
  INR k * meanx w = Ax /\ INR k * meany w = Ay /\
  ssqdm_x w = Bxx - meanx w * Ax /\
  ssqdm_y w = Byy - meany w * Ay /\
  covxy w = Bxy - meanx w * Ay.

End Moments.

(** ** Order statistics *)

Module QuantileVocabulary.

Local Open Scope float_scope.

Definition ascending (a b : float) : Prop := (a <=? b) = true.

(** The value at the virtual index [k / 4 * (n - 1)] of an ascending
    list of [n] numbers, interpolated linearly between its two
    neighbours the way numpy rounds it: from the left neighbour for a
    fraction below one half, from the right one otherwise. *)
Definition at_quarter (k : nat) (sorted : list float) : float :=
  match List.length sorted with
  | O => nan
  | S n1 =>
      let lo := (k * n1 / 4)%nat in
      let hi := Nat.min (S lo) n1 in
      let t := F.of_nat ((k * n1) mod 4) / 4 in
      let a := nth lo sorted nan in
      let b := nth hi sorted nan in
      if 0.5 <=? t then b - (b - a) * (1 - t) else a + (b - a) * t
  end.

End QuantileVocabulary.


(** ** Shapes of rounded results *)

Module RoundingVocabulary.

Local Open Scope Z_scope.

(** The last step of [binary_round_aux]: which value a mantissa and an
    exponent denote once the mantissa is in range. *)
Definition classify (sx : bool) (m e : Z) : spec_float :=
  match m with
  | Z0 => S754_zero sx
  | Zpos p => if e <=? emax - prec then S754_finite sx p e else S754_infinity sx
  | Zneg _ => S754_nan
  end.

(** By how much [shr_fexp] raises the exponent of [m] at [e]. *)
Definition shift_amount (m e : Z) : Z :=
  Z.max 0 (fexp prec emax (Zdigits2 m + e) - e).

(** The values [sqrt] can return: NaN or a value that is not negative. *)
Definition nonneg_or_nan (x : spec_float) : Prop :=
  match x with
  | S754_nan | S754_zero _ | S754_infinity false | S754_finite false _ _ => True
  | _ => False
  end.

(** NaN or a non-negative value that is at most one. *)
Definition unit_or_nan (x : spec_float) : Prop :=
  match x with
  | S754_nan | S754_zero _ => True
  | S754_finite false p e => e < -52 \/ (e = -52 /\ Zpos p <= 2 ^ 52)
  | _ => False
  end.

End RoundingVocabulary.

(** ** Ranked lists *)

Module RankingVocabulary.

Import CSVAnalyzer.
Local Open Scope float_scope.

(** [c1] may stand before [c2] in the ranking. *)
Definition ranks_before (c1 c2 : connection) : Prop :=
  (strength_of c2 <=? strength_of c1) = true.

(** Every strength in the list is a number (not NaN). *)
Definition numbers (l : list connection) : Prop :=
  Forall (fun c => F.is_nan (strength_of c) = false) l.

End RankingVocabulary.

(** ** Grouped tables *)

Module GroupVocabulary.

Import Pandas RoundingVocabulary.
Local Open Scope float_scope.

(** What every row of a grouped table satisfies. *)
Definition aggregated (kv : string * group_stats) : Prop :=
  nonneg_or_nan (Prim2SF (g_std (snd kv))) /\
  ((g_count (snd kv) <= 1)%nat -> g_std (snd kv) = nan).

End GroupVocabulary.

(** ** Welford's recurrence, one column at a time *)

Module WelfordVocabulary.

Import Pandas.
Local Open Scope float_scope.

(** The rows [nancorr] takes into account: both entries finite. *)
Definition jointly_present (xs ys : list float) : list (float * float) :=
  filter (fun p => F.isfinite (fst p) && F.isfinite (snd p)) (combine xs ys).

(** The rows where neither entry is missing. *)
Definition jointly_non_missing (xs ys : list float) : list (float * float) :=
  filter (fun p => negb (F.is_nan (fst p)) && negb (F.is_nan (snd p))) (combine xs ys).

Definition constant (l : list float) : Prop :=
  exists v, forall x, In x l -> x = v.

(** The part of Welford's state that follows one column. *)
Definition part_step (st : nat * float * float) (v : float) : nat * float * float :=
  let '(n, m, s) := st in
  let d := v - m in
  let m' := m + 1 / F.of_nat (S n) * d in
  (S n, m', s + (v - m') * d).

Definition xpart (w : welford) := (nobs w, meanx w, ssqdm_x w).
Definition ypart (w : welford) := (nobs w, meany w, ssqdm_y w).

(** A zero of either sign. *)
Definition is_zero (x : float) : Prop := exists b, Prim2SF x = S754_zero b.

(** [m] is the value [v], up to the sign of zero. *)
Definition near (v m : float) : Prop :=
  Prim2SF m = Prim2SF v \/ (is_zero v /\ is_zero m).

(** The state while the column has shown only the value [v]: nothing
    accumulated, the mean at [v] once a row was seen. *)
Definition settled (v : float) (st : nat * float * float) : Prop :=
  let '(n, m, s) := st in
  is_zero s /\
  ((n = 0%nat /\ Prim2SF m = S754_zero false) \/ ((1 <= n)%nat /\ near v m)).

End WelfordVocabulary.

(** ** Sample frames *)

Module Samples.

Import Pandas.
Local Open Scope float_scope.
Local Open Scope string_scope.

(** Two correlated numeric columns, a constant one and a label column
    with a singleton group. *)
Definition sample_frame : DataFrame :=
  [("a", NumericCol [1; 2; 3; 4; 100]);
   ("b", NumericCol [2; 4; 6; 8; 10.5]);
   ("c", NumericCol [5; 5; 5; 5; 5]);
   ("k", ObjectCol [Some "A"; Some "A"; Some "B"; Some "B"; Some "C"])].

(** One tight group and one spread-out group. *)
Definition spread_frame : DataFrame :=
  [("k", ObjectCol [Some "A"; Some "A"; Some "A"; Some "B"; Some "B"; Some "B"]);
   ("n", NumericCol [1; 1.5; 2; 0; 50; 100])].

(** A varied numeric column, a constant one, and labels with a
    singleton group. *)
Definition degenerate_frame : DataFrame :=
  [("n", NumericCol [1; 100; 5; 6; 7]);
   ("c", NumericCol [5; 5; 5; 5; 5]);
   ("k", ObjectCol [Some "A"; Some "A"; Some "B"; Some "B"; Some "C"])].

(** A column, its double, a column that falls as it rises, and a
    column in another order. *)
Definition doubled_frame : DataFrame :=
  [("a", NumericCol [1; 2; 3; 4; 5]);
   ("b", NumericCol [2; 4; 6; 8; 10]);
   ("c", NumericCol [10; 8; 6; 4; 2]);
   ("d", NumericCol [1; 3; 2; 5; 4])].

(** A column with an infinite entry beside one without. *)
Definition infinite_frame : DataFrame :=
  [("x", NumericCol [1; 2; 3; 4; infinity]);
   ("y", NumericCol [2; 4; 6; 8; 1])].



(** Six values out of order, their quartiles between two of them. *)
Definition unsorted_frame : DataFrame :=
  [("x", NumericCol [4; 100; 1; 2; 3; 7])].

(** Twelve values, the last far from the others. *)
Definition spike_frame : DataFrame :=
  [("x", NumericCol [10; 12; 11; 13; 12; 11; 10; 12; 13; 11; 12; 100])].

(** Ten times the same value: added up in eight accumulators, the sum
    over the count is that value again. *)
Definition ten_constant_frame : DataFrame :=
  [("x", NumericCol (repeat 0x1.999999999999ap-604 10))].

(** Values so close that the squares of their deviations underflow. *)
Definition tiny_frame : DataFrame :=
  [("x", NumericCol [1e-200; 0])].

(** A constant column whose computed mean is one unit in the last place
    off, the squared deviation underflowing. *)
Definition tiny_constant_frame : DataFrame :=
  [("x", NumericCol [0x1.999999999999ap-604; 0x1.999999999999ap-604;
                     0x1.999999999999ap-604])].

End Samples.

(* ================================================================== *)
(** * The recurrences in binary64 *)
(* ================================================================== *)

Module Binary64.

Import Pandas.
Local Open Scope float_scope.

Lemma welford_step_eq w vx vy :
  welford_step w (vx, vy) =
  if F.isfinite vx && F.isfinite vy then
    let n := S (nobs w) in
    let dx := vx - meanx w in
    let dy := vy - meany w in
    let mx := meanx w + 1 / F.of_nat n * dx in
    let my := meany w + 1 / F.of_nat n * dy in
    {| nobs := n; meanx := mx; meany := my;
       ssqdm_x := ssqdm_x w + (vx - mx) * dx;
       ssqdm_y := ssqdm_y w + (vy - my) * dy;
       covxy := covxy w + (vx - mx) * dy |}
  else w.
Proof. reflexivity. Qed.

Lemma kahan_step_eq sumx comp val :
  kahan_step (sumx, comp) val =
  let y := val - comp in
  let t := sumx + y in
  let c := t - sumx - y in
  (t, if F.is_nan c then 0 else c).
Proof. reflexivity. Qed.

Lemma group_var_step_eq n mean out val :
  group_var_step (n, mean, out) val =
  let mean' := mean + (val - mean) / F.of_nat (S n) in
  (S n, mean', out + (val - mean') * (val - mean)).
Proof. reflexivity. Qed.

End Binary64.

(* ================================================================== *)
(** * Lists: filtering and the stable insertion sort *)
(* ================================================================== *)

Section ListFacts.

Context {A : Type}.

Lemma subseq_filter (p : A -> bool) (l : list A) : subseq (filter p l) l.
Proof.
  induction l as [|x l IH]; simpl.
  - constructor.
  - destruct (p x); now constructor.
Qed.

Lemma subseq_refl (l : list A) : subseq l l.
Proof. induction l; now constructor. Qed.

Lemma subseq_trans (s m l : list A) : subseq s m -> subseq m l -> subseq s l.
Proof.
  intros Hsm Hml. revert s Hsm.
  induction Hml as [|x m l Hml IH|x m l Hml IH]; intros s Hsm.
  - exact Hsm.
  - constructor. now apply IH.
  - inversion Hsm; subst.
    + constructor. now apply IH.
    + apply subseq_keep. now apply IH.
Qed.

Lemma subseq_In (s l : list A) (x : A) : subseq s l -> In x s -> In x l.
Proof.
  induction 1; simpl; intuition.
Qed.

End ListFacts.

Module SortFacts.

Import Pandas CSVAnalyzer.

Lemma insert_by_strength_perm c l :
  Permutation (insert_by_strength c l) (c :: l).
Proof.
  induction l as [|y r IH]; simpl.
  - apply Permutation_refl.
  - destruct (PrimFloat.ltb (strength_of c) (strength_of y)).
    + eapply perm_trans; [apply perm_skip, IH | apply perm_swap].
    + apply Permutation_refl.
Qed.

Lemma sorted_by_strength_perm l : Permutation (sorted_by_strength l) l.
Proof.
  induction l as [|c l IH]; simpl.
  - constructor.
  - eapply perm_trans; [apply insert_by_strength_perm | now apply perm_skip].
Qed.

Lemma in_find_connections a c :
  In c (find_connections a) <-> In c (discovered a).
Proof.
  unfold find_connections. split; intros H.
  - eapply Permutation_in; [apply sorted_by_strength_perm | exact H].
  - eapply Permutation_in; [apply Permutation_sym, sorted_by_strength_perm | exact H].
Qed.

End SortFacts.

(* ================================================================== *)
(** * Which connections are discovered *)
(* ================================================================== *)

Module Discovery.

Import Pandas CSVAnalyzer.

Lemma in_correlation_of a col1 col2 c :
  In c (correlation_of a col1 col2) <->
  F.gtb (abs (corr_loc a col1 col2)) 0.3 = true /\
  c = correlation col1 col2 (abs (corr_loc a col1 col2))
        (if F.gtb (corr_loc a col1 col2) 0 then positive else negative)
        (corr_loc a col1 col2).
Proof.
  unfold correlation_of.
  destruct (F.gtb (abs (corr_loc a col1 col2)) 0.3); simpl.
  - intuition congruence.
  - intuition discriminate.
Qed.

Lemma in_numeric_pairs a cols c :
  In c (numeric_pairs a cols) <->
  exists col1 col2, before col1 col2 cols /\ In c (correlation_of a col1 col2).
Proof.
  induction cols as [|x rest IH]; simpl.
  - split; [intros [] | intros (c1 & c2 & (l1 & l2 & l3 & E) & _)].
    destruct l1; discriminate.
  - rewrite in_app_iff, in_flat_map, IH. split.
    + intros [(y & Hy & Hc) | (c1 & c2 & (l1 & l2 & l3 & E) & Hc)].
      * apply in_split in Hy. destruct Hy as (l2 & l3 & ->).
        exists x, y. split; [now exists [], l2, l3 | exact Hc].
      * exists c1, c2. split; [exists (x :: l1), l2, l3; now rewrite E | exact Hc].
    + intros (c1 & c2 & (l1 & l2 & l3 & E) & Hc).
      destruct l1 as [|z l1]; simpl in E; injection E as -> ->.
      * left. exists c2. split; [apply in_or_app; right; now left | exact Hc].
      * right. exists c1, c2. split; [now exists l1, l2, l3 | exact Hc].
Qed.

(** The guard [len(self.numeric_columns) > 1] only skips loops that
    would not run their body. *)
Lemma correlations_pairs a :
  correlations a = numeric_pairs a (numeric_columns a).
Proof.
  unfold correlations.
  destruct (numeric_columns a) as [|x [|y r]]; reflexivity.
Qed.

Lemma in_influence_of a cat_col num_col c :
  In c (influence_of a cat_col num_col) <->
  (1 <? List.length (grouped a cat_col num_col))%nat = true /\
  F.gtb (variance_ratio (grouped a cat_col num_col)) 2 = true /\
  c = categorical_influence cat_col num_col
        (F.py_min (variance_ratio (grouped a cat_col num_col) / 10) 1)
        (grouped a cat_col num_col).
Proof.
  unfold influence_of.
  destruct (1 <? List.length (grouped a cat_col num_col))%nat; simpl.
  - destruct (F.gtb (variance_ratio (grouped a cat_col num_col)) 2); simpl.
    + intuition congruence.
    + intuition discriminate.
  - intuition discriminate.
Qed.

Lemma in_influences a c :
  In c (influences a) <->
  exists cat_col num_col,
    In cat_col (categorical_columns a) /\ In num_col (numeric_columns a) /\
    In c (influence_of a cat_col num_col).
Proof.
  unfold influences. rewrite in_flat_map. split.
  - intros (k & Hk & H). apply in_flat_map in H. destruct H as (n & Hn & H).
    now exists k, n.
  - intros (k & n & Hk & Hn & H). exists k. split; [exact Hk|].
    apply in_flat_map. now exists n.
Qed.

Lemma in_discovered_correlation a col1 col2 s d x :
  In (correlation col1 col2 s d x) (discovered a) <->
  In (correlation col1 col2 s d x) (numeric_pairs a (numeric_columns a)).
Proof.
  unfold discovered. rewrite in_app_iff, correlations_pairs. split.
  - intros [H | H]; [exact H|].
    apply in_influences in H. destruct H as (k & n & _ & _ & H).
    apply in_influence_of in H. destruct H as (_ & _ & H). discriminate.
  - now left.
Qed.

Lemma in_discovered_influence a k n s g :
  In (categorical_influence k n s g) (discovered a) <->
  In (categorical_influence k n s g) (influences a).
Proof.
  unfold discovered. rewrite in_app_iff, correlations_pairs. split.
  - intros [H | H]; [|exact H].
    apply in_numeric_pairs in H. destruct H as (c1 & c2 & _ & H).
    apply in_correlation_of in H. destruct H as (_ & H). discriminate.
  - now right.
Qed.

End Discovery.

(* ================================================================== *)
(** * Binary64 arithmetic: comparisons *)
(* ================================================================== *)

Module FloatFacts.

Local Open Scope float_scope.

Lemma SFcompare_antisym x y c :
  SFcompare x y = Some c -> SFcompare y x = Some (CompOpp c).
Proof.
  destruct x as [sx|sx| |sx mx ex], y as [sy|sy| |sy my ey]; simpl;
    try discriminate; intros [= <-];
    try reflexivity;
    try (destruct sx; reflexivity); try (destruct sy; reflexivity);
    try (destruct sx, sy; reflexivity).
  destruct sx, sy; try reflexivity;
    rewrite (Z.compare_antisym ex ey);
    destruct (ex ?= ey)%Z; simpl; try reflexivity;
    rewrite (Pos.compare_cont_antisym mx my Eq); simpl;
    destruct (Pos.compare_cont Eq my mx); reflexivity.
Qed.

Lemma SFcompare_nan x y :
  SFcompare x y = None <-> x = S754_nan \/ y = S754_nan.
Proof.
  destruct x as [sx|sx| |sx mx ex], y as [sy|sy| |sy my ey]; simpl;
    split; intros H; try discriminate; auto;
    try (destruct H; discriminate).
Qed.

Lemma SFcompare_refl x : x <> S754_nan -> SFcompare x x = Some Eq.
Proof.
  destruct x as [s|s| |s m e]; simpl; intros H; try reflexivity.
  - now destruct s.
  - congruence.
  - destruct s; rewrite Z.compare_refl, Pos.compare_cont_refl; reflexivity.
Qed.

Lemma is_nan_spec x : F.is_nan x = true <-> Prim2SF x = S754_nan.
Proof.
  unfold F.is_nan, PrimFloat.is_nan. rewrite eqb_spec. unfold SFeqb.
  split.
  - intros H. destruct (Prim2SF x) eqn:E; try reflexivity;
      rewrite SFcompare_refl in H by discriminate; discriminate.
  - intros ->. reflexivity.
Qed.

Lemma is_nan_false x : F.is_nan x = false <-> Prim2SF x <> S754_nan.
Proof.
  rewrite <- is_nan_spec. destruct (F.is_nan x); intuition congruence.
Qed.

Lemma ltb_asym a b : (a <? b) = true -> (b <? a) = false.
Proof.
  rewrite !ltb_spec. unfold SFltb.
  destruct (SFcompare (Prim2SF a) (Prim2SF b)) as [c|] eqn:E; try discriminate.
  rewrite (SFcompare_antisym _ _ E). now destruct c.
Qed.

Lemma ltb_leb a b : (a <? b) = true -> (a <=? b) = true.
Proof.
  rewrite ltb_spec, leb_spec. unfold SFltb, SFleb.
  destruct (SFcompare (Prim2SF a) (Prim2SF b)) as [[]|]; congruence.
Qed.

Lemma ltb_not_nan a b :
  (a <? b) = true -> F.is_nan a = false /\ F.is_nan b = false.
Proof.
  rewrite ltb_spec, !is_nan_false. unfold SFltb.
  destruct (SFcompare (Prim2SF a) (Prim2SF b)) eqn:E; try discriminate.
  intros _. split; intros N; rewrite N in E.
  - discriminate.
  - destruct (Prim2SF a); discriminate.
Qed.

Lemma ltb_false_leb a b :
  F.is_nan a = false -> F.is_nan b = false ->
  (a <? b) = false -> (b <=? a) = true.
Proof.
  rewrite !is_nan_false, ltb_spec, leb_spec. unfold SFltb, SFleb.
  intros Ha Hb.
  destruct (SFcompare (Prim2SF a) (Prim2SF b)) as [c|] eqn:E.
  - rewrite (SFcompare_antisym _ _ E). now destruct c.
  - apply SFcompare_nan in E. tauto.
Qed.

Lemma ltb_eqb a b : (a <? b) = true -> (a =? b) = false.
Proof.
  rewrite ltb_spec, eqb_spec. unfold SFltb, SFeqb.
  destruct (SFcompare (Prim2SF a) (Prim2SF b)) as [[]|]; congruence.
Qed.

Lemma abs_is_nan x : F.is_nan (abs x) = F.is_nan x.
Proof.
  destruct (F.is_nan x) eqn:E.
  - apply is_nan_spec. rewrite abs_spec. apply is_nan_spec in E. now rewrite E.
  - apply is_nan_false. rewrite abs_spec. apply is_nan_false in E.
    destruct (Prim2SF x); simpl; congruence.
Qed.

End FloatFacts.

(* ================================================================== *)
(** * Binary64 arithmetic: rounding *)
(* ================================================================== *)

Module Rounding.

Import RoundingVocabulary.
Local Open Scope Z_scope.

Lemma fexp_eq x : fexp prec emax x = Z.max (x - 53) (-1074).
Proof. reflexivity. Qed.

Lemma fexp_mono x y : x <= y -> fexp prec emax x <= fexp prec emax y.
Proof. rewrite !fexp_eq. lia. Qed.

Lemma digits_pos_bounds p :
  2 ^ (Zpos (digits2_pos p) - 1) <= Zpos p < 2 ^ Zpos (digits2_pos p).
Proof.
  induction p as [p IH|p IH|]; simpl digits2_pos.
  - rewrite Pos2Z.inj_succ.
    replace (Z.succ (Zpos (digits2_pos p)) - 1) with (Z.succ (Zpos (digits2_pos p) - 1)) by lia.
    rewrite !Z.pow_succ_r by lia. lia.
  - rewrite Pos2Z.inj_succ.
    replace (Z.succ (Zpos (digits2_pos p)) - 1) with (Z.succ (Zpos (digits2_pos p) - 1)) by lia.
    rewrite !Z.pow_succ_r by lia. lia.
  - simpl. lia.
Qed.

Lemma digits_bounds m :
  0 < m -> 2 ^ (Zdigits2 m - 1) <= m < 2 ^ Zdigits2 m.
Proof.
  destruct m as [|p|p]; try lia. intros _. apply digits_pos_bounds.
Qed.

Lemma digits_nonneg m : 0 <= Zdigits2 m.
Proof. destruct m; simpl; lia. Qed.

Lemma digits_pos m : 0 < m -> 0 < Zdigits2 m.
Proof. destruct m; simpl; lia. Qed.

(** The number of digits is determined by the binade. *)
Lemma digits_unique m d :
  0 < d -> 2 ^ (d - 1) <= m < 2 ^ d -> Zdigits2 m = d.
Proof.
  intros Hd [Hlo Hhi].
  assert (0 < m) by (assert (0 < 2 ^ (d - 1)) by (apply Z.pow_pos_nonneg; lia); lia).
  destruct (digits_bounds H) as [Dlo Dhi].
  assert (0 < Zdigits2 m) by now apply digits_pos.
  destruct (Z.lt_trichotomy (Zdigits2 m) d) as [L|[E|G]]; [|exact E|].
  - assert (2 ^ Zdigits2 m <= 2 ^ (d - 1)) by (apply Z.pow_le_mono_r; lia). lia.
  - assert (2 ^ d <= 2 ^ (Zdigits2 m - 1)) by (apply Z.pow_le_mono_r; lia). lia.
Qed.

Lemma digits_le m k : 0 <= k -> 0 <= m < 2 ^ k -> Zdigits2 m <= k.
Proof.
  intros Hk [H0 H].
  destruct (Z.eq_dec m 0) as [->|N]; [simpl; lia|].
  assert (P : 0 < m) by lia.
  destruct (digits_bounds P) as [Dlo _].
  destruct (Z_lt_le_dec k (Zdigits2 m)) as [L|L]; [|exact L].
  assert (2 ^ k <= 2 ^ (Zdigits2 m - 1)) by (apply Z.pow_le_mono_r; lia). lia.
Qed.

Lemma digits_mono a b : 0 <= a <= b -> Zdigits2 a <= Zdigits2 b.
Proof.
  intros [Ha Hab].
  destruct (Z.eq_dec b 0) as [->|N].
  - replace a with 0 by lia. lia.
  - assert (P : 0 < b) by lia. destruct (digits_bounds P).
    apply digits_le; [apply digits_nonneg | lia].
Qed.

(** ** Right shifts *)

Lemma shr_1_m mrs : 0 <= shr_m mrs -> shr_m (shr_1 mrs) = shr_m mrs / 2.
Proof.
  destruct mrs as [m r s]. simpl. intros H.
  destruct m as [|p|p]; try lia.
  - reflexivity.
  - destruct p as [p|p|]; simpl shr_m.
    + rewrite <- Z.div2_div. reflexivity.
    + rewrite <- Z.div2_div. reflexivity.
    + reflexivity.
Qed.

Lemma iter_shr_1_m p mrs :
  0 <= shr_m mrs ->
  shr_m (iter_pos shr_1 p mrs) = shr_m mrs / 2 ^ Zpos p.
Proof.
  revert mrs. induction p as [p IH|p IH|]; intros mrs H; simpl iter_pos.
  - assert (P : 0 < 2 ^ Zpos p) by (apply Z.pow_pos_nonneg; lia).
    assert (H1 : 0 <= shr_m (shr_1 mrs)) by (rewrite shr_1_m by lia; apply Z.div_pos; lia).
    assert (H2 : 0 <= shr_m (iter_pos shr_1 p (shr_1 mrs)))
      by (rewrite IH by lia; apply Z.div_pos; lia).
    rewrite IH, IH, shr_1_m by lia.
    rewrite !Z.div_div by lia.
    f_equal.
    replace (Zpos p~1) with (1 + Zpos p + Zpos p) by lia.
    rewrite !Z.pow_add_r by lia. lia.
  - assert (P : 0 < 2 ^ Zpos p) by (apply Z.pow_pos_nonneg; lia).
    assert (H2 : 0 <= shr_m (iter_pos shr_1 p mrs))
      by (rewrite IH by lia; apply Z.div_pos; lia).
    rewrite IH, IH by lia.
    rewrite !Z.div_div by lia.
    f_equal.
    replace (Zpos p~0) with (Zpos p + Zpos p) by lia.
    rewrite !Z.pow_add_r by lia. lia.
  - rewrite shr_1_m by lia. reflexivity.
Qed.

Lemma shr_record_of_loc_m m l : shr_m (shr_record_of_loc m l) = m.
Proof. destruct l as [|[]]; reflexivity. Qed.

(** What [shr_fexp] leaves: the mantissa divided by the power of two
    that brings the exponent up to [fexp]. *)
Lemma shr_fexp_spec m e l :
  0 <= m ->
  let n := Z.max 0 (fexp prec emax (Zdigits2 m + e) - e) in
  shr_m (fst (shr_fexp prec emax m e l)) = m / 2 ^ n /\
  snd (shr_fexp prec emax m e l) = e + n.
Proof.
  intros Hm n. unfold shr_fexp, shr. subst n.
  destruct (fexp prec emax (Zdigits2 m + e) - e) as [|p|p] eqn:E; simpl fst; simpl snd.
  - rewrite shr_record_of_loc_m. simpl. rewrite Z.div_1_r. split; lia.
  - rewrite iter_shr_1_m by (rewrite shr_record_of_loc_m; lia).
    rewrite shr_record_of_loc_m.
    rewrite Z.max_r by lia. split; reflexivity.
  - rewrite shr_record_of_loc_m. rewrite Z.max_l by lia.
    simpl. rewrite Z.div_1_r. split; lia.
Qed.

Lemma round_nearest_even_bounds m l :
  m <= round_nearest_even m l <= m + 1.
Proof.
  destruct l as [|[]]; simpl; try lia.
  destruct (Z.even m); lia.
Qed.


(** ** The shape of a rounded result *)

Lemma shift_amount_nonneg m e : 0 <= shift_amount m e.
Proof. unfold shift_amount. lia. Qed.

Lemma pow2_pos k : 0 <= k -> 0 < 2 ^ k.
Proof. intros. apply Z.pow_pos_nonneg; lia. Qed.

Lemma bra_shape sx mx ex lx :
  0 <= mx ->
  exists m1r,
    mx / 2 ^ shift_amount mx ex <= m1r <= mx / 2 ^ shift_amount mx ex + 1 /\
    binary_round_aux prec emax sx mx ex lx =
    classify sx (m1r / 2 ^ shift_amount m1r (ex + shift_amount mx ex))
             (ex + shift_amount mx ex + shift_amount m1r (ex + shift_amount mx ex)).
Proof.
  intros Hm. unfold binary_round_aux.
  destruct (shr_fexp_spec ex lx Hm) as [E1 E2].
  destruct (shr_fexp prec emax mx ex lx) as [mrs' e'] eqn:S1.
  simpl fst in E1. simpl snd in E2. fold (shift_amount mx ex) in E1, E2.
  set (m1r := round_nearest_even (shr_m mrs') (loc_of_shr_record mrs')).
  assert (B : shr_m mrs' <= m1r <= shr_m mrs' + 1) by apply round_nearest_even_bounds.
  assert (P : 0 <= shr_m mrs')
    by (rewrite E1; apply Z.div_pos; [lia | apply pow2_pos, shift_amount_nonneg]).
  assert (Hm1 : 0 <= m1r) by lia.
  destruct (shr_fexp_spec e' loc_Exact Hm1) as [F1 F2].
  destruct (shr_fexp prec emax m1r e' loc_Exact) as [mrs'' e''] eqn:S2.
  simpl fst in F1. simpl snd in F2. fold (shift_amount m1r e') in F1, F2.
  exists m1r. rewrite <- E1. split; [exact B|].
  subst e'. rewrite <- F1, <- F2. reflexivity.
Qed.

Lemma classify_nonneg sx m e :
  0 <= m ->
  (m = 0 /\ classify sx m e = S754_zero sx) \/
  (exists p, m = Zpos p /\ e <= 971 /\ classify sx m e = S754_finite sx p e) \/
  (0 < m /\ 971 < e /\ classify sx m e = S754_infinity sx).
Proof.
  intros H. unfold classify. change (emax - prec) with 971.
  destruct m as [|p|p]; try lia.
  - left. now split.
  - right. destruct (Z.leb_spec e 971) as [L|L].
    + left. exists p. auto.
    + right. repeat split; auto; lia.
Qed.

(** A rounded non-negative mantissa never yields NaN. *)
Lemma bra_not_nan sx mx ex lx :
  0 <= mx -> binary_round_aux prec emax sx mx ex lx <> S754_nan.
Proof.
  intros Hm. destruct (bra_shape sx ex lx Hm) as (m1r & B & ->).
  assert (0 <= mx / 2 ^ shift_amount mx ex)
    by (apply Z.div_pos; [lia | apply pow2_pos, shift_amount_nonneg]).
  assert (N : 0 <= m1r / 2 ^ shift_amount m1r (ex + shift_amount mx ex))
    by (apply Z.div_pos; [lia | apply pow2_pos, shift_amount_nonneg]).
  destruct (classify_nonneg sx (ex + shift_amount mx ex + shift_amount m1r (ex + shift_amount mx ex)) N)
    as [(_ & E)|[(p & _ & _ & E)|(_ & _ & E)]]; rewrite E; discriminate.
Qed.

(** ** Valid (canonical, bounded) finite values *)

Lemma bounded_spec m e :
  bounded prec emax m e = true <->
  fexp prec emax (Zpos (digits2_pos m) + e) = e /\ e <= 971.
Proof.
  unfold bounded, canonical_mantissa. rewrite andb_true_iff, Z.eqb_eq, Z.leb_le.
  reflexivity.
Qed.

Lemma bounded_range m e :
  bounded prec emax m e = true ->
  -1074 <= e <= 971 /\ Zpos (digits2_pos m) <= 53 /\
  (-1074 < e -> Zpos (digits2_pos m) = 53).
Proof.
  rewrite bounded_spec, fexp_eq. lia.
Qed.

(** A positive mantissa at an exponent not below [emin] survives the
    shift. *)
Lemma shift_keeps_positive m e :
  0 < m -> -1074 <= e -> 0 < m / 2 ^ shift_amount m e.
Proof.
  intros Hm He.
  destruct (digits_bounds Hm) as [Dlo _].
  assert (Hd := digits_pos Hm).
  assert (Hn : shift_amount m e <= Zdigits2 m - 1)
    by (unfold shift_amount; rewrite fexp_eq; lia).
  assert (Hn0 := shift_amount_nonneg m e).
  assert (2 ^ shift_amount m e <= 2 ^ (Zdigits2 m - 1)) by (apply Z.pow_le_mono_r; lia).
  apply Z.div_str_pos. split; [apply pow2_pos; lia | lia].
Qed.

Lemma digits_shift m k :
  0 < m -> 0 <= k -> Zdigits2 (m * 2 ^ k) = Zdigits2 m + k.
Proof.
  intros Hm Hk. destruct (digits_bounds Hm) as [Dlo Dhi].
  assert (Hd := digits_pos Hm). assert (P := pow2_pos Hk).
  apply digits_unique; [lia|].
  replace (Zdigits2 m + k - 1) with (Zdigits2 m - 1 + k) by lia.
  rewrite !Z.pow_add_r by lia. nia.
Qed.

Lemma iter_xO m d : Zpos (Pos.iter xO m d) = Zpos m * 2 ^ Zpos d.
Proof.
  induction d as [|d IH] using Pos.peano_ind.
  - simpl. lia.
  - rewrite Pos.iter_succ, Pos2Z.inj_succ, Z.pow_succ_r by lia.
    rewrite Pos2Z.inj_xO, IH. lia.
Qed.

Lemma shl_align_spec mx ex ex' :
  snd (shl_align mx ex ex') = Z.min ex ex' /\
  Zpos (fst (shl_align mx ex ex')) = Zpos mx * 2 ^ (ex - Z.min ex ex').
Proof.
  unfold shl_align. destruct (ex' - ex) as [|d|d] eqn:E; simpl fst; simpl snd.
  - rewrite Z.min_l by lia. rewrite Z.sub_diag. split; lia.
  - rewrite Z.min_l by lia. rewrite Z.sub_diag. split; lia.
  - rewrite Z.min_r by lia. split; [reflexivity|].
    rewrite iter_xO. f_equal. f_equal. lia.
Qed.


(** ** Addition of positive values does not go below its first operand *)

Lemma add_ge ms es mc ec :
  bounded prec emax ms es = true -> bounded prec emax mc ec = true ->
  let t := SFadd prec emax (S754_finite false ms es) (S754_finite false mc ec) in
  t = S754_infinity false \/
  exists p e, t = S754_finite false p e /\ (es < e \/ (e = es /\ Zpos ms <= Zpos p)).
Proof.
  intros Bs Bc. cbv zeta. unfold SFadd. simpl cond_Zopp.
  set (ez := Z.min es ec).
  destruct (shl_align_spec ms es ez) as [_ Hs].
  destruct (shl_align_spec mc ec ez) as [_ Hc].
  destruct (bounded_range _ _ Bs) as (Res & Ds & _).
  destruct (bounded_range _ _ Bc) as (Rec & _ & _).
  apply bounded_spec in Bs. destruct Bs as [Cs _].
  replace (Z.min es ez) with ez in Hs by (unfold ez; lia).
  replace (Z.min ec ez) with ez in Hc by (unfold ez; lia).
  set (a := fst (shl_align ms es ez)) in *.
  set (b := fst (shl_align mc ec ez)) in *.
  change (Zpos a + Zpos b) with (Zpos (a + b)).
  unfold binary_normalize, binary_round.
  set (x := (a + b)%positive).
  assert (Hx : Zpos x = Zpos ms * 2 ^ (es - ez) + Zpos mc * 2 ^ (ec - ez))
    by (unfold x; rewrite Pos2Z.inj_add; lia).
  assert (Ez : -1074 <= ez <= es) by (unfold ez; lia).
  assert (Px : Zpos ms * 2 ^ (es - ez) <= Zpos x).
  { assert (0 < 2 ^ (ec - ez)) by (apply pow2_pos; unfold ez; lia). nia. }
  set (fe := fexp prec emax (Zpos (digits2_pos x) + ez)).
  destruct (shl_align_spec x ez fe) as [Ha Hb].
  destruct (shl_align x ez fe) as [mz ez'] eqn:SA. simpl fst in Hb. simpl snd in Ha.
  assert (Hfe : es <= fe).
  { rewrite <- Cs. unfold fe. apply fexp_mono.
    assert (Zdigits2 (Zpos ms * 2 ^ (es - ez)) <= Zdigits2 (Zpos x)).
    { apply digits_mono. split; [|exact Px].
      assert (0 < 2 ^ (es - ez)) by (apply pow2_pos; lia). nia. }
    rewrite digits_shift in H by lia. simpl Zdigits2 in H. lia. }
  assert (Hfe' : -1074 <= fe) by (unfold fe; rewrite fexp_eq; lia).
  assert (Dz : Zdigits2 (Zpos mz) + ez' = Zpos (digits2_pos x) + ez).
  { rewrite Hb, digits_shift by lia. simpl Zdigits2. lia. }
  assert (N1 : shift_amount (Zpos mz) ez' = fe - ez').
  { unfold shift_amount. rewrite Dz. fold fe. lia. }
  destruct (@bra_shape false (Zpos mz) ez' loc_Exact) as (m1r & B & ->); [lia|].
  rewrite N1 in *. replace (ez' + (fe - ez')) with fe by lia.
  assert (P1 : 0 < Zpos mz / 2 ^ (fe - ez')).
  { rewrite <- N1. apply shift_keeps_positive; lia. }
  assert (P2 : 0 < m1r / 2 ^ shift_amount m1r fe)
    by (apply shift_keeps_positive; lia).
  assert (N2 := shift_amount_nonneg m1r fe).
  destruct (@classify_nonneg false (m1r / 2 ^ shift_amount m1r fe) (fe + shift_amount m1r fe))
    as [(Z0 & _)|[(p & Ep & _ & E)|(_ & _ & E)]]; [lia|lia| |now left].
  right. exists p, (fe + shift_amount m1r fe). split; [exact E|].
  destruct (Z.eq_dec (fe + shift_amount m1r fe) es) as [Q|Q]; [right|left; lia].
  split; [exact Q|].
  assert (fe = es /\ shift_amount m1r fe = 0) as [Q1 Q2] by lia.
  rewrite <- Ep, Q2. simpl (2 ^ 0). rewrite Z.div_1_r.
  apply Z.le_trans with (Zpos mz / 2 ^ (fe - ez')); [|lia].
  rewrite Hb, Q1.
  assert (Hm : Zpos ms * 2 ^ (es - ez') <= Zpos x * 2 ^ (ez - Z.min ez fe)).
  { replace (es - ez') with ((es - ez) + (ez - ez')) by lia.
    rewrite Z.pow_add_r by lia. rewrite <- Ha.
    assert (0 < 2 ^ (ez - ez')) by (apply pow2_pos; lia). nia. }
  apply Z.le_trans with (Zpos ms * 2 ^ (es - ez') / 2 ^ (es - ez')).
  - rewrite Z.div_mul; [lia|]. assert (0 < 2 ^ (es - ez')) by (apply pow2_pos; lia). lia.
  - apply Z.div_le_mono; [apply pow2_pos; lia |]. rewrite Q1 in Hm. exact Hm.
Qed.


(** ** A quotient of positive values, the smaller over the larger *)

Lemma div_core_quotient ms es mt et :
  let e' := Z.min (fexp prec emax (Zdigits2 (Zpos ms) + es - (Zdigits2 (Zpos mt) + et))) (es - et) in
  exists l,
    SFdiv_core_binary prec emax (Zpos ms) es (Zpos mt) et =
    (Zpos ms * 2 ^ (es - et - e') / Zpos mt, e', l).
Proof.
  intros e'. unfold SFdiv_core_binary. fold e'.
  assert (Hsh : 0 <= es - et - e') by (unfold e'; lia).
  set (m' := match es - et - e' with
             | 0 => Zpos ms
             | Zpos _ => Z.shiftl (Zpos ms) (es - et - e')
             | Zneg _ => 0
             end).
  assert (Hm : m' = Zpos ms * 2 ^ (es - et - e')).
  { unfold m'. destruct (es - et - e') as [|k|k] eqn:E; try lia.
    rewrite Z.shiftl_mul_pow2 by lia. reflexivity. }
  assert (Hq : fst (Z.div_eucl m' (Zpos mt)) = m' / Zpos mt) by reflexivity.
  destruct (Z.div_eucl m' (Zpos mt)) as [q r]. simpl in Hq. subst q.
  rewrite Hm. eexists. reflexivity.
Qed.

Lemma div_lt_one ms es mt et :
  bounded prec emax ms es = true -> bounded prec emax mt et = true ->
  es < et \/ (es = et /\ Zpos ms < Zpos mt) ->
  let r := SFdiv prec emax (S754_finite false ms es) (S754_finite false mt et) in
  r = S754_zero false \/
  exists p e, r = S754_finite false p e /\ (e < -52 \/ (e = -52 /\ Zpos p <= 2 ^ 52)).
Proof.
  intros Bs Bt Hlt. cbv zeta. unfold SFdiv.
  destruct (div_core_quotient ms es mt et) as (l & ->). cbv zeta. simpl xorb.
  destruct (bounded_range _ _ Bs) as (Res & Ds & _).
  destruct (bounded_range _ _ Bt) as (Ret & Dt & Nt).
  simpl Zdigits2.
  set (d1 := Zpos (digits2_pos ms)) in *. set (d2 := Zpos (digits2_pos mt)) in *.
  set (e' := Z.min (fexp prec emax (d1 + es - (d2 + et))) (es - et)).
  set (q := Zpos ms * 2 ^ (es - et - e') / Zpos mt).
  destruct (digits_pos_bounds ms) as [Slo Shi]. fold d1 in Slo, Shi.
  destruct (digits_pos_bounds mt) as [Tlo Thi]. fold d2 in Tlo, Thi.
  assert (Hd1 : 0 < d1) by (unfold d1; lia).
  assert (Hd2 : 0 < d2) by (unfold d2; lia).
  (* the exact quotient lies below one *)
  assert (A : d1 + es <= d2 + et).
  { destruct Hlt as [L|[E L]].
    - rewrite (Nt ltac:(lia)). lia.
    - subst et. assert (d1 <= d2); [|lia].
      destruct (Z_lt_le_dec d2 d1) as [G|G]; [|exact G].
      assert (2 ^ d2 <= 2 ^ (d1 - 1)) by (apply Z.pow_le_mono_r; lia). lia. }
  assert (He' : e' <= -53).
  { unfold e'. assert (fexp prec emax (d1 + es - (d2 + et)) <= fexp prec emax 0)
      by (apply fexp_mono; lia).
    rewrite (fexp_eq 0) in H. lia. }
  assert (Hsh : 0 <= es - et - e') by (unfold e'; lia).
  assert (Psh := pow2_pos Hsh).
  assert (Bq : 0 <= q < 2 ^ (- e')).
  { split; [apply Z.div_pos; nia|].
    apply Z.div_lt_upper_bound; [lia|].
    destruct Hlt as [L|[E L]].
    - replace (- e') with ((es - et - e') + (et - es)) by lia.
      rewrite Z.pow_add_r by lia.
      assert (2 ^ 1 <= 2 ^ (et - es)) by (apply Z.pow_le_mono_r; lia).
      assert (2 ^ 52 <= Zpos mt).
      { rewrite (Nt ltac:(lia)) in Tlo. exact Tlo. }
      assert (Zpos ms < 2 ^ 53).
      { apply Z.lt_le_trans with (2 ^ d1); [exact Shi|]. apply Z.pow_le_mono_r; lia. }
      change (2 ^ 1) with 2 in H. change (2 ^ 52) with 4503599627370496 in H0.
      change (2 ^ 53) with 9007199254740992 in H1.
      assert (K : Zpos ms < Zpos mt * 2 ^ (et - es)) by nia.
      rewrite (Z.mul_comm (2 ^ (es - et - e'))), Z.mul_assoc.
      apply Z.mul_lt_mono_pos_r; [exact Psh | exact K].
    - subst et. replace (es - es - e') with (- e') by lia.
      assert (0 < 2 ^ (- e')) by (apply pow2_pos; lia). nia. }
  destruct (@bra_shape false q e' l) as (m1r & B & ->); [lia|].
  set (n1 := shift_amount q e') in *.
  assert (Hn1 := shift_amount_nonneg q e'). fold n1 in Hn1.
  set (e1 := e' + n1) in *.
  assert (He1 : e1 <= -53).
  { unfold e1, n1, shift_amount.
    assert (Zdigits2 q <= - e') by (apply digits_le; lia).
    assert (fexp prec emax (Zdigits2 q + e') <= fexp prec emax 0) by (apply fexp_mono; lia).
    rewrite (fexp_eq 0) in H0. lia. }
  assert (Pn1 := pow2_pos Hn1).
  assert (B1 : 0 <= q / 2 ^ n1 < 2 ^ (- e1)).
  { split; [apply Z.div_pos; lia|].
    apply Z.div_lt_upper_bound; [lia|].
    replace (- e') with (n1 + - e1) in Bq by (unfold e1; lia).
    rewrite Z.pow_add_r in Bq by lia. lia. }
  set (n2 := shift_amount m1r e1) in *.
  assert (Hn2 := shift_amount_nonneg m1r e1). fold n2 in Hn2.
  assert (Pn2 := pow2_pos Hn2).
  assert (Hm1r : 0 <= m1r <= 2 ^ (- e1)) by lia.
  assert (He2 : e1 + n2 <= -52).
  { unfold n2, shift_amount.
    assert (Zdigits2 m1r <= - e1 + 1).
    { apply digits_le; [lia|]. rewrite Z.pow_add_r by lia. change (2 ^ 1) with 2. lia. }
    assert (fexp prec emax (Zdigits2 m1r + e1) <= fexp prec emax 1) by (apply fexp_mono; lia).
    rewrite (fexp_eq 1) in H0. lia. }
  assert (B2 : 0 <= m1r / 2 ^ n2 <= 2 ^ (- (e1 + n2))).
  { split; [apply Z.div_pos; lia|].
    apply Z.le_trans with (2 ^ (- e1) / 2 ^ n2); [apply Z.div_le_mono; lia|].
    replace (- e1) with (- (e1 + n2) + n2) by lia.
    rewrite Z.pow_add_r by lia. rewrite Z.div_mul by lia. lia. }
  destruct (@classify_nonneg false (m1r / 2 ^ n2) (e1 + n2))
    as [(_ & E)|[(p & Ep & _ & E)|(_ & G & _)]]; [lia|now left| |lia].
  right. exists p, (e1 + n2). split; [exact E|].
  destruct (Z.eq_dec (e1 + n2) (-52)) as [Q|Q]; [right|left; lia].
  split; [exact Q|]. rewrite <- Ep. rewrite Q in B2. exact (proj2 B2).
Qed.

Lemma div_self m e :
  SFdiv prec emax (S754_finite false m e) (S754_finite false m e) =
  S754_finite false 4503599627370496 (-52).
Proof.
  unfold SFdiv, SFdiv_core_binary.
  replace (Zdigits2 (Zpos m) + e - (Zdigits2 (Zpos m) + e)) with 0 by lia.
  replace (e - e) with 0 by lia.
  change (Z.min (fexp prec emax 0) 0) with (-53).
  change (0 - -53) with 53. cbv iota beta.
  rewrite Z.shiftl_mul_pow2 by lia.
  assert (D : Z.div_eucl (Zpos m * 2 ^ 53) (Zpos m) = (2 ^ 53, 0)).
  { assert (Hq : fst (Z.div_eucl (Zpos m * 2 ^ 53) (Zpos m)) = Zpos m * 2 ^ 53 / Zpos m) by reflexivity.
    assert (Hr : snd (Z.div_eucl (Zpos m * 2 ^ 53) (Zpos m)) = (Zpos m * 2 ^ 53) mod Zpos m) by reflexivity.
    destruct (Z.div_eucl (Zpos m * 2 ^ 53) (Zpos m)) as [q r]. cbn [fst snd] in Hq, Hr.
    rewrite Z.mul_comm, Z.div_mul in Hq by lia.
    rewrite Z.mul_comm, Z.mod_mul in Hr by lia. congruence. }
  rewrite D. simpl xorb.
  unfold new_location. destruct (Z.even (Zpos m)); reflexivity.
Qed.

End Rounding.

(* ================================================================== *)
(** * The ratio of one deviation to itself *)
(* ================================================================== *)

Module Ratio.

Import FloatFacts RoundingVocabulary Rounding.
Local Open Scope Z_scope.

Lemma Prim2SF_eps : Prim2SF 1e-10 = S754_finite false 7737125245533627 (-86).
Proof. vm_compute. reflexivity. Qed.

Lemma Prim2SF_one : Prim2SF 1 = S754_finite false 4503599627370496 (-52).
Proof. vm_compute. reflexivity. Qed.

Lemma Prim2SF_two : Prim2SF 2 = S754_finite false 4503599627370496 (-51).
Proof. vm_compute. reflexivity. Qed.

Lemma Prim2SF_bounded x s m e :
  Prim2SF x = S754_finite s m e -> bounded prec emax m e = true.
Proof.
  intros E. assert (V := Prim2SF_valid x). rewrite E in V. exact V.
Qed.

Lemma sqrt_range x : nonneg_or_nan (Prim2SF (sqrt x)).
Proof.
  rewrite sqrt_spec. unfold SF64sqrt, SFsqrt.
  destruct (Prim2SF x) as [s|[]| |[] m e]; simpl; auto.
  destruct (SFsqrt_core_binary prec emax (Zpos m) e) as [[mz ez] lz] eqn:E.
  assert (Hmz : 0 <= mz).
  { unfold SFsqrt_core_binary in E.
    set (m' := match e - 2 * Z.min (fexp prec emax (Z.div2 (Zdigits2 (Zpos m) + e + 1))) (Z.div2 e) with
               | 0 => Zpos m | Zpos _ => _ | Zneg _ => 0 end) in E.
    assert (Q := Z.sqrtrem_spec m').
    destruct (Z.sqrtrem m') as [q r]. injection E as <- _ _.
    assert (0 <= m').
    { unfold m'. destruct (e - 2 * _); try lia. apply Z.shiftl_nonneg. lia. }
    specialize (Q H). lia. }
  destruct (@bra_shape false mz ez lz Hmz) as (m1r & B & ->).
  assert (0 <= mz / 2 ^ shift_amount mz ez)
    by (apply Z.div_pos; [lia | apply pow2_pos, shift_amount_nonneg]).
  assert (N : 0 <= m1r / 2 ^ shift_amount m1r (ez + shift_amount mz ez))
    by (apply Z.div_pos; [lia | apply pow2_pos, shift_amount_nonneg]).
  destruct (@classify_nonneg false _ (ez + shift_amount mz ez + shift_amount m1r (ez + shift_amount mz ez)) N)
    as [(_ & E')|[(p & _ & _ & E')|(_ & _ & E')]]; rewrite E'; exact I.
Qed.

(** The variance ratio of a single deviation: [s / (s + 1e-10)]. *)
Lemma self_ratio_spec (s : float) :
  nonneg_or_nan (Prim2SF s) ->
  unit_or_nan (Prim2SF (s / (s + 1e-10))%float).
Proof.
  intros Hs. rewrite div_spec, add_spec, Prim2SF_eps.
  assert (Vt := Prim2SF_valid (s + 1e-10)%float).
  rewrite add_spec, Prim2SF_eps in Vt.
  destruct (Prim2SF s) as [b|[]| |[] ms es] eqn:Es; simpl in Hs; try contradiction.
  - (* zero *) destruct b; exact I.
  - (* +inf *) exact I.
  - (* NaN *) exact I.
  - (* positive *)
    assert (Bs := Prim2SF_bounded _ Es).
    assert (Bc : bounded prec emax 7737125245533627 (-86) = true) by (vm_compute; reflexivity).
    unfold SF64add in *.
    destruct (add_ge _ _ _ _ Bs Bc) as [E|(p & e & E & R)]; cbv zeta in E; rewrite E in *.
    + exact I.
    + simpl in Vt. unfold SF64div.
      assert (C : es < e \/ (e = es /\ Zpos ms < Zpos p) \/ (e = es /\ p = ms)).
      { destruct R as [R|[R1 R2]]; [now left|].
        destruct (Pos.eq_dec p ms) as [->|N]; [right; right; now split|].
        right; left. split; [exact R1|]. lia. }
      destruct C as [C|[C|[-> ->]]].
      * destruct (@div_lt_one ms es p e Bs Vt) as [D|(p' & e' & D & K)]; [now left| |].
        all: cbv zeta in D. all: rewrite D. exact I. exact K.
      * destruct (@div_lt_one ms es p e Bs Vt) as [D|(p' & e' & D & K)];
          [right; intuition lia| |];
          cbv zeta in D; rewrite D; [exact I | exact K].
      * rewrite div_self. right. split; [reflexivity|]. apply Z.le_refl.
Qed.




Lemma unit_or_nan_leb (r : float) :
  unit_or_nan (Prim2SF r) -> F.is_nan r = true \/ (r <=? 1)%float = true.
Proof.
  intros H. destruct (Prim2SF r) as [b|b| |[] p e] eqn:E; cbn [unit_or_nan] in H;
    try contradiction.
  - right. rewrite leb_spec, E, Prim2SF_one. reflexivity.
  - left. apply is_nan_spec. exact E.
  - right. rewrite leb_spec, E, Prim2SF_one. unfold SFleb, SFcompare.
    destruct H as [H|[-> H]].
    + apply (proj2 (Z.compare_lt_iff _ _)) in H. rewrite H. reflexivity.
    + rewrite Z.compare_refl.
      change (2 ^ 52) with 4503599627370496 in H.
      rewrite Pos.compare_cont_spec.
      destruct (Pos.compare p 4503599627370496) eqn:C; cbn [Pos.switch_Eq];
        try reflexivity.
      apply Pos.compare_gt_iff in C. lia.
Qed.

Lemma unit_or_nan_not_above_two (r : float) :
  unit_or_nan (Prim2SF r) -> F.gtb r 2 = false.
Proof.
  intros H. unfold F.gtb. rewrite ltb_spec, Prim2SF_two.
  destruct (Prim2SF r) as [b|b| |[] p e] eqn:E; cbn [unit_or_nan] in H;
    try contradiction; try reflexivity.
  unfold SFltb, SFcompare.
  assert (L : (-51 ?= e) = Gt) by (apply Z.compare_gt_iff; lia).
  rewrite L. reflexivity.
Qed.

End Ratio.

(* ================================================================== *)
(** * Column names of a loaded frame *)
(* ================================================================== *)

Module Frames.

Import Pandas CSVAnalyzer.

Lemma mem_In s l : mem s l = true <-> In s l.
Proof.
  induction l as [|x r IH]; simpl.
  - split; [discriminate | tauto].
  - rewrite orb_true_iff, IH, String.eqb_eq. intuition congruence.
Qed.

Lemma in_select_dtypes keep df name :
  In name (select_dtypes keep df) <->
  exists c, In (name, c) df /\ keep c = true.
Proof.
  unfold select_dtypes. rewrite in_map_iff. split.
  - intros ([n c] & <- & H). apply filter_In in H. simpl in *. now exists c.
  - intros (c & H & K). exists (name, c). split; [reflexivity|].
    apply filter_In. now split.
Qed.

Lemma in_numeric_columns df name :
  In name (numeric_columns (load_data df)) <->
  exists v, In (name, NumericCol v) df.
Proof.
  simpl. rewrite in_select_dtypes. split.
  - intros ([v|l|n] & H & K); try discriminate. now exists v.
  - intros (v & H). now exists (NumericCol v).
Qed.

Lemma in_categorical_columns df name :
  In name (categorical_columns (load_data df)) <->
  exists l, In (name, ObjectCol l) df.
Proof.
  simpl. rewrite in_select_dtypes. split.
  - intros ([v|l|n] & H & K); try discriminate. now exists l.
  - intros (l & H). now exists (ObjectCol l).
Qed.

End Frames.

(* ================================================================== *)
(** * The sums and recurrences in exact arithmetic *)
(* ================================================================== *)

Module ExactArithmetic.

Import Arithmetic Pandas Statistics Moments.
Import Reals Lra.
Local Open Scope R_scope.

Lemma fold_add (l : list R) (a : R) : fold_left Rplus l a = a + summed l.
Proof.
  revert a. induction l as [|x l IH]; intros a; simpl; [lra|].
  rewrite IH. lra.
Qed.

Lemma total_summed (l : list R) : total real l = summed l.
Proof. unfold total. cbn [o_add o_zero real]. rewrite fold_add. lra. Qed.

Lemma summed_app (l1 l2 : list R) : summed (l1 ++ l2) = summed l1 + summed l2.
Proof. induction l1 as [|x l IH]; simpl; [lra|]. rewrite IH. lra. Qed.

Lemma unrolled_summed_below (n : nat) :
  forall a, (List.length a <= n)%nat ->
  forall r0 r1 r2 r3 r4 r5 r6 r7,
    unrolled_in real r0 r1 r2 r3 r4 r5 r6 r7 a =
    r0 + r1 + r2 + r3 + r4 + r5 + r6 + r7 + summed a.
Proof.
  induction n as [|n IH]; intros a L r0 r1 r2 r3 r4 r5 r6 r7;
    destruct a as [|a0 [|a1 [|a2 [|a3 [|a4 [|a5 [|a6 [|a7 rest]]]]]]]];
    cbn [List.length] in L; try lia;
    cbn [unrolled_in o_add real]; rewrite ?fold_add; cbn [summed]; try lra.
  rewrite IH by lia. cbn [summed]. lra.
Qed.

Lemma unrolled_summed (a : list R) r0 r1 r2 r3 r4 r5 r6 r7 :
  unrolled_in real r0 r1 r2 r3 r4 r5 r6 r7 a =
  r0 + r1 + r2 + r3 + r4 + r5 + r6 + r7 + summed a.
Proof. now apply (@unrolled_summed_below (List.length a)). Qed.

Lemma block_sum_summed (a : list R) : block_sum_in real a = summed a.
Proof.
  destruct a as [|a0 [|a1 [|a2 [|a3 [|a4 [|a5 [|a6 [|a7 rest]]]]]]]];
    cbn [block_sum_in o_add o_neg_zero real]; rewrite ?fold_add, ?unrolled_summed;
    cbn [summed]; lra.
Qed.

Lemma pairwise_sum_summed (depth : nat) (a : list R) :
  pairwise_sum_in real depth a = summed a.
Proof.
  revert a. induction depth as [|d IH]; intros a; cbn [pairwise_sum_in].
  - apply block_sum_summed.
  - destruct (128 <? List.length a)%nat; [|apply block_sum_summed].
    cbv zeta. cbn [o_add real]. rewrite !IH, <- summed_app, firstn_skipn. reflexivity.
Qed.

Lemma sum_summed (a : list R) : sum_in real a = summed a.
Proof.
  destruct a as [|x a]; [reflexivity|].
  unfold sum_in. apply pairwise_sum_summed.
Qed.

(** Over the reals numpy's sum is the sum. *)
Lemma sum_exact (a : list R) : sum_in real a = total real a.
Proof. now rewrite sum_summed, total_summed. Qed.

Lemma INR_S_neq (k : nat) : INR (S k) <> 0.
Proof. apply not_0_INR. discriminate. Qed.

(** ** Kahan's sum *)




(** ** Deviations from an average *)

Lemma summed_squared_deviations (l : list R) (c : R) :
  summed (map (fun d => d * d) (map (fun x => x - c) l)) =
  summed (squares l) - 2 * c * summed l + INR (List.length l) * c * c.
Proof.
  induction l as [|x l IH]; [cbn; lra|].
  cbn [map summed squares List.length]. rewrite IH, S_INR. unfold squares. lra.
Qed.

Lemma summed_deviation_products (rows : list (R * R)) (a b : R) :
  summed (map (fun dd => fst dd * snd dd)
             (combine (map (fun x => x - a) (map fst rows))
                      (map (fun y => y - b) (map snd rows)))) =
  summed (products rows) - a * summed (map snd rows) - b * summed (map fst rows)
  + INR (List.length rows) * a * b.
Proof.
  induction rows as [|[x y] rows IH]; [cbn; lra|].
  cbn [map combine summed products List.length fst snd]. rewrite IH, S_INR.
  unfold products. lra.
Qed.

Lemma sum_of_squares_moments (l : list R) :
  l <> [] ->
  sum_of_squares real l = summed (squares l) - summed l * summed l / INR (List.length l).
Proof.
  intros N. unfold sum_of_squares, deviations, average.
  rewrite !total_summed. cbn [o_mul o_sub o_div o_of_nat real].
  rewrite summed_squared_deviations.
  assert (P : INR (List.length l) <> 0).
  { destruct l; [congruence|]. apply INR_S_neq. }
  field. exact P.
Qed.

Lemma sum_of_products_moments (rows : list (R * R)) :
  rows <> [] ->
  sum_of_products real rows =
  summed (products rows)
  - summed (map fst rows) * summed (map snd rows) / INR (List.length rows).
Proof.
  intros N. unfold sum_of_products, deviations, average.
  rewrite !total_summed. cbn [o_mul o_sub o_div o_of_nat real].
  rewrite summed_deviation_products, !length_map.
  assert (P : INR (List.length rows) <> 0).
  { destruct rows; [congruence|]. apply INR_S_neq. }
  field. exact P.
Qed.

(** ** The recurrence of [group_var] *)




(** ** The recurrence of [nancorr] *)

Lemma welford_step_exact k Ax Ay Bxx Byy Bxy w x y :
  welford_state k Ax Ay Bxx Byy Bxy w ->
  welford_state (S k) (Ax + x) (Ay + y) (Bxx + x * x) (Byy + y * y) (Bxy + x * y)
                (welford_step_in real w (x, y)).
Proof.
  destruct w as [n mx my sx sy c]. unfold welford_state.
  cbn [nobs meanx meany ssqdm_x ssqdm_y covxy].
  intros (-> & Mx & My & -> & -> & ->).
  unfold welford_step_in.
  cbn [o_isfinite o_add o_sub o_mul o_div o_of_nat o_one real andb
       nobs meanx meany ssqdm_x ssqdm_y covxy].
  assert (P := INR_S_neq k). rewrite S_INR in *.
  set (mx' := mx + 1 / (INR k + 1) * (x - mx)).
  set (my' := my + 1 / (INR k + 1) * (y - my)).
  assert (Mx' : (INR k + 1) * mx' = Ax + x).
  { unfold mx'. rewrite <- Mx. field. exact P. }
  assert (My' : (INR k + 1) * my' = Ay + y).
  { unfold my'. rewrite <- My. field. exact P. }
  split; [reflexivity|]. split; [exact Mx'|]. split; [exact My'|].
  split; [|split].
  - assert (E : Bxx - mx * Ax + (x - mx') * (x - mx) - (Bxx + x * x - mx' * (Ax + x))
                = mx * ((INR k + 1) * mx' - INR k * mx - x)) by (rewrite <- Mx; ring).
    rewrite Mx', Mx in E. lra.
  - assert (E : Byy - my * Ay + (y - my') * (y - my) - (Byy + y * y - my' * (Ay + y))
                = my * ((INR k + 1) * my' - INR k * my - y)) by (rewrite <- My; ring).
    rewrite My', My in E. lra.
  - assert (E : Bxy - mx * Ay + (x - mx') * (y - my) - (Bxy + x * y - mx' * (Ay + y))
                = my * ((INR k + 1) * mx' - INR k * mx - x)) by (rewrite <- My; ring).
    rewrite Mx', Mx in E. lra.
Qed.

Lemma welford_run_exact rows :
  forall k Ax Ay Bxx Byy Bxy w,
    welford_state k Ax Ay Bxx Byy Bxy w ->
    welford_state (k + List.length rows)
                  (Ax + summed (map fst rows)) (Ay + summed (map snd rows))
                  (Bxx + summed (squares (map fst rows)))
                  (Byy + summed (squares (map snd rows)))
                  (Bxy + summed (products rows))
                  (fold_left (welford_step_in real) rows w).
Proof.
  induction rows as [|[x y] rows IH]; intros k Ax Ay Bxx Byy Bxy w H;
    cbn [fold_left summed squares products map List.length fst snd].
  - rewrite Nat.add_0_r, !Rplus_0_r. exact H.
  - apply (@welford_step_exact _ _ _ _ _ _ _ x y) in H. apply IH in H.
    replace (k + S (List.length rows))%nat with (S k + List.length rows)%nat by lia.
    unfold squares, products in *.
    rewrite <- !Rplus_assoc. exact H.
Qed.

(** Over the reals the recurrence ends with the count of the rows, the
    two averages, the two sums of squared deviations and the sum of the
    products of the deviations. *)
Lemma welford_exact (rows : list (R * R)) :
  rows <> [] ->
  let w := welford_run_in real rows in
  nobs w = List.length rows /\
  meanx w = average real (map fst rows) /\
  meany w = average real (map snd rows) /\
  ssqdm_x w = sum_of_squares real (map fst rows) /\
  ssqdm_y w = sum_of_squares real (map snd rows) /\
  covxy w = sum_of_products real rows.
Proof.
  intros N w.
  assert (H : welford_state 0 0 0 0 0 0 (welford0_in real)).
  { unfold welford_state. cbn. repeat split; lra. }
  apply (@welford_run_exact rows) in H.
  change (fold_left (welford_step_in real) rows (welford0_in real)) with w in H.
  destruct H as (K & Mx & My & Sx & Sy & C).
  rewrite !Rplus_0_l in *. cbn [Nat.add] in *.
  assert (P : INR (List.length rows) <> 0).
  { destruct rows; [congruence|]. apply INR_S_neq. }
  assert (Ex : meanx w = summed (map fst rows) / INR (List.length rows)).
  { rewrite <- Mx. field. exact P. }
  assert (Ey : meany w = summed (map snd rows) / INR (List.length rows)).
  { rewrite <- My. field. exact P. }
  assert (Nx : map fst rows <> []) by (destruct rows; [congruence|discriminate]).
  assert (Ny : map snd rows <> []) by (destruct rows; [congruence|discriminate]).
  rewrite !sum_of_squares_moments, sum_of_products_moments by assumption.
  unfold average. rewrite !total_summed, !length_map. cbn [o_div o_of_nat real].
  split; [exact K|]. split; [exact Ex|]. split; [exact Ey|].
  split; [|split].
  - rewrite Sx, Ex. field. exact P.
  - rewrite Sy, Ey. field. exact P.
  - rewrite C, Ex. field. exact P.
Qed.

End ExactArithmetic.

(* ================================================================== *)
(** * Numeric correlations *)
(* ================================================================== *)

Module Correlations.

Import Arithmetic Pandas CSVAnalyzer Statistics WelfordVocabulary SortFacts Discovery.
Local Open Scope string_scope.
Local Open Scope float_scope.

Lemma fold_left_filter {A B : Type} (f : A -> B -> A) (p : B -> bool) (l : list B) :
  (forall a b, p b = false -> f a b = a) ->
  forall a, fold_left f (filter p l) a = fold_left f l a.
Proof.
  intros H. induction l as [|b l IH]; intros a; cbn [filter fold_left]; [reflexivity|].
  destruct (p b) eqn:E; cbn [fold_left]; [apply IH|].
  rewrite (H a b E). apply IH.
Qed.

(** The recurrence passes over a row with an entry that is not finite:
    it runs over the rows where both entries are. *)
Lemma welford_run_present xs ys :
  welford_run xs ys = welford_run_in binary64 (jointly_present xs ys).
Proof.
  unfold welford_run, welford_run_in, jointly_present. symmetry.
  apply fold_left_filter. intros w [vx vy] E. cbn [fst snd] in E.
  unfold welford_step_in. cbn [o_isfinite binary64]. now rewrite E.
Qed.

(** C1, as the analyzer has it.  For two numeric columns, [col1]
    before [col2] in iteration order, the coefficient is the one
    Welford's recurrence gives, in binary64, over the rows where both
    entries are finite (neither missing nor infinite), clipped to
    [-1, 1].  [find_connections] returns a correlation connection for
    the pair exactly when its absolute value is strictly greater than
    0.3; such a connection carries [abs value] as strength, [positive]
    when the value is strictly positive and [negative] otherwise, and
    the value itself.  Over the real numbers the recurrence ends with
    the count of the rows, the sum of the products of the deviations
    and the two sums of squared deviations: its quotient is Pearson's
    coefficient. *)
Theorem correlation_threshold (df : DataFrame) (col1 col2 : string) :
  before col1 col2 (numeric_columns (load_data df)) ->
  let a := load_data df in
  let rows := jointly_present (numeric_values df col2) (numeric_values df col1) in
  let value := corr_loc a col1 col2 in
  value = welford_coeff (welford_run_in binary64 rows) /\
  ((exists s d x, In (correlation col1 col2 s d x) (find_connections a)) <->
   F.gtb (abs value) 0.3 = true) /\
  (forall s d x,
      In (correlation col1 col2 s d x) (find_connections a) ->
      s = abs value /\
      d = (if F.gtb value 0 then positive else negative) /\
      x = value) /\
  (forall exact_rows : list (Rdefinitions.R * Rdefinitions.R),
      exact_rows <> [] ->
      let w := welford_run_in real exact_rows in
      nobs w = List.length exact_rows /\
      covxy w = sum_of_products real exact_rows /\
      ssqdm_x w = sum_of_squares real (map fst exact_rows) /\
      ssqdm_y w = sum_of_squares real (map snd exact_rows) /\
      o_div real (covxy w) (o_sqrt real (o_mul real (ssqdm_x w) (ssqdm_y w)))
      = pearson real exact_rows).
Proof.
  intros Hb a rows value.
  assert (K : forall s d x,
             In (correlation col1 col2 s d x) (find_connections a) ->
             F.gtb (abs value) 0.3 = true /\
             s = abs value /\
             d = (if F.gtb value 0 then positive else negative) /\ x = value).
  { intros s d x H.
    apply in_find_connections, in_discovered_correlation, in_numeric_pairs in H.
    destruct H as (c1 & c2 & _ & H).
    apply in_correlation_of in H. destruct H as (T & E).
    injection E as -> -> -> -> ->. auto. }
  split; [|split; [split|split]].
  - unfold value, corr_loc, nancorr. cbn [data load_data].
    now rewrite welford_run_present.
  - intros (s & d & x & H). now apply K in H.
  - intros T.
    exists (abs value), (if F.gtb value 0 then positive else negative), value.
    apply in_find_connections, in_discovered_correlation, in_numeric_pairs.
    exists col1, col2. split; [exact Hb|].
    apply in_correlation_of. now split.
  - intros s d x H. now apply K in H.
  - intros exact_rows N w.
    destruct (ExactArithmetic.welford_exact N) as (Hn & _ & _ & Hx & Hy & Hc).
    fold w in Hn, Hx, Hy, Hc.
    repeat split; try assumption.
    unfold pearson. now rewrite Hx, Hy, Hc.
Qed.

Lemma correlation_threshold_witness :
  In (correlation "a" "b" 1 positive 1)
     (find_connections (load_data Samples.doubled_frame)) /\
  In (correlation "c" "d" 0.80000000000000004 negative (-0.80000000000000004))
     (find_connections (load_data Samples.doubled_frame)).
Proof.
  split.
  - destruct (@correlation_threshold Samples.doubled_frame "a" "b") as (_ & E & K & _).
    { exists [], [], ["c"; "d"]. reflexivity. }
    destruct (proj2 E) as (s & d & x & H); [vm_compute; reflexivity|].
    destruct (K s d x H) as (Es & Ed & Ex). subst s d x.
    revert H. vm_compute. exact (fun H => H).
  - destruct (@correlation_threshold Samples.doubled_frame "c" "d") as (_ & E & K & _).
    { exists ["a"; "b"], [], []. reflexivity. }
    destruct (proj2 E) as (s & d & x & H); [vm_compute; reflexivity|].
    destruct (K s d x H) as (Es & Ed & Ex). subst s d x.
    revert H. vm_compute. exact (fun H => H).
Defined.

(** The claim as worded fails: rows with an infinite entry are not
    missing, and Pearson's coefficient of the rows where both columns
    have a value is then undefined (NaN in binary64, not above 0.3),
    but [nancorr] leaves those rows out and the pair is returned. *)
Lemma correlation_infinite_counterexample :
  let df := Samples.infinite_frame in
  let rows := jointly_non_missing (numeric_values df "y") (numeric_values df "x") in
  List.length rows = 5%nat /\
  F.is_nan (pearson binary64 rows) = true /\
  F.gtb (abs (pearson binary64 rows)) 0.3 = false /\
  In (correlation "x" "y" 1 positive 1) (find_connections (load_data df)).
Proof.
  vm_compute. repeat split; auto.
Qed.

End Correlations.

(* ================================================================== *)
(** * Outlier detection *)
(* ================================================================== *)

Module Outliers.

Import Pandas CSVAnalyzer Frames.
Local Open Scope string_scope.
Local Open Scope float_scope.

Lemma get_outliers_numeric a column method :
  mem column (numeric_columns a) = true ->
  get_outliers a column method =
  let data_col := series_dropna (to_series (numeric_values (data a) column)) in
  let v := series_values data_col in
  if String.eqb method "iqr" then
    Ok (series_where (outside (iqr_bounds v)) data_col)
  else if String.eqb method "zscore" then
    Ok (series_where (fun x => F.gtb (z_score (mean v) (std v) x) 3) data_col)
  else Ok [].
Proof.
  intros H. unfold get_outliers. rewrite H. reflexivity.
Qed.

(** C6.  [get_outliers] raises (the analyzer's [ValueError], the
    invalid-column condition) exactly when the frame has no numeric
    column of the requested name, whatever the method; in every other
    case it returns a series, which is a sub-sequence of the column's
    non-missing entries.  Nothing else can come out. *)
Theorem get_outliers_invalid_column (df : DataFrame) (column method : string) :
  let a := load_data df in
  ((exists message, get_outliers a column method = ValueError message) <->
   ~ (exists v, In (column, NumericCol v) df)) /\
  ((exists v, In (column, NumericCol v) df) ->
   exists s, get_outliers a column method = Ok s /\
             subseq s (series_dropna (to_series (numeric_values df column)))).
Proof.
  intros a.
  destruct (mem column (numeric_columns a)) eqn:M.
  - assert (N : exists v, In (column, NumericCol v) df)
      by (apply in_numeric_columns, mem_In; exact M).
    rewrite (@get_outliers_numeric _ _ method M). cbv zeta.
    split; [split|].
    + intros (message & H).
      destruct (String.eqb method "iqr"); [discriminate|].
      destruct (String.eqb method "zscore"); discriminate.
    + intros H. contradiction.
    + intros _.
      destruct (String.eqb method "iqr");
        [|destruct (String.eqb method "zscore")];
        eexists; (split; [reflexivity|]);
        try apply subseq_filter.
      clear. induction (series_dropna _) as [|x l IH]; now constructor.
  - assert (N : ~ exists v, In (column, NumericCol v) df).
    { intros H. apply in_numeric_columns, mem_In in H. fold a in H. congruence. }
    unfold get_outliers. rewrite M. simpl negb. cbv iota.
    split; [split|].
    + intros _. exact N.
    + intros _. eexists. reflexivity.
    + intros H. contradiction.
Qed.

(** C9.  On a numeric column, any method selector other than ["iqr"]
    and ["zscore"] gives the empty series and no error. *)
Theorem unknown_method_empty (df : DataFrame) (column method : string) :
  (exists v, In (column, NumericCol v) df) ->
  method <> "iqr" -> method <> "zscore" ->
  get_outliers (load_data df) column method = Ok [].
Proof.
  intros N H1 H2.
  apply in_numeric_columns, mem_In in N.
  rewrite (@get_outliers_numeric _ _ method N). cbv zeta.
  apply String.eqb_neq in H1, H2. rewrite H1, H2. reflexivity.
Qed.

Lemma unknown_method_empty_witness :
  get_outliers (load_data Samples.sample_frame) "a" "mad" = Ok [].
Proof.
  apply unknown_method_empty.
  - exists [1; 2; 3; 4; 100]. left. reflexivity.
  - discriminate.
  - discriminate.
Defined.

End Outliers.

(* ================================================================== *)
(** * Strengths are numbers *)
(* ================================================================== *)

Module Strengths.

Import Pandas CSVAnalyzer FloatFacts RoundingVocabulary Rounding Ratio Discovery.
Local Open Scope float_scope.

Lemma SFcompare_Eq_finite s1 m1 e1 s2 m2 e2 :
  SFcompare (S754_finite s1 m1 e1) (S754_finite s2 m2 e2) = Some Eq ->
  s1 = s2 /\ m1 = m2 /\ e1 = e2.
Proof.
  simpl. rewrite !Pos.compare_cont_spec. cbn [Pos.switch_Eq].
  destruct s1, s2; try discriminate;
    destruct (Z.compare_spec e1 e2); try discriminate;
    destruct (Pos.compare_spec m1 m2); try discriminate; auto.
Qed.

(** Values that compare equal compare alike with everything. *)
Lemma SFcompare_Eq_l a b c :
  SFcompare a b = Some Eq -> SFcompare a c = SFcompare b c.
Proof.
  destruct a as [sa|sa| |sa ma ea], b as [sb|sb| |sb mb eb];
    try (simpl; discriminate);
    try (simpl; destruct sa; discriminate);
    try (simpl; destruct sb; discriminate).
  - intros _. destruct c; reflexivity.
  - simpl. destruct sa, sb; try discriminate; reflexivity.
  - intros H. apply SFcompare_Eq_finite in H. destruct H as (-> & -> & ->).
    reflexivity.
Qed.

Lemma eqb_same_key a b k :
  (a =? k) = true -> (b =? k) = true -> (a <? b) = false.
Proof.
  rewrite !eqb_spec, ltb_spec. unfold SFeqb, SFltb.
  destruct (SFcompare (Prim2SF a) (Prim2SF k)) as [[]|] eqn:A; try discriminate.
  destruct (SFcompare (Prim2SF b) (Prim2SF k)) as [[]|] eqn:B; try discriminate.
  intros _ _. rewrite (@SFcompare_Eq_l _ _ (Prim2SF b) A).
  apply SFcompare_antisym in B. simpl in B. rewrite B. reflexivity.
Qed.

Lemma Prim2SF_ten : Prim2SF 10 = S754_finite false 5629499534213120 (-49).
Proof. vm_compute. reflexivity. Qed.

Lemma above_two_positive r :
  F.gtb r 2 = true ->
  Prim2SF r = S754_infinity false \/ exists m e, Prim2SF r = S754_finite false m e.
Proof.
  unfold F.gtb. rewrite ltb_spec, Prim2SF_two. unfold SFltb.
  destruct (Prim2SF r) as [s|[]| |[] m e]; simpl; try discriminate; eauto.
Qed.

Lemma div_positive_not_nan m e m' e' :
  SFdiv prec emax (S754_finite false m e) (S754_finite false m' e') <> S754_nan.
Proof.
  unfold SFdiv. destruct (div_core_quotient m e m' e') as (l & ->).
  apply bra_not_nan. apply Z.div_pos; [|lia].
  apply Z.mul_nonneg_nonneg; [lia|]. apply Z.lt_le_incl, pow2_pos. lia.
Qed.

Lemma one_not_nan : F.is_nan 1 = false.
Proof. vm_compute. reflexivity. Qed.

(** The normalised strength of an influence is a number. *)
Lemma influence_strength_not_nan r :
  F.gtb r 2 = true -> F.is_nan (F.py_min (r / 10) 1) = false.
Proof.
  intros H. unfold F.py_min.
  destruct (1 <? r / 10); [exact one_not_nan|].
  apply is_nan_false. rewrite div_spec, Prim2SF_ten.
  destruct (above_two_positive H) as [E|(m & e & E)]; rewrite E.
  - discriminate.
  - apply div_positive_not_nan.
Qed.

Lemma correlation_strength_not_nan c :
  F.gtb (abs c) 0.3 = true -> F.is_nan (abs c) = false /\ F.is_nan c = false.
Proof.
  intros H. unfold F.gtb in H. apply ltb_not_nan in H. destruct H as [_ H].
  split; [exact H|]. now rewrite abs_is_nan in H.
Qed.

Lemma discovered_strength_not_nan a c :
  In c (discovered a) -> F.is_nan (strength_of c) = false.
Proof.
  unfold discovered. rewrite in_app_iff, correlations_pairs. intros [H|H].
  - apply in_numeric_pairs in H. destruct H as (c1 & c2 & _ & H).
    apply in_correlation_of in H. destruct H as (T & ->). simpl.
    exact (proj1 (correlation_strength_not_nan T)).
  - apply in_influences in H. destruct H as (k & n & _ & _ & H).
    apply in_influence_of in H. destruct H as (_ & T & ->). simpl.
    now apply influence_strength_not_nan.
Qed.

End Strengths.

(* ================================================================== *)
(** * The ranking of connections *)
(* ================================================================== *)

Module Ranking.

Import Pandas CSVAnalyzer FloatFacts SortFacts Strengths RankingVocabulary.
Local Open Scope float_scope.

Lemma insert_by_strength_numbers c l :
  F.is_nan (strength_of c) = false -> numbers l ->
  numbers (insert_by_strength c l).
Proof.
  intros Hc Hl. unfold numbers.
  eapply Permutation_Forall; [apply Permutation_sym, insert_by_strength_perm|].
  now constructor.
Qed.

Lemma insert_by_strength_hd c l x :
  HdRel ranks_before x l -> ranks_before x c ->
  HdRel ranks_before x (insert_by_strength c l).
Proof.
  intros Hl Hc. destruct l as [|y r]; simpl.
  - now constructor.
  - destruct (strength_of c <? strength_of y).
    + constructor. now inversion Hl.
    + now constructor.
Qed.

Lemma insert_by_strength_sorted c l :
  F.is_nan (strength_of c) = false -> numbers l ->
  Sorted ranks_before l -> Sorted ranks_before (insert_by_strength c l).
Proof.
  intros Hc Hn Hs. induction l as [|y r IH]; simpl.
  - repeat constructor.
  - inversion Hn as [|? ? Hy Hr]; subst. inversion Hs as [|? ? Sr Hd]; subst.
    destruct (strength_of c <? strength_of y) eqn:L.
    + constructor; [now apply IH|].
      apply insert_by_strength_hd; [exact Hd|].
      unfold ranks_before. now apply ltb_leb.
    + constructor; [exact Hs|]. constructor.
      unfold ranks_before. now apply ltb_false_leb.
Qed.

Lemma sorted_by_strength_sorted l :
  numbers l -> Sorted ranks_before (sorted_by_strength l).
Proof.
  induction l as [|c l IH]; intros Hn; simpl.
  - constructor.
  - inversion Hn; subst. apply insert_by_strength_sorted; auto.
    unfold numbers. eapply Permutation_Forall;
      [apply Permutation_sym, sorted_by_strength_perm | assumption].
Qed.

Lemma Sorted_adjacent (R : connection -> connection -> Prop) l :
  Sorted R l -> forall l1 c1 c2 l2, l = l1 ++ c1 :: c2 :: l2 -> R c1 c2.
Proof.
  intros Hs l1. revert l Hs. induction l1 as [|x l1 IH]; intros l Hs c1 c2 l2 ->.
  - inversion Hs as [|? ? _ Hd]; subst. now inversion Hd.
  - inversion Hs; subst. eapply IH; eauto.
Qed.

(** Entries with one and the same key keep their order through an
    insertion: the new entry passes only strictly smaller keys. *)
Lemma insert_by_strength_stable k c l :
  filter (fun x => strength_of x =? k) (insert_by_strength c l) =
  filter (fun x => strength_of x =? k) (c :: l).
Proof.
  induction l as [|y r IH].
  - reflexivity.
  - cbn [insert_by_strength]. destruct (strength_of c <? strength_of y) eqn:L.
    + cbn [filter] in *. rewrite IH.
      destruct (strength_of c =? k) eqn:Ec; [|reflexivity].
      destruct (strength_of y =? k) eqn:Ey; [|reflexivity].
      rewrite (eqb_same_key Ec Ey) in L. discriminate.
    + reflexivity.
Qed.

Lemma sorted_by_strength_stable k l :
  filter (fun x => strength_of x =? k) (sorted_by_strength l) =
  filter (fun x => strength_of x =? k) l.
Proof.
  induction l as [|c l IH].
  - reflexivity.
  - cbn [sorted_by_strength fold_right]. fold (sorted_by_strength l).
    rewrite insert_by_strength_stable. cbn [filter]. now rewrite IH.
Qed.

(** C2.  The list [find_connections] returns is ordered by strength,
    largest first: of two adjacent entries the first has a strength
    greater than or equal to the second's.  The sort is stable: for any
    strength [k], the entries of that strength come out in the order in
    which they were discovered, which is all correlations in numeric
    pair order followed by all categorical influences in categorical by
    numeric pair order; and the output is a rearrangement of what was
    discovered. *)
Theorem find_connections_ranked (df : DataFrame) :
  let a := load_data df in
  (forall l1 c1 c2 l2,
      find_connections a = l1 ++ c1 :: c2 :: l2 ->
      (strength_of c2 <=? strength_of c1) = true) /\
  (forall k,
      filter (fun c => strength_of c =? k) (find_connections a) =
      filter (fun c => strength_of c =? k) (correlations a ++ influences a)) /\
  Permutation (find_connections a) (correlations a ++ influences a).
Proof.
  intros a. split; [|split].
  - intros l1 c1 c2 l2 E.
    assert (S : Sorted ranks_before (find_connections a)).
    { apply sorted_by_strength_sorted. apply Forall_forall.
      intros c. apply discovered_strength_not_nan. }
    exact (Sorted_adjacent S _ _ _ _ E).
  - intros k. apply sorted_by_strength_stable.
  - apply sorted_by_strength_perm.
Qed.

End Ranking.

(* ================================================================== *)
(** * Group statistics *)
(* ================================================================== *)

Module Groups.

Import Pandas CSVAnalyzer FloatFacts RoundingVocabulary GroupVocabulary Rounding Ratio.
Local Open Scope float_scope.

Lemma group_var_step_count xs n m o :
  fst (fst (fold_left group_var_step xs (n, m, o))) = (n + List.length xs)%nat.
Proof.
  revert n m o. induction xs as [|x xs IH]; intros n m o; simpl.
  - lia.
  - rewrite IH. lia.
Qed.

Lemma sqrt_nan : sqrt nan = nan.
Proof. vm_compute. reflexivity. Qed.

Lemma nan_is_nan : F.is_nan nan = true.
Proof. vm_compute. reflexivity. Qed.

(** A group of fewer than two values has no sample deviation. *)
Lemma group_std_few v :
  (List.length (F.dropna v) <= 1)%nat -> group_std v = nan.
Proof.
  intros H. unfold group_std, group_var.
  assert (C := group_var_step_count (F.dropna v) 0 0 0).
  change (fold_left group_var_step (F.dropna v) (0%nat, 0, 0))
    with (group_var_run_in Arithmetic.binary64 (F.dropna v)) in C.
  destruct (group_var_run_in Arithmetic.binary64 (F.dropna v)) as [[n m] o].
  simpl in C. subst n.
  destruct (Nat.leb_spec (List.length (F.dropna v)) 1); [apply sqrt_nan | lia].
Qed.

Lemma group_std_range v : nonneg_or_nan (Prim2SF (group_std v)).
Proof. apply sqrt_range. Qed.

Lemma in_groupby_agg labels v key st :
  In (key, st) (groupby_agg labels v) <->
  In key (group_keys labels) /\
  st = agg_mean_std_count (group_values key labels v).
Proof.
  unfold groupby_agg. rewrite in_map_iff. split.
  - intros (k & E & H). injection E as -> <-. now split.
  - intros (H & ->). now exists key.
Qed.

Lemma groupby_agg_aggregated labels v :
  Forall aggregated (groupby_agg labels v).
Proof.
  apply Forall_forall. intros [key st] H.
  apply in_groupby_agg in H. destruct H as (_ & ->).
  split; simpl.
  - apply group_std_range.
  - apply group_std_few.
Qed.

(** ** Maximum and minimum over the deviations that are numbers *)

Lemma dropna_dropna l : F.dropna (F.dropna l) = F.dropna l.
Proof.
  unfold F.dropna. induction l as [|x l IH]; simpl.
  - reflexivity.
  - destruct (F.is_nan x) eqn:E; simpl; [exact IH|]. rewrite E. simpl. now rewrite IH.
Qed.

Lemma fold_pick_not_nan (pick : float -> float -> float) l x :
  (forall a b, pick a b = a \/ pick a b = b) ->
  F.is_nan x = false -> Forall (fun y => F.is_nan y = false) l ->
  F.is_nan (fold_left pick l x) = false.
Proof.
  intros P. revert x. induction l as [|y l IH]; intros x Hx Hl; simpl.
  - exact Hx.
  - inversion Hl; subst. apply IH; [|assumption].
    destruct (P x y) as [-> | ->]; assumption.
Qed.

Lemma dropna_numbers l : Forall (fun y => F.is_nan y = false) (F.dropna l).
Proof.
  apply Forall_forall. intros y H. unfold F.dropna in H.
  apply filter_In in H. destruct H as [_ H]. now destruct (F.is_nan y).
Qed.

(** NaN entries are passed over: the maximum and the minimum are NaN
    only when no entry is a number. *)
Lemma nanmax_not_nan l : F.dropna l <> [] -> F.is_nan (nanmax l) = false.
Proof.
  intros H. unfold nanmax. assert (N := dropna_numbers l).
  destruct (F.dropna l) as [|x r]; [congruence|].
  inversion N; subst. apply fold_pick_not_nan; auto.
  intros a b. destruct (a <? b); auto.
Qed.

Lemma nanmin_not_nan l : F.dropna l <> [] -> F.is_nan (nanmin l) = false.
Proof.
  intros H. unfold nanmin. assert (N := dropna_numbers l).
  destruct (F.dropna l) as [|x r]; [congruence|].
  inversion N; subst. apply fold_pick_not_nan; auto.
  intros a b. destruct (b <? a); auto.
Qed.

Lemma Prim2SF_nan : Prim2SF nan = S754_nan.
Proof. vm_compute. reflexivity. Qed.

Lemma filter_length_mono {A} (p q : A -> bool) l :
  (forall x, In x l -> p x = true -> q x = true) ->
  (List.length (filter p l) <= List.length (filter q l))%nat.
Proof.
  induction l as [|x l IH]; intros H; simpl.
  - lia.
  - assert (IH' := IH (fun y Hy => H y (or_intror Hy))).
    destruct (p x) eqn:P.
    + rewrite (H x (or_introl eq_refl) P). simpl. lia.
    + destruct (q x); simpl; lia.
Qed.

Lemma filter_map_length {A B} (f : A -> B) (p : B -> bool) l :
  List.length (filter p (map f l)) = List.length (filter (fun x => p (f x)) l).
Proof.
  induction l as [|x l IH]; simpl; [reflexivity|].
  destruct (p (f x)); simpl; now rewrite IH.
Qed.

(** The groups whose deviation is a number have at least two values. *)
Lemma numbers_among_stds g :
  Forall aggregated g ->
  (List.length (F.dropna (std_column g)) <=
   List.length (filter (fun kv => 2 <=? g_count (snd kv))%nat g))%nat.
Proof.
  intros H. unfold F.dropna, std_column. rewrite filter_map_length.
  apply filter_length_mono. intros kv Hin N.
  rewrite Forall_forall in H. destruct (H kv Hin) as [_ F].
  destruct (Nat.leb_spec 2 (g_count (snd kv))); [reflexivity|].
  rewrite F in N by lia. rewrite nan_is_nan in N. discriminate.
Qed.

(** With at most one deviation that is a number, the ratio is that
    deviation over itself (plus 1e-10). *)
Lemma single_std_ratio g :
  Forall aggregated g ->
  (List.length (F.dropna (std_column g)) <= 1)%nat ->
  unit_or_nan (Prim2SF (variance_ratio g)).
Proof.
  intros H L. unfold variance_ratio, nanmax, nanmin.
  destruct (F.dropna (std_column g)) as [|s [|t r]] eqn:E; simpl in L; try lia.
  - apply self_ratio_spec. rewrite Prim2SF_nan. exact I.
  - simpl. apply self_ratio_spec.
    assert (Hs : In s (F.dropna (std_column g))) by (rewrite E; now left).
    unfold F.dropna in Hs. apply filter_In in Hs. destruct Hs as [Hs _].
    unfold std_column in Hs. apply in_map_iff in Hs. destruct Hs as (kv & <- & Hkv).
    rewrite Forall_forall in H. exact (proj1 (H kv Hkv)).
Qed.

Lemma std_column_length g : List.length (std_column g) = List.length g.
Proof. unfold std_column. apply length_map. Qed.

Lemma dropna_length l : (List.length (F.dropna l) <= List.length l)%nat.
Proof. unfold F.dropna. apply List.filter_length_le. Qed.

Lemma two_in_filter {A} (p : A -> bool) l :
  (2 <= List.length (filter p l))%nat ->
  exists x y, before x y l /\ p x = true /\ p y = true.
Proof.
  induction l as [|z l IH]; simpl; [lia|].
  destruct (p z) eqn:P; simpl; intros H.
  - destruct (filter p l) as [|y r] eqn:F; simpl in H; [lia|].
    assert (Hy : In y (filter p l)) by (rewrite F; now left).
    apply filter_In in Hy. destruct Hy as [Hy Py].
    apply in_split in Hy. destruct Hy as (l2 & l3 & ->).
    exists z, y. split; [now exists [], l2, l3 | now split].
  - destruct (IH H) as (x & y & (l1 & l2 & l3 & ->) & Px & Py).
    exists x, y. split; [now exists (z :: l1), l2, l3 | now split].
Qed.

End Groups.

(* ================================================================== *)
(** * Group keys *)
(* ================================================================== *)

Module Keys.

Import Pandas CSVAnalyzer.

Lemma in_insert_label x s l : In x (insert_label s l) <-> x = s \/ In x l.
Proof.
  induction l as [|t r IH]; simpl.
  - intuition.
  - destruct (String.compare s t) eqn:C; simpl.
    + apply String_as_OT.cmp_eq in C. subst t. intuition.
    + intuition.
    + rewrite IH. intuition.
Qed.

Lemma in_group_keys key labels :
  In key (group_keys labels) <-> In (Some key) labels.
Proof.
  induction labels as [|[s|] r IH]; simpl.
  - tauto.
  - rewrite in_insert_label, IH. intuition congruence.
  - rewrite IH. intuition discriminate.
Qed.

Lemma insert_label_sorted s l :
  StronglySorted String_as_OT.lt l ->
  StronglySorted String_as_OT.lt (insert_label s l).
Proof.
  induction 1 as [|t r Hs IH Hf]; simpl.
  - repeat constructor.
  - destruct (String.compare s t) eqn:C.
    + now constructor.
    + apply String_as_OT.cmp_lt in C.
      constructor; [now constructor|].
      constructor; [exact C|].
      eapply Forall_impl; [|exact Hf].
      intros x Hx. eapply String_as_OT.lt_trans; eauto.
    + assert (L : String_as_OT.lt t s).
      { apply String_as_OT.cmp_lt. unfold String_as_OT.cmp.
        rewrite String.compare_antisym, C. reflexivity. }
      constructor; [exact IH|].
      apply Forall_forall. intros x Hx. apply in_insert_label in Hx.
      destruct Hx as [->|Hx]; [exact L|].
      rewrite Forall_forall in Hf. now apply Hf.
Qed.

Lemma group_keys_sorted labels :
  StronglySorted String_as_OT.lt (group_keys labels).
Proof.
  induction labels as [|[s|] r IH]; simpl.
  - constructor.
  - now apply insert_label_sorted.
  - exact IH.
Qed.

(** Labels sorted strictly: positions apart, keys apart. *)
Lemma sorted_before_differ (x y : string) l :
  StronglySorted String_as_OT.lt l -> before x y l -> x <> y.
Proof.
  intros S (l1 & l2 & l3 & ->).
  induction l1 as [|z l1 IH]; simpl in S.
  - apply StronglySorted_inv in S. destruct S as [_ F].
    rewrite Forall_forall in F.
    assert (L : String_as_OT.lt x y) by (apply F, in_or_app; right; now left).
    intros E. exact (String_as_OT.lt_not_eq _ _ L E).
  - apply StronglySorted_inv in S. tauto.
Qed.

Lemma groupby_agg_keys labels v :
  map fst (groupby_agg labels v) = group_keys labels.
Proof.
  unfold groupby_agg. rewrite map_map. simpl. apply map_id.
Qed.

Lemma before_map {A B} (f : A -> B) x y l :
  before x y l -> before (f x) (f y) (map f l).
Proof.
  intros (l1 & l2 & l3 & ->). exists (map f l1), (map f l2), (map f l3).
  rewrite !map_app. simpl. rewrite map_app. reflexivity.
Qed.

Lemma grouped_rows_differ a cat_col num_col g1 g2 :
  before g1 g2 (grouped a cat_col num_col) -> fst g1 <> fst g2.
Proof.
  intros B. apply (before_map fst) in B. unfold grouped in B.
  rewrite groupby_agg_keys in B.
  eapply sorted_before_differ; [apply group_keys_sorted | exact B].
Qed.

End Keys.

(* ================================================================== *)
(** * Categorical influence *)
(* ================================================================== *)

Module Influence.

Import Arithmetic Pandas CSVAnalyzer Statistics.
Import FloatFacts RoundingVocabulary Rounding Ratio.
Import SortFacts Discovery Frames GroupVocabulary Groups Keys.
Local Open Scope string_scope.
Local Open Scope float_scope.

Lemma grouped_aggregated a cat_col num_col :
  Forall aggregated (grouped a cat_col num_col).
Proof. apply groupby_agg_aggregated. Qed.

Lemma few_groups_no_influence a cat_col num_col :
  (List.length (filter (fun kv => 2 <=? g_count (snd kv))%nat (grouped a cat_col num_col)) <= 1)%nat ->
  unit_or_nan (Prim2SF (variance_ratio (grouped a cat_col num_col))).
Proof.
  intros H. apply single_std_ratio; [apply grouped_aggregated|].
  eapply Nat.le_trans; [apply numbers_among_stds, grouped_aggregated | exact H].
Qed.

Lemma above_two_many_groups a cat_col num_col :
  F.gtb (variance_ratio (grouped a cat_col num_col)) 2 = true ->
  (2 <= List.length (filter (fun kv => 2 <=? g_count (snd kv))%nat (grouped a cat_col num_col)))%nat.
Proof.
  intros T.
  destruct (Nat.le_gt_cases
              (List.length (filter (fun kv => 2 <=? g_count (snd kv))%nat
                                   (grouped a cat_col num_col))) 1) as [L|L];
    [|exact L].
  apply few_groups_no_influence, unit_or_nan_not_above_two in L. congruence.
Qed.

Lemma in_find_connections_influence a cat_col num_col s d :
  In (categorical_influence cat_col num_col s d) (find_connections a) ->
  (1 <? List.length (grouped a cat_col num_col))%nat = true /\
  F.gtb (variance_ratio (grouped a cat_col num_col)) 2 = true /\
  s = F.py_min (variance_ratio (grouped a cat_col num_col) / 10) 1 /\
  d = grouped a cat_col num_col.
Proof.
  intros H.
  apply in_find_connections, in_discovered_influence, in_influences in H.
  destruct H as (k & n & _ & _ & H).
  apply in_influence_of in H. destruct H as (L & T & E).
  injection E as -> -> -> ->. auto.
Qed.



(** C5.  A categorical-influence connection is returned for a pair only
    if the grouped table has two rows with different labels (two
    groups) that each hold at least one non-missing numeric value; a
    pair without two such groups yields no connection. *)
Theorem influence_needs_two_groups (df : DataFrame) (cat_col num_col : string)
        (s : float) (d : list (string * group_stats)) :
  In (categorical_influence cat_col num_col s d) (find_connections (load_data df)) ->
  exists g1 g2,
    before g1 g2 (grouped (load_data df) cat_col num_col) /\
    fst g1 <> fst g2 /\
    (1 <= g_count (snd g1))%nat /\ (1 <= g_count (snd g2))%nat.
Proof.
  intros H. apply in_find_connections_influence in H. destruct H as (_ & T & _).
  apply above_two_many_groups, two_in_filter in T.
  destruct T as (g1 & g2 & B & P1 & P2).
  apply Nat.leb_le in P1, P2.
  exists g1, g2. split; [exact B|].
  split; [exact (@grouped_rows_differ _ _ _ _ _ B)|]. split; lia.
Qed.

Lemma influence_needs_two_groups_witness :
  exists g1 g2,
    before g1 g2 (grouped (load_data Samples.spread_frame) "k" "n") /\
    fst g1 <> fst g2 /\
    (1 <= g_count (snd g1))%nat /\ (1 <= g_count (snd g2))%nat.
Proof.
  apply (@influence_needs_two_groups Samples.spread_frame "k" "n"
           (F.py_min (variance_ratio (grouped (load_data Samples.spread_frame) "k" "n") / 10) 1)
           (grouped (load_data Samples.spread_frame) "k" "n")).
  vm_compute. left. reflexivity.
Defined.

(** C10.  A group with exactly one non-missing value has a NaN sample
    standard deviation.  The maximum and the minimum of the group
    deviations pass over NaN entries: they are taken over the entries
    that are numbers, and are NaN only when there is none.  So when at
    most one group has two or more non-missing values, the ratio is NaN
    or at most 1, and no categorical-influence connection is returned
    for the pair. *)
Theorem singleton_groups_skipped (df : DataFrame) (cat_col num_col : string) :
  let a := load_data df in
  let g := grouped a cat_col num_col in
  (forall key st, In (key, st) g -> g_count st = 1%nat -> F.is_nan (g_std st) = true) /\
  (nanmax (std_column g) = nanmax (F.dropna (std_column g)) /\
   nanmin (std_column g) = nanmin (F.dropna (std_column g))) /\
  (F.dropna (std_column g) <> [] ->
   F.is_nan (nanmax (std_column g)) = false /\
   F.is_nan (nanmin (std_column g)) = false) /\
  ((List.length (filter (fun kv => 2 <=? g_count (snd kv))%nat g) <= 1)%nat ->
   (F.is_nan (variance_ratio g) = true \/ (variance_ratio g <=? 1) = true) /\
   forall s d, ~ In (categorical_influence cat_col num_col s d) (find_connections a)).
Proof.
  intros a g. split; [|split; [|split]].
  - intros key st H C.
    assert (A := grouped_aggregated a cat_col num_col).
    rewrite Forall_forall in A. destruct (A _ H) as [_ F]. simpl in F.
    rewrite F by lia. apply nan_is_nan.
  - unfold nanmax, nanmin. rewrite dropna_dropna. split; reflexivity.
  - intros N. split; [now apply nanmax_not_nan | now apply nanmin_not_nan].
  - intros L. assert (U := few_groups_no_influence a cat_col num_col L).
    split; [now apply unit_or_nan_leb|].
    intros s d H. apply in_find_connections_influence in H.
    destruct H as (_ & T & _).
    apply unit_or_nan_not_above_two in U. fold g in U. unfold g in U. congruence.
Qed.

End Influence.

(* ================================================================== *)
(** * Sums, means and deviations of the values present *)
(* ================================================================== *)

Module Sums.

Import Arithmetic Pandas.
Local Open Scope float_scope.

Lemma halves_shorter n :
  (128 < n)%nat ->
  (1 <= n / 2 - (n / 2) mod 8 /\ n / 2 - (n / 2) mod 8 < n)%nat.
Proof.
  intros H.
  assert (D := Nat.div_mod_eq n 2).
  assert (M := Nat.mod_upper_bound n 2).
  assert (K := Nat.mod_upper_bound (n / 2) 8).
  lia.
Qed.

(** The splits of [pairwise_sum_in] halve the array: any depth from its
    length on gives the same sum. *)
Lemma pairwise_sum_depth {T : Type} (o : ops T) (d1 : nat) :
  forall (d2 : nat) (a : list T),
    (List.length a <= d1)%nat -> (List.length a <= d2)%nat ->
    pairwise_sum_in o d1 a = pairwise_sum_in o d2 a.
Proof.
  induction d1 as [|d1 IH]; intros d2 a L1 L2.
  - destruct a; [|cbn in L1; lia]. destruct d2; reflexivity.
  - destruct d2 as [|d2].
    + destruct a; [|cbn in L2; lia]. reflexivity.
    + cbn [pairwise_sum_in]. cbv zeta.
      destruct (Nat.ltb_spec 128 (List.length a)) as [B|B]; [|reflexivity].
      destruct (halves_shorter B) as [P Q].
      f_equal; apply IH; rewrite ?length_firstn, ?length_skipn; lia.
Qed.

Lemma fillna0_present v :
  Forall (fun x => F.is_nan x = false) v -> fillna0 v = v.
Proof.
  induction 1 as [|x v H _ IH]; [reflexivity|].
  cbn [fillna0 map]. rewrite H. f_equal. exact IH.
Qed.

Lemma dropna_present v :
  Forall (fun x => F.is_nan x = false) v -> F.dropna v = v.
Proof.
  induction 1 as [|x v H _ IH]; [reflexivity|].
  unfold F.dropna. cbn [filter]. rewrite H. cbn [negb]. f_equal. exact IH.
Qed.

Lemma present_values s :
  Forall (fun x => F.is_nan x = false) (series_values (series_dropna s)).
Proof.
  unfold series_values, series_dropna. apply Forall_forall. intros x H.
  apply in_map_iff in H. destruct H as (iv & <- & H).
  apply filter_In in H. now apply negb_true_iff.
Qed.

(** On values that are all present the mean is the sum over the count
    and the deviation the root of the summed squares over the count
    less one. *)
Lemma mean_present v :
  Forall (fun x => F.is_nan x = false) v -> v <> [] ->
  mean v = np_sum v / F.of_nat (List.length v).
Proof.
  intros P N. unfold mean. rewrite (dropna_present P), (fillna0_present P).
  destruct v; [congruence|reflexivity].
Qed.

Lemma std_present v :
  Forall (fun x => F.is_nan x = false) v -> (2 <= List.length v)%nat ->
  std v = sqrt (np_sum (map (fun x => (mean v - x) * (mean v - x)) v)
                / F.of_nat (List.length v - 1)).
Proof.
  intros P L.
  assert (N : v <> []) by (destruct v; cbn in L; [lia|discriminate]).
  rewrite (mean_present P N).
  unfold std, var. rewrite (dropna_present P), (fillna0_present P).
  destruct (Nat.leb_spec (List.length v) 1); [lia|]. cbv zeta.
  do 3 f_equal. apply map_ext_in. intros x Hx.
  now rewrite (proj1 (Forall_forall _ _) P x Hx).
Qed.

End Sums.

(* ================================================================== *)
(** * Outliers by z-score *)
(* ================================================================== *)

Module ZScore.

Import Arithmetic Pandas CSVAnalyzer Statistics FloatFacts Frames Outliers Sums.
Local Open Scope string_scope.
Local Open Scope float_scope.

Lemma Prim2SF_zero : Prim2SF 0 = S754_zero false.
Proof. vm_compute. reflexivity. Qed.

Lemma Prim2SF_three : Prim2SF 3 = S754_finite false 6755399441055744 (-51).
Proof. vm_compute. reflexivity. Qed.

Lemma eqb_zero x : (x =? 0) = true -> exists b, Prim2SF x = S754_zero b.
Proof.
  rewrite eqb_spec, Prim2SF_zero. unfold SFeqb.
  destruct (Prim2SF x) as [b|[]| |[] m e]; simpl; try discriminate.
  intros _. now exists b.
Qed.

(** A zero deviation never makes an outlier, whatever the standard
    deviation: the quotient is zero or (over zero or NaN) NaN. *)
Lemma zero_deviation_z_score m s x :
  (x - m =? 0) = true -> F.gtb (z_score m s x) 3 = false.
Proof.
  intros H. apply eqb_zero in H. destruct H as (b & H).
  unfold F.gtb, z_score. rewrite ltb_spec, abs_spec, div_spec, H, Prim2SF_three.
  unfold SF64div, SFdiv.
  destruct (Prim2SF s) as [c|c| |c ms es]; reflexivity.
Qed.

Lemma filter_none {A} (p : A -> bool) l :
  (forall x, In x l -> p x = false) -> filter p l = [].
Proof.
  induction l as [|x l IH]; intros H; simpl; [reflexivity|].
  rewrite (H x (or_introl eq_refl)). apply IH. intros y Hy. apply H. now right.
Qed.

(** C7, as the analyzer has it.  With the ["zscore"] method
    [get_outliers] never fails on a numeric column: it returns, in
    order, the non-missing entries [x] with
    [abs ((x - mean) / std) > 3], the quotient taken in binary64.  The
    mean is numpy's sum of the entries over their count, and the
    deviation the root of numpy's sum of the squared differences from
    the mean over the count less one; over the real numbers that sum
    is the sum.  When every non-missing entry has a zero deviation from
    the computed mean (as in [5, 5, 5, 5], where the standard deviation
    is 0), every quotient is zero or NaN and the result is empty. *)
Theorem zscore_outliers (df : DataFrame) (column : string) :
  (exists v, In (column, NumericCol v) df) ->
  let present := series_dropna (to_series (numeric_values df column)) in
  let values := series_values present in
  let n := List.length values in
  let m := mean values in
  let s := std values in
  exists out,
    get_outliers (load_data df) column "zscore" = Ok out /\
    out = filter (fun iv => 3 <? abs ((snd iv - m) / s)) present /\
    ((2 <= n)%nat ->
     m = np_sum values / F.of_nat n /\
     s = sqrt (np_sum (map (fun x => (m - x) * (m - x)) values) / F.of_nat (n - 1))) /\
    ((forall iv, In iv present -> (snd iv - m =? 0) = true) -> out = []) /\
    get_outliers (load_data [("x", NumericCol [5; 5; 5; 5])]) "x" "zscore" = Ok [] /\
    (forall exact : list Rdefinitions.R, sum_in real exact = total real exact).
Proof.
  intros N present values n m s.
  apply in_numeric_columns, mem_In in N.
  rewrite (@get_outliers_numeric _ _ "zscore" N). cbv zeta.
  change (String.eqb "zscore" "iqr") with false.
  change (String.eqb "zscore" "zscore") with true. cbv iota.
  eexists. split; [reflexivity|].
  split; [reflexivity|]. split; [|split; [|split]].
  - intros L. assert (P := present_values (to_series (numeric_values df column))).
    split.
    + apply mean_present; [exact P|].
      fold present values. unfold n in L. destruct values; cbn in *; [lia|discriminate].
    + now apply std_present.
  - intros Z. apply filter_none. intros iv Hiv.
    apply zero_deviation_z_score. now apply Z.
  - vm_compute. reflexivity.
  - apply ExactArithmetic.sum_exact.
Qed.

Lemma zscore_outliers_witness :
  get_outliers (load_data Samples.spike_frame) "x" "zscore" = Ok [(11%nat, 100)] /\
  mean (numeric_values Samples.spike_frame "x") = 18.916666666666668 /\
  std (numeric_values Samples.spike_frame "x") = 25.553716446779795 /\
  get_outliers (load_data Samples.ten_constant_frame) "x" "zscore" = Ok [] /\
  get_outliers (load_data Samples.degenerate_frame) "c" "zscore" = Ok [].
Proof.
  destruct (@zscore_outliers Samples.spike_frame "x") as (out1 & E1 & F1 & M1 & _).
  { eexists. left. reflexivity. }
  destruct (@zscore_outliers Samples.ten_constant_frame "x") as (out2 & E2 & F2 & _).
  { eexists. left. reflexivity. }
  destruct (@zscore_outliers Samples.degenerate_frame "c") as (out3 & E3 & F3 & _).
  { exists [5; 5; 5; 5; 5]. right. left. reflexivity. }
  destruct M1 as [Em Es]; [vm_compute; lia|].
  split; [rewrite E1, F1; vm_compute; reflexivity|].
  split; [etransitivity; [exact Em|]; vm_compute; reflexivity|].
  split; [etransitivity; [exact Es|]; vm_compute; reflexivity|].
  split; [rewrite E2, F2; vm_compute; reflexivity|].
  rewrite E3, F3. vm_compute. reflexivity.
Defined.

(** The claim as worded fails: a column whose computed standard
    deviation is 0 can come back whole.  In [1e-200, 0] the deviations
    are 5e-201 and their squares underflow to 0, so the quotients are
    infinite; in the constant column of [tiny_constant_frame] the
    computed mean is off by one unit in the last place and the same
    happens. *)
Lemma zscore_zero_std_counterexample :
  let v := series_values (series_dropna (to_series (numeric_values Samples.tiny_frame "x"))) in
  let c := series_values (series_dropna (to_series (numeric_values Samples.tiny_constant_frame "x"))) in
  (std v =? 0) = true /\
  get_outliers (load_data Samples.tiny_frame) "x" "zscore"
  = Ok [(0%nat, 1e-200); (1%nat, 0)] /\
  (std c =? 0) = true /\
  get_outliers (load_data Samples.tiny_constant_frame) "x" "zscore"
  = Ok [(0%nat, 0x1.999999999999ap-604); (1%nat, 0x1.999999999999ap-604);
        (2%nat, 0x1.999999999999ap-604)].
Proof.
  vm_compute. repeat split; reflexivity.
Qed.

End ZScore.

(* ================================================================== *)
(** * Outliers by the interquartile range *)
(* ================================================================== *)

Module Interquartile.

Import Pandas CSVAnalyzer QuantileVocabulary FloatFacts Frames Outliers Sums.
Local Open Scope string_scope.
Local Open Scope float_scope.

(** Of two numbers one is at most the other. *)
Lemma leb_total a b :
  F.is_nan a = false -> F.is_nan b = false ->
  (a <=? b) = false -> (b <=? a) = true.
Proof.
  rewrite !is_nan_false, !leb_spec. unfold SFleb. intros Ha Hb.
  destruct (SFcompare (Prim2SF a) (Prim2SF b)) as [c|] eqn:E.
  - rewrite (SFcompare_antisym _ _ E). now destruct c.
  - apply SFcompare_nan in E. tauto.
Qed.

Lemma insert_asc_perm x l : Permutation (insert_asc x l) (x :: l).
Proof.
  induction l as [|y r IH]; cbn [insert_asc]; [apply Permutation_refl|].
  destruct (y <=? x); [|apply Permutation_refl].
  eapply perm_trans; [apply perm_skip, IH | apply perm_swap].
Qed.

Lemma sort_asc_perm l : Permutation (sort_asc l) l.
Proof.
  induction l as [|x l IH]; cbn [sort_asc fold_right]; [constructor|].
  eapply perm_trans; [apply insert_asc_perm|]. now apply perm_skip.
Qed.

Lemma insert_asc_hd x y l :
  ascending y x -> HdRel ascending y l -> HdRel ascending y (insert_asc x l).
Proof.
  intros Hx H. destruct l as [|z r]; cbn [insert_asc]; [now constructor|].
  inversion H; subst. destruct (z <=? x); now constructor.
Qed.

Lemma insert_asc_sorted x l :
  F.is_nan x = false -> Forall (fun y => F.is_nan y = false) l ->
  Sorted ascending l -> Sorted ascending (insert_asc x l).
Proof.
  intros Nx. induction l as [|y r IH]; intros Nl S; cbn [insert_asc].
  - repeat constructor.
  - inversion Nl as [|? ? Ny Nr]; subst. inversion S as [|? ? S' H]; subst.
    destruct (y <=? x) eqn:E.
    + constructor; [now apply IH|]. now apply insert_asc_hd.
    + constructor; [exact S|]. constructor. now apply leb_total.
Qed.

Lemma sort_asc_present l :
  Forall (fun y => F.is_nan y = false) l ->
  Forall (fun y => F.is_nan y = false) (sort_asc l).
Proof.
  intros H. apply Forall_forall. intros x Hx.
  apply (Permutation_in _ (sort_asc_perm l)) in Hx.
  exact (proj1 (Forall_forall _ _) H x Hx).
Qed.

(** The insertion sort puts the numbers in ascending order. *)
Lemma sort_asc_sorted l :
  Forall (fun y => F.is_nan y = false) l -> Sorted ascending (sort_asc l).
Proof.
  induction 1 as [|x l Hx Hl IH]; cbn [sort_asc fold_right]; [constructor|].
  apply insert_asc_sorted; [exact Hx | now apply sort_asc_present | exact IH].
Qed.

Lemma quartile_at_quarter k v :
  quartile k v = at_quarter k (sort_asc (F.dropna v)).
Proof. reflexivity. Qed.

(** C8.  With the ["iqr"] method [get_outliers] returns, in their
    original order, exactly the non-missing entries of the column that
    lie strictly below [Q1 - 1.5 * IQR] or strictly above
    [Q3 + 1.5 * IQR], where [IQR = Q3 - Q1] and [Q1] and [Q3] are the
    quartiles of the non-missing values: these put in ascending order,
    the values at the virtual indices [(n - 1) / 4] and
    [3 (n - 1) / 4], interpolated linearly between their neighbours.
    The column [1, 2, 3, 4, 100] gives the single outlier 100 (at
    row 4). *)
Theorem iqr_outliers (df : DataFrame) (column : string) :
  (exists v, In (column, NumericCol v) df) ->
  let present := series_dropna (to_series (numeric_values df column)) in
  let values := series_values present in
  let Q1 := quartile 1 values in
  let Q3 := quartile 3 values in
  let IQR := Q3 - Q1 in
  exists s sorted,
    get_outliers (load_data df) column "iqr" = Ok s /\
    Permutation sorted values /\
    Sorted ascending sorted /\
    Q1 = at_quarter 1 sorted /\
    Q3 = at_quarter 3 sorted /\
    s = filter (fun iv => (snd iv <? Q1 - 1.5 * IQR) || (Q3 + 1.5 * IQR <? snd iv))
               present /\
    subseq s present /\
    (forall iv, In iv s <->
                In iv present /\
                ((snd iv <? Q1 - 1.5 * IQR) = true \/
                 (Q3 + 1.5 * IQR <? snd iv) = true)) /\
    get_outliers (load_data [("x", NumericCol [1; 2; 3; 4; 100])]) "x" "iqr"
    = Ok [(4%nat, 100)].
Proof.
  intros N present values Q1 Q3 IQR.
  apply in_numeric_columns, mem_In in N.
  rewrite (@get_outliers_numeric _ _ "iqr" N). cbv zeta.
  change (String.eqb "iqr" "iqr") with true. cbv iota.
  assert (P := present_values (to_series (numeric_values df column))).
  fold present values in P.
  eexists. exists (sort_asc values). split; [reflexivity|].
  split; [apply sort_asc_perm|].
  split; [now apply sort_asc_sorted|].
  split; [unfold Q1; now rewrite quartile_at_quarter, (dropna_present P)|].
  split; [unfold Q3; now rewrite quartile_at_quarter, (dropna_present P)|].
  split; [reflexivity|].
  split; [apply subseq_filter|].
  split.
  - intros iv. unfold series_where. rewrite filter_In.
    unfold outside, iqr_bounds, F.gtb. cbn [fst snd].
    rewrite orb_true_iff. reflexivity.
  - vm_compute. reflexivity.
Qed.

Lemma iqr_outliers_witness :
  get_outliers (load_data Samples.unsorted_frame) "x" "iqr" = Ok [(1%nat, 100)] /\
  quartile 1 (numeric_values Samples.unsorted_frame "x") = 2.25 /\
  quartile 3 (numeric_values Samples.unsorted_frame "x") = 6.25 /\
  get_outliers (load_data Samples.sample_frame) "a" "iqr" = Ok [(4%nat, 100)].
Proof.
  destruct (@iqr_outliers Samples.unsorted_frame "x")
    as (s1 & sorted1 & E1 & _ & _ & _ & _ & F1 & _).
  { eexists. left. reflexivity. }
  destruct (@iqr_outliers Samples.sample_frame "a")
    as (s2 & sorted2 & E2 & _ & _ & _ & _ & F2 & _).
  { eexists. left. reflexivity. }
  split; [rewrite E1, F1; vm_compute; reflexivity|].
  split; [vm_compute; reflexivity|].
  split; [vm_compute; reflexivity|].
  rewrite E2, F2. vm_compute. reflexivity.
Defined.

End Interquartile.

(* ================================================================== *)
(** * Binary64 arithmetic: exact results *)
(* ================================================================== *)

Module Exact.

Import FloatFacts RoundingVocabulary Rounding Ratio.
Local Open Scope Z_scope.

Lemma shr_1_exact m :
  0 <= m -> m mod 2 = 0 ->
  shr_1 {| shr_m := m; shr_r := false; shr_s := false |} =
  {| shr_m := m / 2; shr_r := false; shr_s := false |}.
Proof.
  intros H E. destruct m as [|p|p]; try lia.
  - reflexivity.
  - destruct p as [p|p|]; simpl.
    + exfalso. rewrite Pos2Z.inj_xI in E.
      rewrite Z.add_comm, Z.mul_comm, Z.mod_add in E by lia. discriminate.
    + f_equal. rewrite Pos2Z.inj_xO, Z.mul_comm, Z.div_mul by lia. reflexivity.
    + discriminate.
Qed.

Lemma iter_shr_1_exact p m :
  0 <= m -> m mod 2 ^ Zpos p = 0 ->
  iter_pos shr_1 p {| shr_m := m; shr_r := false; shr_s := false |} =
  {| shr_m := m / 2 ^ Zpos p; shr_r := false; shr_s := false |}.
Proof.
  revert m. induction p as [p IH|p IH|]; intros m H E; cbn [iter_pos].
  - assert (P : 0 < 2 ^ Zpos p) by (apply pow2_pos; lia).
    assert (Q : 2 ^ Zpos p~1 = 2 * (2 ^ Zpos p * 2 ^ Zpos p)).
    { replace (Zpos p~1) with (1 + Zpos p + Zpos p) by lia.
      rewrite !Z.pow_add_r by lia. lia. }
    rewrite Q in E |- *.
    apply Z.mod_divide in E; [|lia]. destruct E as (k & ->).
    assert (0 <= k) by nia.
    rewrite shr_1_exact.
    + replace (k * (2 * (2 ^ Zpos p * 2 ^ Zpos p)) / 2)
        with (k * 2 ^ Zpos p * 2 ^ Zpos p)
        by (replace (k * (2 * (2 ^ Zpos p * 2 ^ Zpos p)))
              with (k * 2 ^ Zpos p * 2 ^ Zpos p * 2) by lia;
            rewrite Z.div_mul by lia; reflexivity).
      rewrite IH; [|nia|apply Z.mod_mul; lia].
      rewrite Z.div_mul by lia.
      rewrite IH; [|nia|apply Z.mod_mul; lia].
      rewrite Z.div_mul by lia.
      f_equal. rewrite Z.div_mul by lia. reflexivity.
    + nia.
    + replace (k * (2 * (2 ^ Zpos p * 2 ^ Zpos p)))
        with (k * 2 ^ Zpos p * 2 ^ Zpos p * 2) by lia.
      apply Z.mod_mul. lia.
  - assert (P : 0 < 2 ^ Zpos p) by (apply pow2_pos; lia).
    assert (Q : 2 ^ Zpos p~0 = 2 ^ Zpos p * 2 ^ Zpos p).
    { replace (Zpos p~0) with (Zpos p + Zpos p) by lia.
      rewrite !Z.pow_add_r by lia. lia. }
    rewrite Q in E |- *.
    apply Z.mod_divide in E; [|lia]. destruct E as (k & ->).
    assert (0 <= k) by nia.
    replace (k * (2 ^ Zpos p * 2 ^ Zpos p)) with (k * 2 ^ Zpos p * 2 ^ Zpos p) by lia.
    rewrite IH; [|nia|apply Z.mod_mul; lia].
    rewrite Z.div_mul by lia.
    rewrite IH; [|nia|apply Z.mod_mul; lia].
    rewrite Z.div_mul by lia.
    f_equal.
    replace (k * 2 ^ Zpos p * 2 ^ Zpos p) with (k * (2 ^ Zpos p * 2 ^ Zpos p)) by lia.
    rewrite Z.div_mul by lia. reflexivity.
  - change (2 ^ 1) with 2 in *. now apply shr_1_exact.
Qed.

(** Rounding a value that fits is the identity on it. *)
Lemma bra_exact sx mx ex :
  0 <= mx -> mx mod 2 ^ shift_amount mx ex = 0 ->
  binary_round_aux prec emax sx mx ex loc_Exact =
  let m1 := mx / 2 ^ shift_amount mx ex in
  let e1 := ex + shift_amount mx ex in
  classify sx (m1 / 2 ^ shift_amount m1 e1) (e1 + shift_amount m1 e1).
Proof.
  intros Hm E. cbv zeta. unfold binary_round_aux.
  assert (S1 : shr_fexp prec emax mx ex loc_Exact =
               ({| shr_m := mx / 2 ^ shift_amount mx ex; shr_r := false; shr_s := false |},
                ex + shift_amount mx ex)).
  { unfold shr_fexp, shr, shift_amount in *. cbn [shr_record_of_loc].
    destruct (fexp prec emax (Zdigits2 mx + ex) - ex) as [|p|p] eqn:D.
    - rewrite Z.max_l by lia. change (2 ^ 0) with 1. rewrite Z.div_1_r. f_equal. lia.
    - rewrite Z.max_r in * by lia. rewrite iter_shr_1_exact by assumption. reflexivity.
    - rewrite Z.max_l by lia. change (2 ^ 0) with 1. rewrite Z.div_1_r. f_equal. lia. }
  rewrite S1. cbn [shr_m loc_of_shr_record round_nearest_even].
  set (m1 := mx / 2 ^ shift_amount mx ex).
  assert (Hm1 : 0 <= m1) by (apply Z.div_pos; [lia | apply pow2_pos, shift_amount_nonneg]).
  destruct (shr_fexp_spec (ex + shift_amount mx ex) loc_Exact Hm1) as [F1 F2].
  destruct (shr_fexp prec emax m1 (ex + shift_amount mx ex) loc_Exact) as [mrs'' e''].
  cbn [fst snd] in F1, F2. fold (shift_amount m1 (ex + shift_amount mx ex)) in F1, F2.
  rewrite F1, F2. reflexivity.
Qed.


Lemma mul_one_l s m e :
  bounded prec emax m e = true ->
  SFmul prec emax (S754_finite false 4503599627370496 (-52)) (S754_finite s m e) =
  S754_finite s m e.
Proof.
  intros B. destruct (bounded_range _ _ B) as (Re & _ & _).
  apply bounded_spec in B. destruct B as [C _].
  unfold SFmul. cbn [xorb]. rewrite Pos2Z.inj_mul.
  change (Zpos 4503599627370496) with (2 ^ 52). rewrite (Z.mul_comm (2 ^ 52)).
  assert (D : Zdigits2 (Zpos m * 2 ^ 52) = Zpos (digits2_pos m) + 52)
    by (rewrite digits_shift by lia; reflexivity).
  assert (N1 : shift_amount (Zpos m * 2 ^ 52) (-52 + e) = 52).
  { unfold shift_amount. rewrite D.
    replace (Zpos (digits2_pos m) + 52 + (-52 + e)) with (Zpos (digits2_pos m) + e) by lia.
    rewrite C. lia. }
  rewrite bra_exact; [|lia|rewrite N1; apply Z.mod_mul; lia].
  cbv zeta. rewrite N1, Z.div_mul by lia.
  replace (-52 + e + 52) with e by lia.
  assert (N2 : shift_amount (Zpos m) e = 0).
  { unfold shift_amount. cbn [Zdigits2]. rewrite C. lia. }
  rewrite N2. change (2 ^ 0) with 1. rewrite Z.div_1_r, Z.add_0_r.
  unfold classify. change (emax - prec) with 971.
  destruct (Z.leb_spec e 971); [reflexivity | lia].
Qed.

Lemma sub_self s m e :
  SFsub prec emax (S754_finite s m e) (S754_finite s m e) = S754_zero false.
Proof.
  unfold SFsub. rewrite Z.sub_diag. reflexivity.
Qed.

(** A count between 1 and 2^63 converts to a value that is at least 1. *)
Lemma of_nat_shape n :
  (1 <= n)%nat -> Z.of_nat n < 2 ^ 63 ->
  Prim2SF (F.of_nat n) = S754_infinity false \/
  exists m e, Prim2SF (F.of_nat n) = S754_finite false m e /\
              (-52 < e \/ (e = -52 /\ 2 ^ 52 <= Zpos m)).
Proof.
  intros H1 H2. unfold F.of_nat. rewrite of_uint63_spec, Uint63.of_Z_spec.
  rewrite Z.mod_small by (change Uint63.wB with (2 ^ 63); lia).
  destruct (Z.of_nat n) as [|p|p] eqn:E; try lia.
  unfold binary_normalize, binary_round.
  set (fe := fexp prec emax (Zpos (digits2_pos p) + 0)).
  assert (Hfe : fe = Zpos (digits2_pos p) - 53).
  { unfold fe. rewrite fexp_eq. lia. }
  destruct (shl_align_spec p 0 fe) as [Ha Hb].
  destruct (shl_align p 0 fe) as [mz ez']. cbn [fst snd] in Ha, Hb.
  assert (Dz : Zdigits2 (Zpos mz) + ez' = Zpos (digits2_pos p)).
  { rewrite Hb, digits_shift by lia. cbn [Zdigits2]. lia. }
  assert (N1 : shift_amount (Zpos mz) ez' = fe - ez').
  { unfold shift_amount. rewrite Dz.
    replace (Zpos (digits2_pos p)) with (Zpos (digits2_pos p) + 0) by lia.
    fold fe. lia. }
  destruct (@bra_shape false (Zpos mz) ez' loc_Exact) as (m1r & B & ->); [lia|].
  rewrite N1 in *. replace (ez' + (fe - ez')) with fe by lia.
  assert (P1 : 0 < Zpos mz / 2 ^ (fe - ez')).
  { rewrite <- N1. apply shift_keeps_positive; lia. }
  assert (P2 : 0 < m1r / 2 ^ shift_amount m1r fe)
    by (apply shift_keeps_positive; lia).
  assert (N2 := shift_amount_nonneg m1r fe).
  destruct (@classify_nonneg false (m1r / 2 ^ shift_amount m1r fe) (fe + shift_amount m1r fe))
    as [(Z0 & _)|[(q & Eq & _ & Ec)|(_ & _ & Ec)]]; [lia|lia| |now left].
  right. exists q, (fe + shift_amount m1r fe). split; [exact Ec|].
  destruct (Z.eq_dec (fe + shift_amount m1r fe) (-52)) as [Q|Q]; [right|left; lia].
  split; [exact Q|].
  assert (fe = -52 /\ shift_amount m1r fe = 0) as [Q1 Q2] by lia.
  rewrite <- Eq, Q2. change (2 ^ 0) with 1. rewrite Z.div_1_r.
  assert (Dp : Zpos (digits2_pos p) = 1) by lia.
  assert (Hp : Zpos p = 1).
  { destruct (digits_pos_bounds p) as [_ Hi]. rewrite Dp in Hi.
    change (2 ^ 1) with 2 in Hi. lia. }
  assert (ez' = -52) by lia. subst ez'.
  rewrite Hp in Hb. rewrite Q1 in Hb, B.
  replace (0 - Z.min 0 (-52)) with 52 in Hb by lia.
  replace (-52 - -52) with 0 in B by lia.
  change (2 ^ 0) with 1 in B. rewrite Z.div_1_r in B. lia.
Qed.

(** The reciprocal of such a count is zero or finite. *)
Lemma inv_count_shape n :
  (1 <= n)%nat -> Z.of_nat n < 2 ^ 63 ->
  (exists b, Prim2SF (1 / F.of_nat n)%float = S754_zero b) \/
  (exists b m e, Prim2SF (1 / F.of_nat n)%float = S754_finite b m e).
Proof.
  intros H1 H2. rewrite div_spec, Prim2SF_one.
  assert (V := Prim2SF_valid (F.of_nat n)).
  destruct (of_nat_shape H1 H2) as [E|(m & e & E & R)]; rewrite E in *.
  - left. now exists false.
  - cbn [SpecFloat.valid_binary] in V.
    assert (B1 : bounded prec emax 4503599627370496 (-52) = true)
      by (vm_compute; reflexivity).
    unfold SF64div.
    assert (C : -52 < e \/ (-52 = e /\ 4503599627370496 < Zpos m) \/
                (e = -52 /\ m = 4503599627370496%positive)).
    { change (2 ^ 52) with 4503599627370496 in R.
      destruct R as [R|[R1 R2]]; [now left|].
      destruct (Pos.eq_dec m 4503599627370496) as [->|N]; [right; right; now split|].
      right; left. split; [lia|]. lia. }
    destruct C as [C|[C|[-> ->]]].
    + destruct (@div_lt_one 4503599627370496 (-52) m e B1 V) as [D|(p' & e' & D & _)];
        [now left| |]; cbv zeta in D; rewrite D; [left; now exists false|].
      right. now exists false, p', e'.
    + destruct (@div_lt_one 4503599627370496 (-52) m e B1 V) as [D|(p' & e' & D & _)];
        [now right| |]; cbv zeta in D; rewrite D; [left; now exists false|].
      right. now exists false, p', e'.
    + rewrite div_self. right. now exists false, 4503599627370496%positive, (-52).
Qed.

End Exact.

(* ================================================================== *)
(** * A constant column under Welford's recurrence *)
(* ================================================================== *)

Module Constant.

Import Pandas FloatFacts RoundingVocabulary WelfordVocabulary Rounding Ratio ZScore Exact.
Local Open Scope float_scope.

Lemma xpart_step w vx vy :
  xpart (welford_step w (vx, vy)) =
  if F.isfinite vx && F.isfinite vy then part_step (xpart w) vx else xpart w.
Proof.
  rewrite Binary64.welford_step_eq.
  destruct (F.isfinite vx && F.isfinite vy); reflexivity.
Qed.

Lemma ypart_step w vx vy :
  ypart (welford_step w (vx, vy)) =
  if F.isfinite vx && F.isfinite vy then part_step (ypart w) vy else ypart w.
Proof.
  rewrite Binary64.welford_step_eq.
  destruct (F.isfinite vx && F.isfinite vy); reflexivity.
Qed.

Lemma Prim2SF_infinity : Prim2SF infinity = S754_infinity false.
Proof. vm_compute. reflexivity. Qed.

Lemma isfinite_shape v :
  F.isfinite v = true ->
  is_zero v \/ exists s m e, Prim2SF v = S754_finite s m e.
Proof.
  unfold F.isfinite, PrimFloat.is_infinity. rewrite andb_true_iff, !negb_true_iff.
  intros [N I]. apply is_nan_false in N.
  rewrite eqb_spec, abs_spec, Prim2SF_infinity in I.
  destruct (Prim2SF v) as [b|b| |s m e] eqn:E.
  - left. now exists b.
  - discriminate.
  - congruence.
  - right. now exists s, m, e.
Qed.

Lemma near_sub v m :
  F.isfinite v = true -> near v m -> is_zero (v - m).
Proof.
  intros F N. unfold is_zero. rewrite sub_spec. unfold SF64sub.
  destruct N as [E|[(b & Ev) (c & Em)]].
  - rewrite E. destruct (isfinite_shape _ F) as [(b & ->)|(s & mv & e & ->)].
    + destruct b; now eexists.
    + rewrite sub_self. now eexists.
  - rewrite Ev, Em. destruct b, c; now eexists.
Qed.

Lemma first_deviation v m :
  F.isfinite v = true -> Prim2SF m = S754_zero false -> near v (v - m).
Proof.
  intros F E. unfold near, is_zero. rewrite sub_spec, E. unfold SF64sub.
  destruct (isfinite_shape _ F) as [(b & Ev)|(s & mv & e & Ev)]; rewrite Ev.
  - right. split; [now exists b|]. destruct b; now eexists.
  - left. reflexivity.
Qed.

Lemma one_times v d :
  F.isfinite v = true -> near v d ->
  Prim2SF (1 / F.of_nat 1) = S754_finite false 4503599627370496 (-52) ->
  near v (1 / F.of_nat 1 * d).
Proof.
  intros F N One. unfold near, is_zero in *. rewrite mul_spec, One. unfold SF64mul.
  destruct N as [E|[(b & Ev) (c & Em)]].
  - rewrite E. destruct (isfinite_shape _ F) as [(b & Ev)|(s & mv & e & Ev)]; rewrite Ev.
    + right. split; now eexists.
    + left. apply mul_one_l. exact (Prim2SF_bounded _ Ev).
  - rewrite Em. right. split; [now exists b | now eexists].
Qed.

Lemma inv_one : Prim2SF (1 / F.of_nat 1) = S754_finite false 4503599627370496 (-52).
Proof. vm_compute. reflexivity. Qed.

Lemma zero_plus_near v m x :
  F.isfinite v = true -> Prim2SF m = S754_zero false -> near v x -> near v (m + x).
Proof.
  intros F E N. unfold near, is_zero in *. rewrite add_spec, E. unfold SF64add.
  destruct N as [Ex|[(b & Ev) (c & Ex)]].
  - rewrite Ex. destruct (isfinite_shape _ F) as [(b & Ev)|(s & mv & e & Ev)]; rewrite Ev.
    + right. split; [now eexists|]. destruct b; now eexists.
    + left. reflexivity.
  - rewrite Ex. right. split; [now exists b|]. destruct c; now eexists.
Qed.

Lemma scaled_zero c d :
  (is_zero c \/ exists b m e, Prim2SF c = S754_finite b m e) ->
  is_zero d -> is_zero (c * d).
Proof.
  intros C (b & D). unfold is_zero. rewrite mul_spec, D. unfold SF64mul.
  destruct C as [(s & ->)|(s & m & e & ->)]; now eexists.
Qed.

Lemma near_plus_zero v m z :
  F.isfinite v = true -> near v m -> is_zero z -> near v (m + z).
Proof.
  intros F N (b & Z). unfold near, is_zero in *. rewrite add_spec, Z. unfold SF64add.
  destruct N as [E|[(c & Ev) (k & Em)]].
  - rewrite E. destruct (isfinite_shape _ F) as [(c & Ev)|(s & mv & e & Ev)]; rewrite Ev.
    + right. split; [now eexists|]. destruct c, b; now eexists.
    + left. reflexivity.
  - rewrite Em. right. split; [now exists c|]. destruct k, b; now eexists.
Qed.

Lemma zero_times a d v :
  F.isfinite v = true -> is_zero a -> near v d \/ is_zero d -> is_zero (a * d).
Proof.
  intros F (b & A) D. unfold is_zero. rewrite mul_spec, A. unfold SF64mul.
  assert (S : is_zero d \/ exists s m e, Prim2SF d = S754_finite s m e).
  { destruct D as [[E|[_ Z]]|Z]; auto. unfold is_zero. rewrite E.
    exact (isfinite_shape _ F). }
  destruct S as [(c & ->)|(s & m & e & ->)]; now eexists.
Qed.

Lemma zero_plus_zero s t : is_zero s -> is_zero t -> is_zero (s + t).
Proof.
  intros (b & S) (c & T). unfold is_zero. rewrite add_spec, S, T. unfold SF64add.
  destruct b, c; now eexists.
Qed.

Lemma part_step_settled v st :
  F.isfinite v = true -> (Z.of_nat (S (fst (fst st))) < 2 ^ 63)%Z ->
  settled v st -> settled v (part_step st v).
Proof.
  destruct st as [[n m] s]. cbn [fst]. intros F B (Zs & H). cbn [part_step settled].
  assert (M : near v (m + 1 / F.of_nat (S n) * (v - m)) /\
              (near v (v - m) \/ is_zero (v - m))).
  { destruct H as [(-> & E)|(L & N)].
    - split.
      + apply zero_plus_near; auto. apply one_times; auto using inv_one, first_deviation.
      + left. now apply first_deviation.
    - assert (D := near_sub F N). split; [|now right].
      apply near_plus_zero; auto. apply scaled_zero; auto.
      destruct (@inv_count_shape (S n)) as [I|I]; auto; lia. }
  destruct M as (M & D). split.
  - apply zero_plus_zero; [exact Zs|].
    apply zero_times with v; auto. now apply near_sub.
  - right. split; [lia | exact M].
Qed.

Lemma is_zero_eqb x : is_zero x -> (x =? 0) = true.
Proof.
  intros (b & E). rewrite eqb_spec, E, Prim2SF_zero. reflexivity.
Qed.


Lemma welford_step_nobs w p : (nobs (welford_step w p) <= S (nobs w))%nat.
Proof.
  destruct p as [vx vy]. rewrite Binary64.welford_step_eq.
  destruct (F.isfinite vx && F.isfinite vy); simpl; lia.
Qed.

Lemma run_settled (part : welford -> nat * float * float)
      (pick : float * float -> float) v rows :
  (forall w vx vy,
      part (welford_step w (vx, vy)) =
      if F.isfinite vx && F.isfinite vy then part_step (part w) (pick (vx, vy))
      else part w) ->
  (forall w, fst (fst (part w)) = nobs w) ->
  (forall p, In p rows -> F.isfinite (fst p) && F.isfinite (snd p) = true ->
             pick p = v /\ F.isfinite (pick p) = true) ->
  forall w,
    (Z.of_nat (nobs w + List.length rows) < 2 ^ 63)%Z ->
    settled v (part w) -> settled v (part (fold_left welford_step rows w)).
Proof.
  intros Hstep Hn. induction rows as [|[vx vy] rows IH]; intros Hp w B S.
  - exact S.
  - cbn [fold_left]. apply IH.
    + intros p Hin. apply Hp. now right.
    + assert (K := welford_step_nobs w (vx, vy)). cbn [List.length] in B. lia.
    + rewrite Hstep.
      destruct (F.isfinite vx && F.isfinite vy) eqn:J; [|exact S].
      destruct (Hp (vx, vy) (or_introl eq_refl) J) as [-> F].
      apply part_step_settled; [| |exact S].
      * destruct (Hp (vx, vy) (or_introl eq_refl) J) as [E F']. now rewrite E in F'.
      * rewrite Hn. cbn [List.length] in B. lia.
Qed.

Lemma settled_start v : settled v (0%nat, 0, 0).
Proof.
  cbn [settled]. split; [exists false; apply Prim2SF_zero|].
  left. split; [reflexivity | apply Prim2SF_zero].
Qed.

Lemma in_jointly_present xs ys p :
  In p (jointly_present xs ys) <->
  In p (combine xs ys) /\ F.isfinite (fst p) && F.isfinite (snd p) = true.
Proof. unfold jointly_present. apply filter_In. Qed.

(** A column that is constant over the rows taken into account has a
    zero sum of squared deviations. *)
Lemma constant_x_zero_variance xs ys :
  (Z.of_nat (List.length (combine xs ys)) < 2 ^ 63)%Z ->
  constant (map fst (jointly_present xs ys)) ->
  (ssqdm_x (welford_run xs ys) =? 0) = true.
Proof.
  intros B (v & C). apply is_zero_eqb.
  assert (S : settled v (xpart (welford_run xs ys))).
  { unfold welford_run. apply run_settled with (pick := fst).
    - intros w vx vy. apply xpart_step.
    - reflexivity.
    - intros p Hin J. cbn [fst].
      assert (E : fst p = v).
      { apply C. apply in_map. apply in_jointly_present. now split. }
      split; [exact E|]. apply andb_true_iff in J. tauto.
    - exact B.
    - apply settled_start. }
  exact (proj1 S).
Qed.

Lemma constant_y_zero_variance xs ys :
  (Z.of_nat (List.length (combine xs ys)) < 2 ^ 63)%Z ->
  constant (map snd (jointly_present xs ys)) ->
  (ssqdm_y (welford_run xs ys) =? 0) = true.
Proof.
  intros B (v & C). apply is_zero_eqb.
  assert (S : settled v (ypart (welford_run xs ys))).
  { unfold welford_run. apply run_settled with (pick := snd).
    - intros w vx vy. apply ypart_step.
    - reflexivity.
    - intros p Hin J. cbn [snd].
      assert (E : snd p = v).
      { apply C. apply in_map. apply in_jointly_present. now split. }
      split; [exact E|]. apply andb_true_iff in J. tauto.
    - exact B.
    - apply settled_start. }
  exact (proj1 S).
Qed.

End Constant.

(* ================================================================== *)
(** * Degenerate numeric pairs *)
(* ================================================================== *)

Module Degenerate.

Import Pandas CSVAnalyzer FloatFacts RoundingVocabulary Rounding Ratio.
Import SortFacts Discovery Strengths Groups ZScore WelfordVocabulary Constant.
Local Open Scope string_scope.
Local Open Scope float_scope.

Lemma mul_zero_l b y :
  SF64mul (S754_zero b) y = S754_nan \/ exists c, SF64mul (S754_zero b) y = S754_zero c.
Proof.
  unfold SF64mul, SFmul. destruct y as [c|c| |c m e]; eauto.
Qed.

Lemma mul_zero_r x b :
  SF64mul x (S754_zero b) = S754_nan \/ exists c, SF64mul x (S754_zero b) = S754_zero c.
Proof.
  unfold SF64mul, SFmul. destruct x as [c|c| |c m e]; eauto.
Qed.

(** A zero or NaN divisor: the coefficient is NaN. *)
Lemma welford_coeff_degenerate w :
  (ssqdm_x w =? 0) = true \/ (ssqdm_y w =? 0) = true ->
  F.is_nan (welford_coeff w) = true.
Proof.
  intros H. unfold welford_coeff.
  destruct (nobs w <? 1)%nat; [apply nan_is_nan|].
  assert (D : Prim2SF (sqrt (ssqdm_x w * ssqdm_y w)) = S754_nan \/
              exists c, Prim2SF (sqrt (ssqdm_x w * ssqdm_y w)) = S754_zero c).
  { rewrite sqrt_spec, mul_spec.
    assert (M : SF64mul (Prim2SF (ssqdm_x w)) (Prim2SF (ssqdm_y w)) = S754_nan \/
                exists c, SF64mul (Prim2SF (ssqdm_x w)) (Prim2SF (ssqdm_y w)) = S754_zero c).
    { destruct H as [H|H]; apply eqb_zero in H; destruct H as (b & ->).
      - apply mul_zero_l.
      - apply mul_zero_r. }
    destruct M as [->|(c & ->)]; [now left|right]. now exists c. }
  unfold F.neqb. rewrite eqb_spec, Prim2SF_zero.
  destruct D as [D|(c & D)]; rewrite D; simpl.
  - (* the divisor is NaN: so is the quotient, and no clipping applies *)
    assert (Q : Prim2SF (covxy w / sqrt (ssqdm_x w * ssqdm_y w)) = S754_nan).
    { rewrite div_spec, D. unfold SF64div, SFdiv. now destruct (Prim2SF (covxy w)). }
    unfold F.gtb. rewrite !ltb_spec, Q.
    assert (L : forall y, SFltb y S754_nan = false) by (intros []; reflexivity).
    rewrite L. simpl. now apply is_nan_spec.
  - apply nan_is_nan.
Qed.

Lemma nan_above_nothing x t : F.is_nan x = true -> F.gtb (abs x) t = false.
Proof.
  intros H. destruct (F.gtb (abs x) t) eqn:G; [|reflexivity].
  unfold F.gtb in G. apply ltb_not_nan in G. rewrite abs_is_nan in G.
  destruct G; congruence.
Qed.

(** C3.  When, over the rows where both columns are present, one of
    the two columns has zero variance (its sum of squared deviations
    from the running mean is 0; in particular when the column is
    constant over those rows, the frame having fewer than 2^63 rows,
    the range of the observation counter), the coefficient is undefined
    (NaN) and [find_connections] returns no correlation connection for
    the pair.  The undefined coefficient goes nowhere: the strength of
    every returned connection, and the value of every returned
    correlation, is a number (not NaN). *)
Theorem zero_variance_pair_skipped (df : DataFrame) (col1 col2 : string) :
  let a := load_data df in
  let xs := numeric_values df col2 in
  let ys := numeric_values df col1 in
  let w := welford_run xs ys in
  (ssqdm_x w =? 0) = true \/ (ssqdm_y w =? 0) = true \/
  ((Z.of_nat (List.length (combine xs ys)) < 2 ^ 63)%Z /\
   (constant (map fst (jointly_present xs ys)) \/
    constant (map snd (jointly_present xs ys)))) ->
  F.is_nan (corr_loc a col1 col2) = true /\
  (forall s d x, ~ In (correlation col1 col2 s d x) (find_connections a)) /\
  (forall c, In c (find_connections a) -> F.is_nan (strength_of c) = false) /\
  (forall c1 c2 s d x,
      In (correlation c1 c2 s d x) (find_connections a) -> F.is_nan x = false).
Proof.
  intros a xs ys w H0.
  assert (H : (ssqdm_x w =? 0) = true \/ (ssqdm_y w =? 0) = true).
  { destruct H0 as [H|[H|(B & [C|C])]]; auto.
    - left. now apply constant_x_zero_variance.
    - right. now apply constant_y_zero_variance. }
  assert (N : F.is_nan (corr_loc a col1 col2) = true)
    by (apply welford_coeff_degenerate; exact H).
  split; [exact N|]. split; [|split].
  - intros s d x K.
    apply in_find_connections, in_discovered_correlation, in_numeric_pairs in K.
    destruct K as (c1 & c2 & _ & K).
    apply in_correlation_of in K. destruct K as (T & E).
    injection E as -> -> _ _ _.
    rewrite (@nan_above_nothing _ 0.3 N) in T. discriminate.
  - intros c K. apply in_find_connections in K.
    now apply discovered_strength_not_nan in K.
  - intros c1 c2 s d x K.
    apply in_find_connections, in_discovered_correlation, in_numeric_pairs in K.
    destruct K as (k1 & k2 & _ & K).
    apply in_correlation_of in K. destruct K as (T & E).
    injection E as _ _ _ _ ->.
    exact (proj2 (correlation_strength_not_nan T)).
Qed.

Lemma zero_variance_pair_skipped_witness :
  F.is_nan (corr_loc (load_data Samples.degenerate_frame) "n" "c") = true /\
  (forall s d x,
      ~ In (correlation "n" "c" s d x)
           (find_connections (load_data Samples.degenerate_frame))).
Proof.
  destruct (@zero_variance_pair_skipped Samples.degenerate_frame "n" "c")
    as (N & K & _).
  - right. right. split; [vm_compute; reflexivity|].
    left. exists 5. intros x H. vm_compute in H. intuition congruence.
  - split; [exact N | exact K].
Defined.

End Degenerate.

(* ================================================================== *)
(** * Columns by kind *)
(* ================================================================== *)

Section SubseqFacts.

Context {A B : Type}.

Lemma subseq_map (f : A -> B) (s l : list A) :
  subseq s l -> subseq (map f s) (map f l).
Proof. induction 1; simpl; now constructor. Qed.

Lemma subseq_app (s1 l1 s2 l2 : list A) :
  subseq s1 l1 -> subseq s2 l2 -> subseq (s1 ++ s2) (l1 ++ l2).
Proof.
  induction 1; simpl; intros H2; auto; constructor; now apply IHsubseq.
Qed.

Lemma subseq_NoDup (s l : list A) : subseq s l -> NoDup l -> NoDup s.
Proof.
  induction 1 as [|x s l H IH|x s l H IH]; intros N.
  - constructor.
  - inversion N; subst. auto.
  - inversion N; subst. constructor; [|auto].
    intros K. apply H2. exact (@subseq_In _ _ _ _ H K).
Qed.

Lemma subseq_nil_l (l : list A) : subseq [] l.
Proof. induction l; now constructor. Qed.

End SubseqFacts.

Module Classification.

Import Pandas CSVAnalyzer Frames.

Lemma select_dtypes_subseq keep df : subseq (select_dtypes keep df) (map fst df).
Proof. unfold select_dtypes. apply subseq_map, subseq_filter. Qed.

Lemma NoDup_fst_functional {A B} (l : list (A * B)) k v w :
  NoDup (map fst l) -> In (k, v) l -> In (k, w) l -> v = w.
Proof.
  induction l as [|[k' v'] l IH]; simpl; intros N H1 H2; [contradiction|].
  inversion N; subst.
  destruct H1 as [E1|H1], H2 as [E2|H2].
  - congruence.
  - injection E1 as -> ->. exfalso. apply H3. apply in_map_iff. now exists (k, w).
  - injection E2 as -> ->. exfalso. apply H3. apply in_map_iff. now exists (k, v).
  - auto.
Qed.

Lemma kinds_disjoint df name :
  NoDup (map fst df) ->
  In name (numeric_columns (load_data df)) ->
  In name (categorical_columns (load_data df)) -> False.
Proof.
  intros N H1 H2. apply in_numeric_columns in H1. apply in_categorical_columns in H2.
  destruct H1 as (v & H1), H2 as (l & H2).
  assert (E := @NoDup_fst_functional _ _ df name _ _ N H1 H2). discriminate.
Qed.

(** X1.  [load_data] lists the numeric columns and the [object] columns
    in the order of the frame; with column names that are all different
    (as [read_csv] makes them) neither list repeats a name and no name is
    in both. *)
Theorem load_data_classification (df : DataFrame) :
  NoDup (map fst df) ->
  let a := load_data df in
  subseq (numeric_columns a) (map fst df) /\
  subseq (categorical_columns a) (map fst df) /\
  NoDup (numeric_columns a) /\
  NoDup (categorical_columns a) /\
  (forall name, In name (numeric_columns a) -> ~ In name (categorical_columns a)) /\
  (forall name,
      In name (map fst df) ->
      ~ In name (numeric_columns a) -> ~ In name (categorical_columns a) ->
      exists size, In (name, OtherCol size) df).
Proof.
  intros N a.
  assert (S1 := select_dtypes_subseq is_numeric df).
  assert (S2 := select_dtypes_subseq is_object df).
  repeat split; auto.
  - exact (subseq_NoDup S1 N).
  - exact (subseq_NoDup S2 N).
  - intros name H1 H2. exact (@kinds_disjoint df name N H1 H2).
  - intros name H K1 K2. apply in_map_iff in H. destruct H as ([n c] & E & H).
    simpl in E. subst n. destruct c as [v|l|size].
    + exfalso. apply K1. apply in_numeric_columns. now exists v.
    + exfalso. apply K2. apply in_categorical_columns. now exists l.
    + now exists size.
Qed.

Lemma load_data_classification_witness :
  NoDup (numeric_columns (load_data Samples.sample_frame)).
Proof.
  apply (@load_data_classification Samples.sample_frame).
  repeat constructor; simpl; intuition discriminate.
Defined.

End Classification.

(* ================================================================== *)
(** * The pairs of columns visited *)
(* ================================================================== *)

Module Pairs.

Import Pandas CSVAnalyzer Frames SortFacts Discovery ConnectionVocabulary Classification.
Local Open Scope string_scope.

Lemma in_ordered_pairs {A} (l : list A) x y :
  In (x, y) (ordered_pairs l) <-> before x y l.
Proof.
  induction l as [|z rest IH]; simpl.
  - split; [intros [] | intros (l1 & l2 & l3 & E)]. destruct l1; discriminate.
  - rewrite in_app_iff, in_map_iff, IH. split.
    + intros [(y' & E & H)|(l1 & l2 & l3 & E)].
      * injection E as -> ->. apply in_split in H. destruct H as (l2 & l3 & ->).
        now exists [], l2, l3.
      * exists (z :: l1), l2, l3. now rewrite E.
    + intros (l1 & l2 & l3 & E). destruct l1 as [|w l1]; simpl in E; injection E as -> ->.
      * left. exists y. split; [reflexivity|]. apply in_or_app. right. now left.
      * right. now exists l1, l2, l3.
Qed.

Lemma before_In {A} (x y : A) l : before x y l -> In x l /\ In y l.
Proof.
  intros (l1 & l2 & l3 & ->). split.
  - apply in_or_app. right. now left.
  - apply in_or_app. right. right. apply in_or_app. right. now left.
Qed.

Lemma before_tail {A} (x y z : A) l :
  before x y (z :: l) -> (x = z /\ In y l) \/ before x y l.
Proof.
  intros (l1 & l2 & l3 & E). destruct l1 as [|w l1]; simpl in E; injection E as -> ->.
  - left. split; [reflexivity|]. apply in_or_app. right. now left.
  - right. now exists l1, l2, l3.
Qed.

Lemma NoDup_before_irrefl {A} (x : A) l : NoDup l -> ~ before x x l.
Proof.
  induction 1 as [|z l N1 N2 IH]; intros H.
  - destruct H as (l1 & l2 & l3 & E). destruct l1; discriminate.
  - apply before_tail in H. destruct H as [[-> H]|H]; [contradiction|auto].
Qed.

Lemma NoDup_before_asym {A} (x y : A) l : NoDup l -> before x y l -> ~ before y x l.
Proof.
  induction 1 as [|z l N1 N2 IH]; intros H K.
  - destruct H as (l1 & l2 & l3 & E). destruct l1; discriminate.
  - apply before_tail in H. apply before_tail in K.
    destruct H as [[-> H]|H], K as [[-> K]|K].
    + contradiction.
    + apply before_In in K. tauto.
    + apply before_In in H. tauto.
    + now apply IH.
Qed.

Lemma NoDup_map_pair {A B} (x : A) (l : list B) :
  NoDup l -> NoDup (map (pair x) l).
Proof.
  induction 1 as [|y l N1 N2 IH]; simpl; constructor; [|exact IH].
  intros H. apply in_map_iff in H. destruct H as (w & E & H).
  injection E as ->. contradiction.
Qed.

Lemma NoDup_ordered_pairs {A} (l : list A) : NoDup l -> NoDup (ordered_pairs l).
Proof.
  induction 1 as [|z l N1 N2 IH]; simpl; [constructor|].
  apply NoDup_app.
  - now apply NoDup_map_pair.
  - exact IH.
  - intros [u v] H K. apply in_map_iff in H. destruct H as (w & E & H).
    injection E as <- <-. apply in_ordered_pairs, before_In in K. tauto.
Qed.

Lemma correlation_of_endpoints a x y :
  subseq (map endpoints (correlation_of a x y)) [(x, y)].
Proof.
  unfold correlation_of.
  destruct (F.gtb _ _); simpl; [apply subseq_refl | apply subseq_nil_l].
Qed.

Lemma numeric_pairs_endpoints a cols :
  subseq (map endpoints (numeric_pairs a cols)) (ordered_pairs cols).
Proof.
  induction cols as [|x rest IH]; simpl; [constructor|].
  rewrite map_app. apply subseq_app; [|exact IH].
  clear IH. induction rest as [|y rest IH]; simpl; [constructor|].
  rewrite map_app.
  apply (@subseq_app _ _ [(x, y)] _ (map (pair x) rest)); [|exact IH].
  apply correlation_of_endpoints.
Qed.

Lemma influence_of_endpoints a k n :
  subseq (map endpoints (influence_of a k n)) [(k, n)].
Proof.
  unfold influence_of. destruct (_ <? _)%nat; [|apply subseq_nil_l].
  cbv zeta. destruct (F.gtb _ _); simpl; [apply subseq_refl | apply subseq_nil_l].
Qed.

Lemma influences_endpoints a :
  subseq (map endpoints (influences a))
         (list_prod (categorical_columns a) (numeric_columns a)).
Proof.
  unfold influences.
  induction (categorical_columns a) as [|k cats IH]; simpl; [constructor|].
  rewrite map_app. apply subseq_app; [|exact IH].
  clear IH. induction (numeric_columns a) as [|n nums IH]; simpl; [constructor|].
  rewrite map_app.
  apply (@subseq_app _ _ [(k, n)] _ (map (fun y => (k, y)) nums)); [|exact IH].
  apply influence_of_endpoints.
Qed.

Lemma NoDup_list_prod {A B} (l : list A) (r : list B) :
  NoDup l -> NoDup r -> NoDup (list_prod l r).
Proof.
  intros Nl Nr. induction Nl as [|x l N1 N2 IH]; simpl; [constructor|].
  apply NoDup_app.
  - now apply NoDup_map_pair.
  - exact IH.
  - intros [u v] H K. apply in_map_iff in H. destruct H as (w & E & H).
    injection E as <- <-. apply in_prod_iff in K. tauto.
Qed.

(** The pairs the two loops of [find_connections] visit. *)
Lemma discovered_endpoints a :
  subseq (map endpoints (discovered a))
         (ordered_pairs (numeric_columns a) ++
          list_prod (categorical_columns a) (numeric_columns a)).
Proof.
  unfold discovered. rewrite map_app, correlations_pairs.
  apply subseq_app; [apply numeric_pairs_endpoints | apply influences_endpoints].
Qed.

Lemma visited_pairs df x y :
  let a := load_data df in
  In (x, y) (ordered_pairs (numeric_columns a) ++
             list_prod (categorical_columns a) (numeric_columns a)) ->
  (before x y (numeric_columns a) \/ In x (categorical_columns a)) /\
  In y (numeric_columns a).
Proof.
  intros a H. apply in_app_iff in H. destruct H as [H|H].
  - apply in_ordered_pairs in H. split; [now left|]. now apply before_In in H.
  - apply in_prod_iff in H. tauto.
Qed.

Lemma NoDup_visited df :
  NoDup (map fst df) ->
  let a := load_data df in
  NoDup (ordered_pairs (numeric_columns a) ++
         list_prod (categorical_columns a) (numeric_columns a)).
Proof.
  intros N a.
  assert (N1 : NoDup (numeric_columns a))
    by exact (subseq_NoDup (select_dtypes_subseq is_numeric df) N).
  assert (N2 : NoDup (categorical_columns a))
    by exact (subseq_NoDup (select_dtypes_subseq is_object df) N).
  apply NoDup_app.
  - now apply NoDup_ordered_pairs.
  - now apply NoDup_list_prod.
  - intros [x y] H K. apply in_ordered_pairs, before_In in H.
    apply in_prod_iff in K. apply (@kinds_disjoint df x N); tauto.
Qed.

End Pairs.

Module Visits.

Import Pandas CSVAnalyzer Frames SortFacts Discovery ConnectionVocabulary Classification Pairs.
Local Open Scope string_scope.
Local Open Scope float_scope.

Lemma find_connections_endpoints a :
  Permutation (map endpoints (find_connections a)) (map endpoints (discovered a)).
Proof. apply Permutation_map, sorted_by_strength_perm. Qed.

(** X4.  With column names that are all different, the connections
    [find_connections] returns join pairwise different pairs of
    columns: a correlation joins two numeric columns, the one that
    comes first in the frame first; an influence joins an [object]
    column to a numeric one; no connection joins a column to itself,
    and no two connections join the same two columns, in either
    order. *)
Theorem connections_join_distinct_pairs (df : DataFrame) :
  NoDup (map fst df) ->
  let a := load_data df in
  (forall c, In c (find_connections a) ->
     match c with
     | correlation col1 col2 _ _ _ => before col1 col2 (numeric_columns a)
     | categorical_influence cat_col num_col _ _ =>
         In cat_col (categorical_columns a) /\ In num_col (numeric_columns a)
     end) /\
  (forall c, In c (find_connections a) -> fst (endpoints c) <> snd (endpoints c)) /\
  NoDup (map endpoints (find_connections a)) /\
  (forall c1 c2, In c1 (find_connections a) -> In c2 (find_connections a) ->
     endpoints c1 <> (snd (endpoints c2), fst (endpoints c2))).
Proof.
  intros N a.
  assert (N1 : NoDup (numeric_columns a))
    by exact (subseq_NoDup (select_dtypes_subseq is_numeric df) N).
  assert (V : forall c, In c (find_connections a) ->
              (before (fst (endpoints c)) (snd (endpoints c)) (numeric_columns a) \/
               In (fst (endpoints c)) (categorical_columns a)) /\
              In (snd (endpoints c)) (numeric_columns a)).
  { intros c H. apply (@visited_pairs df).
    rewrite <- surjective_pairing.
    apply (@subseq_In _ _ _ _ (discovered_endpoints a)).
    apply in_map. now apply in_find_connections. }
  assert (K : forall x, In x (numeric_columns a) -> In x (categorical_columns a) -> False)
    by (intros x; apply (@kinds_disjoint df x N)).
  split; [|split; [|split]].
  - intros c H. apply in_find_connections in H. destruct c as [c1 c2 s d x|k n s g].
    + apply in_discovered_correlation, in_numeric_pairs in H.
      destruct H as (u & v & B & H). apply in_correlation_of in H.
      destruct H as (_ & E). injection E as -> -> _ _ _. exact B.
    + apply in_discovered_influence, in_influences in H.
      destruct H as (u & v & Hu & Hv & H). apply in_influence_of in H.
      destruct H as (_ & _ & E). injection E as -> -> _ _. now split.
  - intros c H E. destruct (V c H) as [[B|C] M]; rewrite E in *.
    + exact (NoDup_before_irrefl N1 B).
    + exact (K _ M C).
  - eapply Permutation_NoDup; [apply Permutation_sym, find_connections_endpoints|].
    exact (subseq_NoDup (discovered_endpoints a) (@NoDup_visited df N)).
  - intros c1 c2 H1 H2 E.
    destruct (V c1 H1) as [[B1|C1] M1], (V c2 H2) as [[B2|C2] M2];
      rewrite E in *; cbn [fst snd] in *.
    + exact (NoDup_before_asym N1 B2 B1).
    + exact (K _ M1 C2).
    + exact (K _ M2 C1).
    + exact (K _ M2 C1).
Qed.

Lemma connections_join_distinct_pairs_witness :
  NoDup (map endpoints (find_connections (load_data Samples.sample_frame))).
Proof.
  apply (@connections_join_distinct_pairs Samples.sample_frame).
  repeat constructor; simpl; intuition discriminate.
Defined.

(** X3.  A frame with fewer than two numeric columns has no correlation
    among its connections, only influences on its one numeric column;
    a frame with no numeric column has no connection at all. *)
Theorem few_numeric_columns (df : DataFrame) :
  (List.length (numeric_columns (load_data df)) < 2)%nat ->
  let a := load_data df in
  (forall c, In c (find_connections a) ->
     exists cat_col num_col s g,
       c = categorical_influence cat_col num_col s g /\
       numeric_columns a = [num_col]) /\
  (numeric_columns a = [] -> find_connections a = []).
Proof.
  intros L a. fold a in L. split.
  - intros c H. apply in_find_connections in H. unfold discovered in H.
    apply in_app_iff in H. destruct H as [H|H].
    + rewrite correlations_pairs in H. apply in_numeric_pairs in H.
      destruct H as (u & v & (l1 & l2 & l3 & E) & _). rewrite E in L.
      rewrite !length_app in L. simpl in L. rewrite length_app in L. simpl in L. lia.
    + apply in_influences in H. destruct H as (k & n & _ & Hn & H).
      apply in_influence_of in H. destruct H as (_ & _ & ->).
      exists k, n. do 2 eexists. split; [reflexivity|].
      destruct (numeric_columns a) as [|x [|y r]]; simpl in *; try lia; try tauto.
      destruct Hn as [->|[]]. reflexivity.
  - intros E. unfold find_connections, discovered.
    rewrite correlations_pairs, E.
    assert (I : influences a = []).
    { unfold influences. rewrite E.
      induction (categorical_columns a) as [|k r IH]; simpl; [reflexivity | exact IH]. }
    rewrite I. reflexivity.
Qed.

Lemma few_numeric_columns_witness :
  find_connections (load_data [("k", ObjectCol [Some "A"; Some "B"; None])]) = [].
Proof.
  apply (@few_numeric_columns [("k", ObjectCol [Some "A"; Some "B"; None])]).
  - simpl. lia.
  - reflexivity.
Defined.

End Visits.

(* ================================================================== *)
(** * Ranges of strengths and values *)
(* ================================================================== *)

Module Ranges.

Import Pandas CSVAnalyzer FloatFacts RoundingVocabulary Rounding Ratio SortFacts
       Discovery Strengths.
Local Open Scope float_scope.

Lemma Prim2SF_minus_one : Prim2SF (-1) = S754_finite true 4503599627370496 (-52).
Proof. vm_compute. reflexivity. Qed.

Lemma Prim2SF_three_tenths :
  Prim2SF 0.3 = S754_finite false 5404319552844595 (-54).
Proof. vm_compute. reflexivity. Qed.

Lemma Prim2SF_minus_three_tenths :
  Prim2SF (-0.3) = S754_finite true 5404319552844595 (-54).
Proof. vm_compute. reflexivity. Qed.

Lemma Prim2SF_fifth : Prim2SF 0.2 = S754_finite false 7205759403792794 (-55).
Proof. vm_compute. reflexivity. Qed.

(** [nancorr] clips what it returns. *)
Lemma welford_coeff_range w :
  F.is_nan (welford_coeff w) = false ->
  (-1 <=? welford_coeff w) = true /\ (welford_coeff w <=? 1) = true.
Proof.
  unfold welford_coeff.
  destruct (nobs w <? 1)%nat; [discriminate|].
  destruct (F.neqb _ 0); [|discriminate].
  set (val := covxy w / sqrt (ssqdm_x w * ssqdm_y w)).
  unfold F.gtb.
  destruct (1 <? val) eqn:A.
  - intros _. split; vm_compute; reflexivity.
  - destruct (val <? -1) eqn:B.
    + intros _. split; vm_compute; reflexivity.
    + intros N. split; apply ltb_false_leb; auto.
Qed.

Lemma abs_le_one x :
  (-1 <=? x) = true -> (x <=? 1) = true -> (abs x <=? 1) = true.
Proof.
  rewrite !leb_spec, abs_spec, Prim2SF_minus_one, Prim2SF_one.
  destruct (Prim2SF x) as [s|s| |s m e]; unfold SFleb, SFabs, SFcompare.
  - intros _ _. reflexivity.
  - destruct s; intros H K; [exact H | exact K].
  - discriminate.
  - destruct s; intros H K; [|exact K].
    rewrite (Z.compare_antisym e (-52)) in H.
    destruct (e ?= -52)%Z; cbn [CompOpp] in H |- *; try reflexivity; try discriminate.
    rewrite (Pos.compare_cont_antisym 4503599627370496 m Eq) in H.
    cbn [CompOpp] in H.
    destruct (Pos.compare_cont Eq m 4503599627370496); cbn [CompOpp] in H;
      try reflexivity; discriminate.
Qed.

(** Past the threshold the sign decides on which side the value is. *)
Lemma direction_threshold x :
  F.gtb (abs x) 0.3 = true ->
  if F.gtb x 0 then (0.3 <? x) = true else (x <? -0.3) = true.
Proof.
  unfold F.gtb.
  rewrite !ltb_spec, abs_spec, Prim2SF_three_tenths, Prim2SF_minus_three_tenths,
    ZScore.Prim2SF_zero.
  destruct (Prim2SF x) as [s|s| |s m e]; unfold SFltb, SFabs, SFcompare.
  - discriminate.
  - destruct s; reflexivity.
  - discriminate.
  - destruct s; intros H; [|exact H].
    rewrite (Z.compare_antisym e (-54)) in H.
    destruct (e ?= -54)%Z; cbn [CompOpp] in H |- *; try reflexivity; try discriminate.
    rewrite (Pos.compare_cont_antisym m 5404319552844595 Eq). cbn [CompOpp].
    exact H.
Qed.

Local Open Scope Z_scope.

(** A tenth of a value above two is above a fifth. *)
Lemma tenth_above_fifth r :
  F.gtb r 2 = true -> (0.2 <? r / 10)%float = true.
Proof.
  intros H. assert (P := above_two_positive H).
  unfold F.gtb in H. rewrite ltb_spec, Prim2SF_two in H.
  rewrite ltb_spec, div_spec, Prim2SF_ten, Prim2SF_fifth.
  destruct P as [E|(m & e & E)]; rewrite E in *; [reflexivity|].
  assert (B := Prim2SF_bounded _ E).
  destruct (bounded_range _ _ B) as (Re & Dm & Dn).
  unfold SFltb, SFcompare in H.
  assert (R : -51 < e \/ (e = -51 /\ 4503599627370496 < Zpos m)).
  { destruct (Z.compare_spec (-51) e) as [Q|Q|Q]; [right; split; [lia|] |now left|discriminate].
    rewrite Pos.compare_cont_spec in H. cbn [Pos.switch_Eq] in H.
    destruct (Pos.compare_spec 4503599627370496 m); try discriminate. lia. }
  assert (D53 : Zpos (digits2_pos m) = 53) by (apply Dn; lia).
  unfold SF64div, SFdiv.
  destruct (div_core_quotient m e 5629499534213120 (-49)) as (l & ->).
  cbn [Zdigits2].
  change (Zpos (digits2_pos 5629499534213120)) with 53. rewrite D53.
  rewrite fexp_eq.
  replace (Z.min (Z.max (53 + e - (53 + -49) - 53) (-1074)) (e - -49)) with (e - 4) by lia.
  replace (e - -49 - (e - 4)) with 53 by lia.
  set (q := Zpos m * 2 ^ 53 / 5629499534213120).
  assert (Q : 0 < q).
  { unfold q. apply Z.div_str_pos. split; [lia|].
    destruct (digits_pos_bounds m) as [Lo _]. rewrite D53 in Lo.
    change (2 ^ (53 - 1)) with 4503599627370496 in Lo.
    change (2 ^ 53) with 9007199254740992. lia. }
  cbn [xorb].
  destruct (@bra_shape false q (e - 4) l) as (m1r & Bm & ->); [lia|].
  set (s1 := shift_amount q (e - 4)) in *.
  set (s2 := shift_amount m1r (e - 4 + s1)).
  assert (S1 : 0 <= s1) by apply shift_amount_nonneg.
  assert (S2 : 0 <= s2) by apply shift_amount_nonneg.
  assert (P1 : 0 < q / 2 ^ s1) by (apply shift_keeps_positive; lia).
  assert (P2 : 0 < m1r / 2 ^ s2) by (apply shift_keeps_positive; lia).
  destruct (@classify_nonneg false (m1r / 2 ^ s2) (e - 4 + s1 + s2))
    as [(Z0 & _)|[(p & Ep & _ & ->)|(_ & _ & ->)]]; [lia|lia| |reflexivity].
  unfold SFltb, SFcompare.
  destruct (Z.compare_spec (-55) (e - 4 + s1 + s2)) as [Q1|Q1|Q1]; [|reflexivity|lia].
  assert (e = -51 /\ s1 = 0 /\ s2 = 0) as (-> & Z1 & Z2) by lia.
  rewrite Z2 in Ep. rewrite Z1 in Bm.
  change (2 ^ 0) with 1 in *. rewrite Z.div_1_r in *.
  assert (7205759403792795 <= q).
  { unfold q.
    change 7205759403792795 with ((4503599627370496 + 1) * 2 ^ 53 / 5629499534213120).
    apply Z.div_le_mono; [lia|].
    apply Z.mul_le_mono_nonneg_r; [apply Z.lt_le_incl, pow2_pos; lia | lia]. }
  clearbody q. clear H R Q.
  rewrite Pos.compare_cont_spec. cbn [Pos.switch_Eq].
  assert (C : (7205759403792794 ?= p)%positive = Lt)
    by (apply Pos.compare_lt_iff; lia).
  rewrite C. reflexivity.
Qed.

Local Close Scope Z_scope.

Lemma influence_strength_range r :
  F.gtb r 2 = true ->
  (0.2 <? F.py_min (r / 10) 1) = true /\ (F.py_min (r / 10) 1 <=? 1) = true.
Proof.
  intros H. assert (T := tenth_above_fifth H). unfold F.py_min.
  destruct (1 <? r / 10) eqn:A.
  - split; vm_compute; reflexivity.
  - split; [exact T|]. apply ltb_false_leb; [exact one_not_nan | | exact A].
    exact (proj2 (ltb_not_nan T)).
Qed.

(** X5.  Every correlation [find_connections] returns has a value
    between -1 and 1 and a strength above 0.3 and at most 1; its
    direction is positive only for a value above 0.3 and negative only
    for a value below -0.3.  Every categorical influence has a strength
    above 0.2 and at most 1. *)
Theorem strengths_in_range (df : DataFrame) (c : connection) :
  In c (find_connections (load_data df)) ->
  match c with
  | correlation _ _ s d x =>
      (0.3 <? s) = true /\ (s <=? 1) = true /\
      (-1 <=? x) = true /\ (x <=? 1) = true /\
      match d with
      | positive => (0.3 <? x) = true
      | negative => (x <? -0.3) = true
      end
  | categorical_influence _ _ s _ =>
      (0.2 <? s) = true /\ (s <=? 1) = true
  end.
Proof.
  intros H. apply in_find_connections in H. destruct c as [c1 c2 s d x|k n s g].
  - apply in_discovered_correlation, in_numeric_pairs in H.
    destruct H as (u & v & _ & H). apply in_correlation_of in H.
    destruct H as (T & E). injection E as -> -> -> -> ->.
    destruct (correlation_strength_not_nan T) as [_ N].
    destruct (@welford_coeff_range _ N) as [L U].
    split; [exact T|]. split; [now apply abs_le_one|].
    split; [exact L|]. split; [exact U|].
    assert (D := direction_threshold T).
    destruct (F.gtb (corr_loc (load_data df) u v) 0); exact D.
  - apply in_discovered_influence, in_influences in H.
    destruct H as (u & v & _ & _ & H). apply in_influence_of in H.
    destruct H as (_ & T & E). injection E as -> -> -> _.
    now apply influence_strength_range.
Qed.

Lemma strengths_in_range_witness :
  exists c, In c (find_connections (load_data Samples.spread_frame)) /\
            (strength_of c <=? 1) = true.
Proof.
  destruct (find_connections (load_data Samples.spread_frame)) as [|c l] eqn:E.
  - vm_compute in E. discriminate.
  - assert (H : In c (find_connections (load_data Samples.spread_frame)))
      by (rewrite E; now left).
    exists c. split; [now left|].
    assert (R := @strengths_in_range Samples.spread_frame c H).
    destruct c; simpl; tauto.
Defined.

End Ranges.

(* ================================================================== *)
(** * Quartiles of a constant column *)
(* ================================================================== *)

Module Quartiles.

Import Pandas CSVAnalyzer FloatFacts WelfordVocabulary Frames Outliers Groups ZScore
       Constant Degenerate.
Local Open Scope string_scope.
Local Open Scope float_scope.

(** ** Sorting keeps the entries *)

Lemma in_insert_asc x y l : In y (insert_asc x l) <-> y = x \/ In y l.
Proof.
  induction l as [|z r IH]; simpl.
  - intuition.
  - destruct (z <=? x); simpl; rewrite ?IH; intuition.
Qed.

Lemma in_sort_asc y l : In y (sort_asc l) <-> In y l.
Proof.
  induction l as [|x r IH]; simpl; [tauto|].
  rewrite in_insert_asc, IH. intuition.
Qed.

Lemma in_dropna y l : In y (F.dropna l) <-> In y l /\ F.is_nan y = false.
Proof.
  unfold F.dropna. rewrite filter_In, negb_true_iff. tauto.
Qed.

Lemma quartile_position k n1 :
  (k <= 4)%nat -> (k * n1 / 4 <= n1)%nat.
Proof.
  intros H. apply Nat.Div0.div_le_upper_bound. nia.
Qed.

(** A quartile is an interpolation between two entries, at one of four
    fractions. *)
Lemma quartile_shape k v :
  (k <= 4)%nat ->
  quartile k v = nan \/
  exists a b j,
    In a (F.dropna v) /\ In b (F.dropna v) /\ (j < 4)%nat /\
    quartile k v = lerp a b (F.of_nat j / 4).
Proof.
  intros K. unfold quartile.
  destruct (List.length (sort_asc (F.dropna v))) as [|n1] eqn:L; [now left|].
  right.
  assert (P := quartile_position n1 K).
  exists (nth (k * n1 / 4) (sort_asc (F.dropna v)) nan),
         (nth (Nat.min (S (k * n1 / 4)) n1) (sort_asc (F.dropna v)) nan),
         ((k * n1) mod 4)%nat.
  split; [|split; [|split]].
  - apply in_sort_asc, nth_In. lia.
  - apply in_sort_asc, nth_In. lia.
  - apply Nat.mod_upper_bound. lia.
  - reflexivity.
Qed.

(** ** Interpolating between equal ends *)

Lemma zero_times_finite a d :
  is_zero a -> (is_zero d \/ exists s m e, Prim2SF d = S754_finite s m e) ->
  is_zero (a * d).
Proof.
  intros (b & A) D. unfold is_zero. rewrite mul_spec, A. unfold SF64mul.
  destruct D as [(c & ->)|(s & m & e & ->)]; now eexists.
Qed.

Lemma near_minus_zero v m z :
  F.isfinite v = true -> near v m -> is_zero z -> near v (m - z).
Proof.
  intros F N (b & Z). unfold near, is_zero in *. rewrite sub_spec, Z. unfold SF64sub.
  destruct N as [E|[(c & Ev) (k & Em)]].
  - rewrite E. destruct (isfinite_shape _ F) as [(c & Ev)|(s & mv & e & Ev)]; rewrite Ev.
    + right. split; [now eexists|]. destruct c, b; now eexists.
    + left. reflexivity.
  - rewrite Em. right. split; [now exists c|]. destruct k, b; now eexists.
Qed.

Lemma near_refl v : near v v.
Proof. now left. Qed.

Lemma near_difference v a b :
  F.isfinite v = true -> near v a -> near v b -> is_zero (a - b).
Proof.
  intros F A B. unfold is_zero. rewrite sub_spec. unfold SF64sub.
  assert (S : forall x, near v x ->
              (exists c, Prim2SF x = S754_zero c) \/
              (exists s m e, Prim2SF x = S754_finite s m e /\ Prim2SF v = S754_finite s m e)).
  { intros x [E|[_ Z]]; [|now left]. rewrite E.
    destruct (isfinite_shape _ F) as [Z|(s & m & e & Ev)]; [now left|].
    right. now exists s, m, e. }
  destruct (S a A) as [(c & Ea)|(s & m & e & Ea & Va)],
           (S b B) as [(d & Eb)|(t & n & f & Eb & Vb)]; rewrite Ea, Eb.
  - destruct c, d; now eexists.
  - destruct A as [E|[(k & Zv) _]]; [rewrite Ea, Vb in E|rewrite Zv in Vb]; discriminate.
  - destruct B as [E|[(k & Zv) _]]; [rewrite Eb, Va in E|rewrite Zv in Va]; discriminate.
  - rewrite Va in Vb. injection Vb as <- <- <-. rewrite Exact.sub_self. now eexists.
Qed.

Lemma near_not_ltb v m :
  F.isfinite v = true -> near v m -> (v <? m) = false /\ (m <? v) = false.
Proof.
  intros F N. rewrite !ltb_spec. unfold SFltb.
  destruct N as [E|[(c & Ev) (k & Em)]].
  - rewrite E. rewrite SFcompare_refl; [now split|].
    destruct (isfinite_shape _ F) as [(c & ->)|(s & mv & e & ->)]; discriminate.
  - rewrite Ev, Em. now split.
Qed.

Lemma fraction_shape j :
  (j < 4)%nat ->
  let t := F.of_nat j / 4 in
  (is_zero t \/ exists s m e, Prim2SF t = S754_finite s m e) /\
  (is_zero (1 - t) \/ exists s m e, Prim2SF (1 - t) = S754_finite s m e).
Proof.
  intros H. destruct j as [|[|[|[|j]]]]; try lia; cbv zeta; split;
    solve [ left; eexists; vm_compute; reflexivity
          | right; do 3 eexists; vm_compute; reflexivity ].
Qed.

(** Between two copies of a finite value the interpolation is that
    value. *)
Lemma lerp_same v j :
  F.isfinite v = true -> (j < 4)%nat -> near v (lerp v v (F.of_nat j / 4)).
Proof.
  intros F J. destruct (fraction_shape J) as [T1 T2]. cbv zeta in T1, T2.
  assert (D : is_zero (v - v)) by (apply near_sub; [exact F | apply near_refl]).
  unfold lerp. destruct (0.5 <=? F.of_nat j / 4).
  - apply near_minus_zero; [exact F | apply near_refl |].
    now apply zero_times_finite.
  - apply near_plus_zero; [exact F | apply near_refl |].
    now apply zero_times_finite.
Qed.

(** Between two copies of an infinity it is NaN. *)
Lemma lerp_same_infinite v t :
  F.is_nan v = false -> F.isfinite v = false -> F.is_nan (lerp v v t) = true.
Proof.
  intros N F. apply is_nan_false in N.
  assert (I : exists s, Prim2SF v = S754_infinity s).
  { unfold F.isfinite, PrimFloat.is_infinity in F.
    rewrite andb_false_iff, !negb_false_iff in F.
    destruct F as [F|F]; [apply is_nan_spec in F; contradiction|].
    rewrite eqb_spec, abs_spec, Prim2SF_infinity in F.
    destruct (Prim2SF v) as [b|b| |s m e]; try discriminate. now exists b. }
  destruct I as (s & I).
  assert (D : Prim2SF (v - v) = S754_nan).
  { rewrite sub_spec, I. unfold SF64sub. destruct s; reflexivity. }
  unfold lerp. destruct (0.5 <=? t); apply is_nan_spec.
  - rewrite sub_spec, mul_spec, D, I. reflexivity.
  - rewrite add_spec, mul_spec, D, I. reflexivity.
Qed.

Lemma constant_quartile k l v :
  (k <= 4)%nat -> (forall x, In x l -> x = v) ->
  quartile k l = nan \/
  exists j, (j < 4)%nat /\ quartile k l = lerp v v (F.of_nat j / 4).
Proof.
  intros K C. destruct (quartile_shape l K) as [E|(a & b & j & Ha & Hb & J & E)];
    [now left|].
  right. exists j. split; [exact J|].
  apply in_dropna in Ha, Hb. rewrite (C a), (C b) in E; tauto.
Qed.

Lemma nan_bound_not_outside x Q1 Q3 :
  F.is_nan Q1 = true \/ F.is_nan Q3 = true ->
  outside (Q1 - 1.5 * (Q3 - Q1), Q3 + 1.5 * (Q3 - Q1)) x = false.
Proof.
  intros H.
  assert (D : Prim2SF (1.5 * (Q3 - Q1)) = S754_nan).
  { rewrite mul_spec, sub_spec. unfold SF64mul, SF64sub.
    destruct H as [H|H]; apply is_nan_spec in H; rewrite H.
    - destruct (Prim2SF Q3), (Prim2SF 1.5); reflexivity.
    - destruct (Prim2SF 1.5); reflexivity. }
  unfold outside, F.gtb. cbn [fst snd].
  rewrite !ltb_spec, sub_spec, add_spec, D. unfold SF64sub, SF64add, SFltb.
  destruct (Prim2SF Q1), (Prim2SF Q3), (Prim2SF x); reflexivity.
Qed.

Lemma Prim2SF_three_halves :
  Prim2SF 1.5 = S754_finite false 6755399441055744 (-52).
Proof. vm_compute. reflexivity. Qed.

Lemma constant_not_outside v l :
  F.is_nan v = false -> (forall x, In x l -> x = v) ->
  outside (iqr_bounds l) v = false.
Proof.
  intros N C. unfold iqr_bounds. cbv zeta.
  assert (K1 : (1 <= 4)%nat) by lia. assert (K3 : (3 <= 4)%nat) by lia.
  destruct (@constant_quartile 1 l v K1 C) as [E1|(j1 & J1 & E1)];
    [apply nan_bound_not_outside; left; rewrite E1; exact nan_is_nan|].
  destruct (@constant_quartile 3 l v K3 C) as [E3|(j3 & J3 & E3)];
    [apply nan_bound_not_outside; right; rewrite E3; exact nan_is_nan|].
  destruct (F.isfinite v) eqn:F.
  - assert (Q1 : near v (quartile 1 l)) by (rewrite E1; now apply lerp_same).
    assert (Q3 : near v (quartile 3 l)) by (rewrite E3; now apply lerp_same).
    assert (I : is_zero (1.5 * (quartile 3 l - quartile 1 l))).
    { apply scaled_zero.
      - right. do 3 eexists. exact Prim2SF_three_halves.
      - now apply near_difference with v. }
    unfold outside, F.gtb. cbn [fst snd].
    rewrite (proj1 (near_not_ltb F (near_minus_zero F Q1 I))).
    rewrite (proj2 (near_not_ltb F (near_plus_zero F Q3 I))).
    reflexivity.
  - apply nan_bound_not_outside. left. rewrite E1. now apply lerp_same_infinite.
Qed.

Lemma series_values_dropna s :
  Forall (fun y => F.is_nan y = false) (series_values (series_dropna s)).
Proof.
  unfold series_values, series_dropna. apply Forall_forall. intros y H.
  apply in_map_iff in H. destruct H as (iv & <- & H). apply filter_In in H.
  now apply negb_true_iff.
Qed.

(** X8.  On a numeric column whose non-missing entries all hold the
    same value, the ["iqr"] method finds no outlier. *)
Theorem iqr_constant_column (df : DataFrame) (column : string) :
  (exists v, In (column, NumericCol v) df) ->
  constant (series_values (series_dropna (to_series (numeric_values df column)))) ->
  get_outliers (load_data df) column "iqr" = Ok [].
Proof.
  intros N (v & C).
  apply in_numeric_columns, mem_In in N.
  rewrite (@get_outliers_numeric _ _ "iqr" N). cbv zeta.
  change (String.eqb "iqr" "iqr") with true. cbv iota. f_equal.
  cbn [data load_data].
  set (present := series_dropna (to_series (numeric_values df column))) in *.
  apply filter_none. intros iv H.
  assert (M : In (snd iv) (series_values present)) by (now apply in_map).
  rewrite (C _ M).
  apply constant_not_outside; [|exact C].
  rewrite <- (C _ M).
  exact (proj1 (Forall_forall _ _) (series_values_dropna _) _ M).
Qed.

Lemma iqr_constant_column_witness :
  get_outliers (load_data Samples.sample_frame) "c" "iqr" = Ok [].
Proof.
  apply iqr_constant_column.
  - exists [5; 5; 5; 5; 5]. right. right. left. reflexivity.
  - exists 5. intros x H. vm_compute in H. intuition.
Defined.

Lemma nan_std_z_score m s x :
  F.is_nan s = true -> F.gtb (z_score m s x) 3 = false.
Proof.
  intros H. unfold z_score. apply nan_above_nothing.
  apply is_nan_spec. apply is_nan_spec in H.
  rewrite div_spec, H. unfold SF64div, SFdiv. destruct (Prim2SF (x - m)); reflexivity.
Qed.

Lemma few_values_std v :
  (List.length (F.dropna v) <= 1)%nat -> F.is_nan (std v) = true.
Proof.
  intros H. unfold std, var. cbv zeta.
  apply Nat.leb_le in H. rewrite H. rewrite sqrt_nan. exact nan_is_nan.
Qed.

Lemma dropna_values s :
  F.dropna (series_values (series_dropna s)) = series_values (series_dropna s).
Proof.
  assert (H := series_values_dropna s).
  induction (series_values (series_dropna s)) as [|x l IH]; [reflexivity|].
  inversion H; subst. unfold F.dropna in *. simpl. rewrite H2. simpl.
  f_equal. now apply IH.
Qed.

(** X9.  On a numeric column with at most one non-missing entry no
    method finds an outlier: the quartiles coincide with the entry, and
    the sample standard deviation of fewer than two values is NaN. *)
Theorem few_values_no_outliers (df : DataFrame) (column method : string) :
  (exists v, In (column, NumericCol v) df) ->
  (List.length (series_dropna (to_series (numeric_values df column))) <= 1)%nat ->
  get_outliers (load_data df) column method = Ok [].
Proof.
  intros N L.
  apply in_numeric_columns, mem_In in N.
  rewrite (@get_outliers_numeric _ _ method N). cbv zeta.
  cbn [data load_data].
  set (present := series_dropna (to_series (numeric_values df column))) in *.
  destruct (String.eqb method "iqr"); [|destruct (String.eqb method "zscore")];
    [| |reflexivity]; f_equal; apply filter_none; intros iv H.
  - assert (M : In (snd iv) (series_values present)) by (now apply in_map).
    apply constant_not_outside.
    + exact (proj1 (Forall_forall _ _) (series_values_dropna _) _ M).
    + intros x Hx. unfold series_values in Hx. apply in_map_iff in Hx.
      destruct Hx as (jv & <- & Hj).
      destruct present as [|p [|q r]]; simpl in *; try lia; try tauto.
      destruct H as [<-|[]], Hj as [<-|[]]. reflexivity.
  - apply nan_std_z_score, few_values_std.
    unfold present. rewrite dropna_values. unfold series_values.
    rewrite length_map. exact L.
Qed.

Lemma few_values_no_outliers_witness :
  get_outliers (load_data [("x", NumericCol [nan; 7; nan])]) "x" "zscore" = Ok [].
Proof.
  apply few_values_no_outliers.
  - eexists. left. reflexivity.
  - vm_compute. lia.
Defined.

End Quartiles.

(* ================================================================== *)
(** * Row labels and group counts *)
(* ================================================================== *)

Module RowLabels.

Import Pandas CSVAnalyzer Frames Outliers.
Local Open Scope string_scope.
Local Open Scope float_scope.

Lemma enumerate_from_nth {A} (l : list A) s i x :
  In (i, x) (enumerate_from s l) ->
  (s <= i)%nat /\ nth_error l (i - s) = Some x.
Proof.
  revert s. induction l as [|y l IH]; simpl; intros s H; [contradiction|].
  destruct H as [E|H].
  - injection E as <- <-. rewrite Nat.sub_diag. split; [lia | reflexivity].
  - apply IH in H. destruct H as [L H]. split; [lia|].
    replace (i - s)%nat with (S (i - S s)) by lia. exact H.
Qed.

Lemma enumerate_from_sorted {A} (l : list A) s :
  StronglySorted lt (map fst (enumerate_from s l)).
Proof.
  revert s. induction l as [|y l IH]; simpl; intros s; constructor; [apply IH|].
  apply Forall_forall. intros i H. apply in_map_iff in H.
  destruct H as ([j x] & <- & H). apply enumerate_from_nth in H. simpl. lia.
Qed.

Lemma subseq_sorted {A} (R : A -> A -> Prop) (s l : list A) :
  subseq s l -> StronglySorted R l -> StronglySorted R s.
Proof.
  induction 1 as [|x s l H IH|x s l H IH]; intros S.
  - constructor.
  - inversion S; subst. auto.
  - inversion S as [|? ? S' F]; subst. constructor; [auto|].
    apply Forall_forall. intros y Hy.
    apply (proj1 (Forall_forall _ _) F). exact (@subseq_In _ _ _ _ H Hy).
Qed.

(** Whatever the method, what comes back is taken from the entries
    that are present. *)
Lemma get_outliers_subseq a column method s :
  get_outliers a column method = Ok s ->
  subseq s (series_dropna (to_series (numeric_values (data a) column))).
Proof.
  unfold get_outliers. destruct (negb (mem column (numeric_columns a))); [discriminate|].
  cbv zeta.
  destruct (String.eqb method "iqr"); [|destruct (String.eqb method "zscore")];
    intros [= <-]; try apply subseq_filter.
  apply subseq_nil_l.
Qed.

(** X7.  Every entry [get_outliers] returns carries the label of the
    row it came from: entry [(i, x)] means that the column holds the
    number [x], not a missing value, in row [i]; the entries come in
    the order of the rows and no row comes twice. *)
Theorem outliers_keep_row_labels (df : DataFrame) (column method : string)
        (s : Series) :
  get_outliers (load_data df) column method = Ok s ->
  (forall i x, In (i, x) s ->
     nth_error (numeric_values df column) i = Some x /\ F.is_nan x = false) /\
  StronglySorted lt (map fst s).
Proof.
  intros H. apply get_outliers_subseq in H. cbn [data load_data] in H.
  assert (D : subseq (series_dropna (to_series (numeric_values df column)))
                     (to_series (numeric_values df column)))
    by apply subseq_filter.
  split.
  - intros i x Hi. apply (@subseq_In _ _ _ _ H) in Hi.
    unfold series_dropna in Hi. apply filter_In in Hi. destruct Hi as [Hi N].
    apply enumerate_from_nth in Hi. rewrite Nat.sub_0_r in Hi.
    split; [tauto|]. now apply negb_true_iff in N.
  - apply (@subseq_sorted _ lt _ (map fst (to_series (numeric_values df column)))).
    + apply subseq_map. exact (subseq_trans H D).
    + apply enumerate_from_sorted.
Qed.

Lemma outliers_keep_row_labels_witness :
  nth_error (numeric_values Samples.sample_frame "a") 4 = Some 100 /\
  F.is_nan 100 = false.
Proof.
  apply (@outliers_keep_row_labels Samples.sample_frame "a" "iqr" [(4%nat, 100)]).
  - vm_compute. reflexivity.
  - now left.
Defined.

End RowLabels.

Module GroupCounts.

Import Pandas CSVAnalyzer Frames Keys.
Local Open Scope string_scope.
Local Open Scope float_scope.

Lemma list_sum_add {A} (f g : A -> nat) l :
  list_sum (map (fun k => (f k + g k)%nat) l) =
  (list_sum (map f l) + list_sum (map g l))%nat.
Proof. induction l as [|x l IH]; simpl; lia. Qed.

Lemma list_sum_indicator s c ks :
  NoDup ks ->
  list_sum (map (fun k => if String.eqb s k then c else 0%nat) ks) =
  if mem s ks then c else 0%nat.
Proof.
  induction 1 as [|k ks N1 N2 IH]; simpl; [reflexivity|].
  rewrite IH. destruct (String.eqb_spec s k) as [->|D]; simpl; [|reflexivity].
  destruct (mem k ks) eqn:M; [|lia].
  apply mem_In in M. contradiction.
Qed.

Lemma group_values_cons key s x lr vr :
  List.length (F.dropna (group_values key (Some s :: lr) (x :: vr))) =
  ((if String.eqb s key then (if F.is_nan x then 0 else 1) else 0) +
   List.length (F.dropna (group_values key lr vr)))%nat.
Proof.
  cbn [group_values]. destruct (String.eqb s key); [|reflexivity].
  unfold F.dropna. cbn [filter]. destruct (F.is_nan x); reflexivity.
Qed.

Lemma counts_over_keys ks labels v :
  NoDup ks ->
  list_sum (map (fun k => List.length (F.dropna (group_values k labels v))) ks) =
  List.length
    (filter (fun p => match fst p with
                      | Some s => mem s ks && negb (F.is_nan (snd p))
                      | None => false
                      end) (combine labels v)).
Proof.
  intros N.
  assert (Z : forall l : list string, list_sum (map (fun _ => 0%nat) l) = 0%nat)
    by (induction l; simpl; auto).
  revert v. induction labels as [|[s|] lr IH]; intros v.
  - cbn [group_values combine filter List.length F.dropna]. apply Z.
  - destruct v as [|x vr].
    + cbn [group_values combine filter List.length F.dropna]. apply Z.
    + rewrite (map_ext _ _ (fun k => group_values_cons k s x lr vr)).
      rewrite list_sum_add, (list_sum_indicator _ _ N), IH.
      cbn [combine filter fst snd].
      destruct (mem s ks), (F.is_nan x); reflexivity.
  - destruct v as [|x vr].
    + cbn [group_values combine filter List.length F.dropna]. apply Z.
    + cbn [group_values combine filter fst]. apply IH.
Qed.

Lemma sorted_NoDup l : StronglySorted String_as_OT.lt l -> NoDup l.
Proof.
  induction 1 as [|x l S IH F]; constructor; [|exact IH].
  intros H. apply (proj1 (Forall_forall _ _) F) in H.
  exact (String_as_OT.lt_not_eq _ _ H eq_refl).
Qed.

(** X6.  The table of group statistics a categorical influence carries
    has one row per label, in ascending order of the labels and
    without repeats, and its counts add up to the number of rows that
    have both a label and a number. *)
Theorem group_counts_add_up (df : DataFrame) (cat_col num_col : string) :
  let g := grouped (load_data df) cat_col num_col in
  StronglySorted String_as_OT.lt (map fst g) /\
  (forall key, In key (map fst g) <-> In (Some key) (object_labels df cat_col)) /\
  list_sum (map (fun kv => g_count (snd kv)) g) =
  List.length
    (filter (fun p => match fst p with
                      | Some _ => negb (F.is_nan (snd p))
                      | None => false
                      end)
            (combine (object_labels df cat_col) (numeric_values df num_col))).
Proof.
  intros g. unfold g, grouped. cbn [data load_data].
  set (labels := object_labels df cat_col). set (v := numeric_values df num_col).
  rewrite groupby_agg_keys.
  split; [apply group_keys_sorted|]. split; [intros key; apply in_group_keys|].
  unfold groupby_agg. rewrite map_map. cbn [snd g_count agg_mean_std_count].
  rewrite (@counts_over_keys _ labels v (sorted_NoDup (group_keys_sorted labels))).
  f_equal. apply filter_ext_in. intros [[s|] x] H; [|reflexivity]. cbn [fst snd].
  apply in_combine_l in H. apply in_group_keys, mem_In in H. now rewrite H.
Qed.

End GroupCounts.

(* ================================================================== *)
(** * The summary *)
(* ================================================================== *)

Module SummaryFacts.

Import Pandas CSVAnalyzer Frames Summary.
Local Open Scope string_scope.
Local Open Scope float_scope.

Lemma filter_split {A} (p : A -> bool) l :
  (List.length (filter p l) + List.length (filter (fun x => negb (p x)) l)
   = List.length l)%nat.
Proof.
  induction l as [|x l IH]; simpl; [reflexivity|].
  destruct (p x); simpl; lia.
Qed.

Lemma in_describe df name st :
  In (name, st) (describe df) <->
  exists values, In (name, NumericCol values) df /\ st = describe_1d values.
Proof.
  induction df as [|[n c] rest IH]; simpl.
  - split; [intros [] | intros (v & [] & _)].
  - destruct c as [v|l|k]; simpl; rewrite IH; split.
    + intros [E|(w & H & ->)]; [injection E as -> <-; exists v; auto | exists w; auto].
    + intros (w & [E|H] & ->); [injection E as -> ->; now left | right; exists w; auto].
    + intros (w & H & ->). exists w. auto.
    + intros (w & [E|H] & ->); [discriminate | exists w; auto].
    + intros (w & H & ->). exists w. auto.
    + intros (w & [E|H] & ->); [discriminate | exists w; auto].
Qed.

(** X2.  Once the data is loaded [get_summary] succeeds, and for every
    numeric column of a frame the count it reports under [basic_stats]
    and the number it reports under [missing_values] add up to the
    number of rows. *)
Theorem summary_counts (df : DataFrame) (name : string) (values : list float) :
  rectangular df ->
  In (name, NumericCol values) df ->
  exists s,
    get_summary (Some (load_data df)) = Ok s /\
    shape s = (n_rows df, List.length df) /\
    exists missing stats,
      In (name, missing) (missing_values s) /\
      In (name, stats) (basic_stats s) /\
      (missing <= n_rows df)%nat /\
      d_count stats = F.of_nat (n_rows df - missing).
Proof.
  intros R H. eexists. split; [reflexivity|]. cbn [shape missing_values basic_stats data].
  split; [reflexivity|].
  exists (isnull_sum (NumericCol values)), (describe_1d values).
  assert (L := R _ _ H). cbn [column_size] in L.
  assert (P := filter_split F.is_nan values).
  cbn [isnull_sum]. split; [|split; [|split]].
  - apply in_map_iff. now exists (name, NumericCol values).
  - assert (N : In name (numeric_columns (load_data df)))
      by (apply in_numeric_columns; now exists values).
    destruct (numeric_columns (load_data df)); [contradiction|].
    apply in_describe. now exists values.
  - lia.
  - cbn [d_count describe_1d]. f_equal. unfold F.dropna. lia.
Qed.

Lemma summary_counts_witness :
  exists s stats,
    get_summary (Some (load_data [("x", NumericCol [1; nan; 3])])) = Ok s /\
    In ("x", 1%nat) (missing_values s) /\
    In ("x", stats) (basic_stats s) /\
    d_count stats = 2.
Proof.
  destruct (@summary_counts [("x", NumericCol [1; nan; 3])] "x" [1; nan; 3])
    as (s & E & _ & missing & stats & M & B & _ & C).
  - intros n c [K|[]]. injection K as <- <-. reflexivity.
  - now left.
  - exists s, stats. split; [exact E|].
    injection E as <-. cbn in M. destruct M as [K|[]]. injection K as <-.
    split; [now left|]. split; [exact B|]. exact C.
Defined.

End SummaryFacts.

(* ================================================================== *)
(** * Charts: actions and the grid of subplots *)
(* ================================================================== *)

Module Actions.

Import Pandas CSVAnalyzer Visualizer.
Local Open Scope string_scope.
Local Open Scope nat_scope.

Lemma and_then_done (e1 e2 : list event) (r : option exception) :
  (e1, None) ;; (e2, r) = ((e1 ++ e2)%list, r).
Proof. reflexivity. Qed.

Lemma and_then_raised (e1 : list event) (x : exception) (b : action) :
  (e1, Some x) ;; b = (e1, Some x).
Proof. reflexivity. Qed.

Lemma skip_and_then (b : action) : skip ;; b = b.
Proof. destruct b. reflexivity. Qed.

Lemma and_then_assoc (a b c : action) : (a ;; b) ;; c = a ;; b ;; c.
Proof.
  destruct a as [e1 [x|]], b as [e2 [y|]], c as [e3 r]; unfold and_then;
    cbn [fst snd]; try reflexivity.
  now rewrite app_assoc.
Qed.

Lemma for_each_emit {A} (l : list A) (f : A -> event) :
  for_each l (fun x => emit (f x)) = (map f l, None).
Proof.
  induction l as [|x l IH]; simpl; [reflexivity|].
  rewrite IH. reflexivity.
Qed.

Lemma for_each_ext {A} (l : list A) (f g : A -> action) :
  (forall x, In x l -> f x = g x) -> for_each l f = for_each l g.
Proof.
  induction l as [|x l IH]; simpl; intros H; [reflexivity|].
  rewrite (H x (or_introl eq_refl)), IH; [reflexivity|].
  intros y Hy. apply H. now right.
Qed.

Lemma in_enumerate_from {A} (l : list A) s i x :
  In (i, x) (enumerate_from s l) -> s <= i < s + List.length l.
Proof.
  revert s. induction l as [|y l IH]; simpl; intros s H; [contradiction|].
  destruct H as [E|H]; [injection E as <- <-; lia|].
  apply IH in H. lia.
Qed.

(** ** The grid *)

Lemma nth_error_axes_row m i :
  i < m -> nth_error (axes_row 0 m) i = Some (Axes i).
Proof.
  intros H. unfold axes_row. rewrite nth_error_map, nth_error_seq.
  apply Nat.ltb_lt in H. rewrite H. reflexivity.
Qed.

Lemma length_axes_row s m : List.length (axes_row s m) = m.
Proof. unfold axes_row. now rewrite length_map, length_seq. Qed.

Lemma on_item_axes_row m i call :
  i < m -> on_item (axes_row 0 m) i call = emit (call i).
Proof.
  intros H. unfold on_item. now rewrite nth_error_axes_row.
Qed.

Lemma flatten_rows ncols nrows :
  flat_map flatten (map (fun r => Sequence (axes_row (r * ncols) ncols)) (seq 0 nrows))
  = axes_row 0 (nrows * ncols).
Proof.
  induction nrows as [|n IH]; [reflexivity|].
  rewrite seq_S, map_app, flat_map_app, IH. simpl.
  unfold axes_row. rewrite app_nil_r.
  replace (flat_map flatten (map Axes (seq (n * ncols) ncols)))
    with (map Axes (seq (n * ncols) ncols)).
  - rewrite <- map_app. f_equal.
    replace (ncols + n * ncols) with (n * ncols + ncols) by lia.
    now rewrite seq_app.
  - induction (seq (n * ncols) ncols) as [|x l IHl]; simpl; [reflexivity|].
    now rewrite <- IHl.
Qed.

(** With two columns or more both methods end up with the subplots of
    the grid in a row. *)
Lemma grid_axes n :
  2 <= n ->
  let n_rows := (n + 2) / 3 in
  (if (n_rows =? 1) && (n =? 1) then [subplots n_rows 3]
   else if n_rows =? 1 then elements (subplots n_rows 3)
   else flatten (subplots n_rows 3)) = axes_row 0 (n_rows * 3) /\
  (if (n_rows =? 1) && (n =? 1)
   then (if n =? 1 then [subplots n_rows 3] else elements (subplots n_rows 3))
   else flatten (subplots n_rows 3)) = axes_row 0 (n_rows * 3).
Proof.
  intros H n_rows.
  assert (N1 : (n =? 1) = false) by (apply Nat.eqb_neq; lia).
  rewrite N1, andb_false_r.
  assert (R : 1 <= n_rows).
  { unfold n_rows. apply Nat.div_le_lower_bound; lia. }
  unfold subplots. change (3 =? 1) with false. rewrite andb_false_r, orb_false_r.
  destruct (n_rows =? 1) eqn:E.
  - apply Nat.eqb_eq in E. rewrite E. split; reflexivity.
  - cbn [flatten]. rewrite flatten_rows. split; reflexivity.
Qed.

Lemma grid_capacity n :
  let n_rows := (n + 2) / 3 in
  n <= n_rows * 3 /\ n_rows * 3 - n <= 2.
Proof.
  intros n_rows. unfold n_rows.
  assert (H := Nat.div_mod_eq (n + 2) 3).
  assert (K := Nat.mod_upper_bound (n + 2) 3). lia.
Qed.

(** The two loops over a row of subplots that is long enough. *)
Lemma grid_loops (cols : list string) m (draw : nat -> string -> event) :
  List.length cols <= m ->
  for_each (enumerate_from 0 cols)
    (fun ic => if fst ic <? List.length (axes_row 0 m)
               then on_item (axes_row 0 m) (fst ic) (fun k => draw k (snd ic))
               else skip) ;;
  for_each (seq (List.length cols) (List.length (axes_row 0 m) - List.length cols))
    (fun i => on_item (axes_row 0 m) i set_visible_false)
  = ((map (fun ic => draw (fst ic) (snd ic)) (enumerate_from 0 cols) ++
      map set_visible_false (seq (List.length cols) (m - List.length cols)))%list,
     None).
Proof.
  intros H. rewrite length_axes_row.
  rewrite (@for_each_ext _ _ _ (fun ic => emit (draw (fst ic) (snd ic)))).
  - rewrite (@for_each_ext _ (seq _ _) _ (fun i => emit (set_visible_false i))).
    + rewrite !for_each_emit. reflexivity.
    + intros i Hi. apply in_seq in Hi. apply on_item_axes_row. lia.
  - intros [i c] Hi. apply in_enumerate_from in Hi. cbn [fst snd].
    assert (L : i < m) by lia.
    rewrite (proj2 (Nat.ltb_lt _ _) L). now apply on_item_axes_row.
Qed.

End Actions.

Module Charts.

Import Pandas CSVAnalyzer Visualizer Actions.
Local Open Scope string_scope.
Local Open Scope nat_scope.

Lemma distribution_plots_events cols format :
  2 <= List.length cols ->
  _create_distribution_plots cols format =
  ((map (fun ic => hist (fst ic) (snd ic)) (enumerate_from 0 cols) ++
    map set_visible_false
        (seq (List.length cols) ((List.length cols + 2) / 3 * 3 - List.length cols)) ++
    (if mem format ["png"; "both"] then [savefig "distributions.png"] else []) ++
    (if mem format ["html"; "both"]
     then map (fun ic => add_trace (fst ic / 3 + 1) (fst ic mod 3 + 1) (snd ic))
              (enumerate_from 0 cols) ++ [write_html "distributions.html"]
     else []))%list,
   None).
Proof.
  intros H. unfold _create_distribution_plots. cbv zeta.
  rewrite (proj1 (grid_axes H)).
  rewrite <- and_then_assoc.
  rewrite (@grid_loops cols _ (fun k c => hist k c)) by apply grid_capacity.
  rewrite for_each_emit.
  destruct (mem format ["png"; "both"]), (mem format ["html"; "both"]);
    cbn [when and_then emit skip fst snd];
    rewrite ?app_nil_r, <- ?app_assoc; reflexivity.
Qed.

Lemma categorical_plots_events cols format :
  2 <= List.length cols ->
  _create_categorical_plots cols format =
  ((map (fun ic => bar (fst ic) (snd ic)) (enumerate_from 0 cols) ++
    map set_visible_false
        (seq (List.length cols) ((List.length cols + 2) / 3 * 3 - List.length cols)) ++
    (if mem format ["png"; "both"] then [savefig "categorical.png"] else []))%list,
   None).
Proof.
  intros H. unfold _create_categorical_plots. cbv zeta.
  rewrite (proj2 (grid_axes H)).
  rewrite <- and_then_assoc.
  rewrite (@grid_loops cols _ (fun k c => bar k c)) by apply grid_capacity.
  destruct (mem format ["png"; "both"]);
    cbn [when and_then emit skip fst snd];
    rewrite ?app_nil_r, <- ?app_assoc; reflexivity.
Qed.

(** With a single column the one-row array of three subplots is
    wrapped in a list, and the first drawing call lands on the array. *)
Lemma single_distribution_plot col format :
  _create_distribution_plots [col] format = ([], Some AttributeError).
Proof. reflexivity. Qed.

Lemma single_categorical_plot col format :
  _create_categorical_plots [col] format = ([], Some AttributeError).
Proof. reflexivity. Qed.

Lemma heatmap_done format : raised (_create_correlation_heatmap format) = None.
Proof.
  unfold _create_correlation_heatmap.
  destruct (mem format ["png"; "both"]), (mem format ["html"; "both"]); reflexivity.
Qed.

Lemma pairplot_done format : raised (_create_pairplot format) = None.
Proof.
  unfold _create_pairplot. destruct (mem format ["png"; "both"]); reflexivity.
Qed.

Lemma raised_and_then a b :
  raised (a ;; b) = match raised a with Some x => Some x | None => raised b end.
Proof. destruct a as [e [x|]]; reflexivity. Qed.

Lemma raised_when c a : raised (when c a) = if c then raised a else None.
Proof. destruct c; reflexivity. Qed.

Lemma distribution_raised cols format :
  raised (_create_distribution_plots cols format) =
  if List.length cols =? 1 then Some AttributeError else None.
Proof.
  destruct cols as [|c [|d r]]; try reflexivity.
  - unfold _create_distribution_plots.
    generalize (mem format ["png"; "both"]), (mem format ["html"; "both"]).
    intros [|] [|]; reflexivity.
  - rewrite distribution_plots_events by (simpl; lia). reflexivity.
Qed.

Lemma categorical_raised cols format :
  raised (_create_categorical_plots cols format) =
  if List.length cols =? 1 then Some AttributeError else None.
Proof.
  destruct cols as [|c [|d r]]; try reflexivity.
  - unfold _create_categorical_plots.
    generalize (mem format ["png"; "both"]). intros [|]; reflexivity.
  - rewrite categorical_plots_events by (simpl; lia). reflexivity.
Qed.

Lemma basic_plots_raised data format :
  raised (create_basic_plots data format) =
  if List.length (select_dtypes is_numeric data) =? 1 then Some AttributeError
  else if List.length (select_dtypes is_object data) =? 1 then Some AttributeError
  else None.
Proof.
  unfold create_basic_plots. cbv zeta.
  rewrite !raised_and_then, !raised_when, distribution_raised, categorical_raised,
    heatmap_done, pairplot_done.
  destruct (List.length (select_dtypes is_numeric data)) as [|[|n']],
           (List.length (select_dtypes is_object data)) as [|[|c']];
    simpl; try reflexivity;
    repeat match goal with
           | |- context [if ?b then _ else _] => destruct b
           end; reflexivity.
Qed.

(** X10.  [create_basic_plots] breaks on a frame with exactly one numeric
    column or exactly one [object] column: for a single column the
    array of three subplots is wrapped in a list, and the first drawing
    call is made on the array.  With one numeric column nothing has
    been drawn or written by then.  In every other case the axes are
    handled without an error. *)
Theorem basic_plots_single_column (data : DataFrame) (format : string) :
  let n := List.length (select_dtypes is_numeric data) in
  let c := List.length (select_dtypes is_object data) in
  (raised (create_basic_plots data format) = Some AttributeError <-> n = 1 \/ c = 1) /\
  (raised (create_basic_plots data format) = None <-> n <> 1 /\ c <> 1) /\
  (n = 1 -> create_basic_plots data format = ([], Some AttributeError)).
Proof.
  intros n c. rewrite basic_plots_raised. fold n c. split; [|split].
  - destruct (Nat.eqb_spec n 1), (Nat.eqb_spec c 1); split; intros H;
      try discriminate; try reflexivity; try lia; auto.
  - destruct (Nat.eqb_spec n 1), (Nat.eqb_spec c 1); split; intros H;
      try discriminate; try reflexivity; try lia; auto.
  - intros E. unfold create_basic_plots. cbv zeta. fold n.
    unfold n in E. destruct (select_dtypes is_numeric data) as [|x [|y r]];
      try discriminate. reflexivity.
Qed.

(** X11.  With two columns or more [_create_distribution_plots] draws
    the histogram of the i-th column on the i-th subplot of a grid of
    three columns, hides the subplots left over, at most two, and
    writes the files the format asks for; in the interactive version
    the i-th histogram goes to row [i // 3 + 1] and column
    [i % 3 + 1], a cell of the grid that no other histogram gets.
    [_create_categorical_plots] lays its bar charts out in the same
    way and writes a PNG file only. *)
Theorem grid_plots_layout (cols : list string) (format : string) :
  2 <= List.length cols ->
  let n := List.length cols in
  let n_rows := (n + 2) / 3 in
  _create_distribution_plots cols format =
  ((map (fun ic => hist (fst ic) (snd ic)) (enumerate_from 0 cols) ++
    map set_visible_false (seq n (n_rows * 3 - n)) ++
    (if mem format ["png"; "both"] then [savefig "distributions.png"] else []) ++
    (if mem format ["html"; "both"]
     then map (fun ic => add_trace (fst ic / 3 + 1) (fst ic mod 3 + 1) (snd ic))
              (enumerate_from 0 cols) ++ [write_html "distributions.html"]
     else []))%list,
   None) /\
  _create_categorical_plots cols format =
  ((map (fun ic => bar (fst ic) (snd ic)) (enumerate_from 0 cols) ++
    map set_visible_false (seq n (n_rows * 3 - n)) ++
    (if mem format ["png"; "both"] then [savefig "categorical.png"] else []))%list,
   None) /\
  n_rows * 3 - n <= 2 /\
  (forall i, i < n -> 1 <= i / 3 + 1 <= n_rows /\ 1 <= i mod 3 + 1 <= 3) /\
  (forall i j, i / 3 = j / 3 -> i mod 3 = j mod 3 -> i = j).
Proof.
  intros H n n_rows. split; [now apply distribution_plots_events|].
  split; [now apply categorical_plots_events|].
  split; [apply grid_capacity|]. split.
  - intros i Hi.
    assert (M := Nat.mod_upper_bound i 3).
    assert (C := proj1 (grid_capacity n)). cbv zeta in C. fold n_rows in C.
    assert (D : i / 3 < n_rows).
    { apply Nat.Div0.div_lt_upper_bound. lia. }
    lia.
  - intros i j Q M. rewrite (Nat.div_mod_eq i 3), (Nat.div_mod_eq j 3). lia.
Qed.

Lemma grid_plots_layout_witness :
  _create_distribution_plots ["a"; "b"; "c"; "d"] "html" =
  ([hist 0 "a"; hist 1 "b"; hist 2 "c"; hist 3 "d";
    set_visible_false 4; set_visible_false 5;
    add_trace 1 1 "a"; add_trace 1 2 "b"; add_trace 1 3 "c"; add_trace 2 1 "d";
    write_html "distributions.html"], None).
Proof.
  apply (@grid_plots_layout ["a"; "b"; "c"; "d"] "html"). simpl. lia.
Defined.

End Charts.

Module Files.

Import Pandas CSVAnalyzer Visualizer Actions Charts.
Local Open Scope string_scope.
Local Open Scope nat_scope.

Lemma written_and_then a b :
  incl (written (a ;; b)) (written a ++ written b)%list.
Proof.
  destruct a as [e [x|]], b as [e' r]; unfold written, and_then; cbn [fst snd].
  - apply incl_appl, incl_refl.
  - rewrite flat_map_app. apply incl_refl.
Qed.

Lemma quiet_and_then a b :
  written a = [] -> written b = [] -> written (a ;; b) = [].
Proof.
  intros Ha Hb. assert (I := written_and_then a b). rewrite Ha, Hb in I.
  destruct (written (a ;; b)) as [|x l]; [reflexivity|].
  destruct (I x (or_introl eq_refl)).
Qed.

Lemma quiet_for_each {A} (l : list A) body :
  (forall x, written (body x) = []) -> written (for_each l body) = [].
Proof.
  intros H. induction l as [|x l IH]; simpl; [reflexivity|].
  now apply quiet_and_then.
Qed.

Lemma quiet_on_item axes i call :
  (forall k, written (emit (call k)) = []) -> written (on_item axes i call) = [].
Proof.
  intros H. unfold on_item. destruct (nth_error axes i) as [[k|l]|]; auto.
Qed.

Lemma written_when c a : written (when c a) = if c then written a else [].
Proof. destruct c; reflexivity. Qed.

Lemma grid_loops_quiet (cols : list string) axes (draw : nat -> string -> event) rest :
  (forall k c, written (emit (draw k c)) = []) ->
  incl (written
          (for_each (enumerate_from 0 cols)
             (fun ic => if fst ic <? List.length axes
                        then on_item axes (fst ic) (fun k => draw k (snd ic))
                        else skip) ;;
           for_each (seq (List.length cols) (List.length axes - List.length cols))
             (fun i => on_item axes i set_visible_false) ;;
           rest))
       (written rest).
Proof.
  intros D. rewrite <- and_then_assoc.
  eapply incl_tran; [apply written_and_then|].
  rewrite quiet_and_then; [apply incl_refl| |].
  - apply quiet_for_each. intros [i c]. cbn [fst snd].
    destruct (i <? List.length axes); [|reflexivity].
    apply quiet_on_item. intros k. apply D.
  - apply quiet_for_each. intros i. now apply quiet_on_item.
Qed.

Lemma written_distribution cols format :
  incl (written (_create_distribution_plots cols format))
       ((if mem format ["png"; "both"] then ["distributions.png"] else []) ++
        (if mem format ["html"; "both"] then ["distributions.html"] else []))%list.
Proof.
  unfold _create_distribution_plots. cbv zeta.
  eapply incl_tran; [apply grid_loops_quiet; reflexivity|].
  eapply incl_tran; [apply written_and_then|].
  rewrite !written_when. apply incl_app_app.
  - destruct (mem format ["png"; "both"]); apply incl_refl.
  - destruct (mem format ["html"; "both"]); [|apply incl_refl].
    eapply incl_tran; [apply written_and_then|].
    rewrite quiet_for_each by reflexivity. apply incl_refl.
Qed.

Lemma written_categorical cols format :
  incl (written (_create_categorical_plots cols format))
       (if mem format ["png"; "both"] then ["categorical.png"] else []).
Proof.
  unfold _create_categorical_plots. cbv zeta.
  eapply incl_tran; [apply grid_loops_quiet; reflexivity|].
  rewrite written_when. destruct (mem format ["png"; "both"]); apply incl_refl.
Qed.

Lemma written_heatmap format :
  written (_create_correlation_heatmap format) =
  ((if mem format ["png"; "both"] then ["correlation_heatmap.png"] else []) ++
   (if mem format ["html"; "both"] then ["correlation_heatmap.html"] else []))%list.
Proof.
  unfold _create_correlation_heatmap.
  destruct (mem format ["png"; "both"]), (mem format ["html"; "both"]); reflexivity.
Qed.

Lemma written_pairplot format :
  written (_create_pairplot format) =
  if mem format ["png"; "both"] then ["pairplot.png"] else [].
Proof.
  unfold _create_pairplot. destruct (mem format ["png"; "both"]); reflexivity.
Qed.

Lemma written_basic_plots data format :
  incl (written (create_basic_plots data format))
       ((if mem format ["png"; "both"]
         then ["distributions.png"; "categorical.png"; "correlation_heatmap.png";
               "pairplot.png"]
         else []) ++
        (if mem format ["html"; "both"]
         then ["distributions.html"; "correlation_heatmap.html"]
         else []))%list.
Proof.
  unfold create_basic_plots. cbv zeta.
  set (n := List.length (select_dtypes is_numeric data)).
  set (c := List.length (select_dtypes is_object data)).
  assert (D := written_distribution (select_dtypes is_numeric data) format).
  assert (C := written_categorical (select_dtypes is_object data) format).
  assert (H := written_heatmap format).
  assert (P := written_pairplot format).
  intros x Hx.
  apply written_and_then, in_app_iff in Hx. destruct Hx as [Hx|Hx].
  { rewrite written_when in Hx. destruct (0 <? n); [|destruct Hx].
    apply D in Hx. revert Hx.
    destruct (mem format ["png"; "both"]), (mem format ["html"; "both"]);
      simpl; tauto. }
  apply written_and_then, in_app_iff in Hx. destruct Hx as [Hx|Hx].
  { rewrite written_when in Hx. destruct (0 <? c); [|destruct Hx].
    apply C in Hx. revert Hx.
    destruct (mem format ["png"; "both"]), (mem format ["html"; "both"]);
      simpl; tauto. }
  apply written_and_then, in_app_iff in Hx. destruct Hx as [Hx|Hx].
  { rewrite written_when in Hx. destruct (1 <? n); [|destruct Hx].
    rewrite H in Hx. revert Hx.
    destruct (mem format ["png"; "both"]), (mem format ["html"; "both"]);
      simpl; tauto. }
  rewrite written_when in Hx. destruct (_ && _); [|destruct Hx].
  rewrite P in Hx. revert Hx.
  destruct (mem format ["png"; "both"]), (mem format ["html"; "both"]);
    simpl; tauto.
Qed.

(** ** The charts of the connections *)

Lemma details_axes n :
  1 <= n ->
  (if n =? 1 then [subplots n 1] else elements (subplots n 1)) = axes_row 0 n.
Proof.
  intros H. destruct (Nat.eqb_spec n 1) as [->|N]; [reflexivity|].
  unfold subplots. rewrite (proj2 (Nat.eqb_neq n 1) N). cbn [andb orb Nat.eqb elements].
  now rewrite Nat.mul_1_r.
Qed.

Lemma connection_details_events top format :
  top <> [] ->
  _create_connection_details top format =
  ((map detail (enumerate_from 0 top) ++
    (if mem format ["png"; "both"] then [savefig "connection_details.png"] else []))%list,
   None).
Proof.
  intros N. unfold _create_connection_details. cbv zeta.
  assert (L : 1 <= List.length top) by (destruct top; [contradiction | simpl; lia]).
  destruct (Nat.eqb_spec (List.length top) 0) as [E|_]; [lia|].
  rewrite (details_axes L).
  rewrite (@for_each_ext _ _ _ (fun ic => emit (detail ic))).
  - rewrite for_each_emit.
    destruct (mem format ["png"; "both"]); cbn [when and_then emit skip fst snd];
      rewrite ?app_nil_r; reflexivity.
  - intros [i c] H. apply in_enumerate_from in H. unfold detail. cbn [fst snd].
    destruct c; apply on_item_axes_row; lia.
Qed.

Lemma plot_connections_events connections format :
  plot_connections connections format =
  match connections with
  | [] => ([print "No connections to visualize"], None)
  | _ :: _ =>
      (([draw_network connections] ++
        (if mem format ["png"; "both"] then [savefig "connection_network.png"] else []) ++
        map detail (enumerate_from 0 (firstn 5 connections)) ++
        (if mem format ["png"; "both"] then [savefig "connection_details.png"] else []))%list,
       None)
  end.
Proof.
  destruct connections as [|c l]; [reflexivity|].
  unfold plot_connections, _create_connection_network.
  rewrite connection_details_events by discriminate.
  destruct (mem format ["png"; "both"]); reflexivity.
Qed.

(** X12.  [plot_connections] never breaks on its axes: with no
    connection it only prints a message; otherwise it draws the network
    of all connections and then the first five connections of the
    list, the i-th on the i-th subplot of a column (a scatter plot for
    a correlation, a box plot for an influence), and it writes its two
    files only for the formats "png" and "both". *)
Theorem plot_connections_charts (connections : list connection) (format : string) :
  plot_connections connections format =
  match connections with
  | [] => ([print "No connections to visualize"], None)
  | _ :: _ =>
      let png := mem format ["png"; "both"] in
      (([draw_network connections] ++
        (if png then [savefig "connection_network.png"] else []) ++
        map detail (enumerate_from 0 (firstn 5 connections)) ++
        (if png then [savefig "connection_details.png"] else []))%list,
       None)
  end.
Proof.
  rewrite plot_connections_events. destruct connections; reflexivity.
Qed.

Lemma written_plot_connections connections format :
  written (plot_connections connections format) =
  if mem format ["png"; "both"]
  then match connections with
       | [] => []
       | _ :: _ => ["connection_network.png"; "connection_details.png"]
       end
  else [].
Proof.
  assert (Q : forall l, written (map detail l, @None exception) = []).
  { intros l. unfold written. cbn [fst]. induction l as [|[i c] l IH]; [reflexivity|].
    simpl. destruct c; exact IH. }
  rewrite plot_connections_events.
  destruct connections as [|c l]; [now destruct (mem _ _)|].
  unfold written in *. cbn [fst] in *.
  destruct (mem format ["png"; "both"]); rewrite !flat_map_app, Q; reflexivity.
Qed.

(** X13.  Which files the two entry points write follows the format:
    "png" gives only the six PNG files, "html" gives at most
    [distributions.html] and [correlation_heatmap.html] and no chart of
    the connections, and any format other than "png", "html" and "both"
    writes no file at all. *)
Theorem files_follow_format (data : DataFrame) (connections : list connection)
        (format : string) :
  let basic := written (create_basic_plots data format) in
  let charts := written (plot_connections connections format) in
  (format = "png" ->
   incl basic ["distributions.png"; "categorical.png"; "correlation_heatmap.png";
               "pairplot.png"] /\
   incl charts ["connection_network.png"; "connection_details.png"]) /\
  (format = "html" ->
   incl basic ["distributions.html"; "correlation_heatmap.html"] /\ charts = []) /\
  (format <> "png" -> format <> "html" -> format <> "both" ->
   basic = [] /\ charts = []).
Proof.
  intros basic charts.
  assert (B := written_basic_plots data format). fold basic in B.
  assert (C := written_plot_connections connections format). fold charts in C.
  split; [|split].
  - intros ->. split; [exact B|]. rewrite C. destruct connections; simpl.
    + apply incl_nil_l.
    + apply incl_refl.
  - intros ->. split; [exact B|]. rewrite C. reflexivity.
  - intros H1 H2 H3.
    assert (P : mem format ["png"; "both"] = false).
    { simpl. apply String.eqb_neq in H1, H3. now rewrite H1, H3. }
    assert (H : mem format ["html"; "both"] = false).
    { simpl. apply String.eqb_neq in H2, H3. now rewrite H2, H3. }
    rewrite P, H in B. rewrite C, P. split; [|reflexivity].
    destruct basic as [|x l]; [reflexivity|]. destruct (B x (or_introl eq_refl)).
Qed.

End Files.

(* ================================================================== *)
(** * The order of binary64 values is transitive *)
(* ================================================================== *)

Module Order.

Local Open Scope Z_scope.

Lemma SFleb_positive m1 e1 m2 e2 :
  SFleb (S754_finite false m1 e1) (S754_finite false m2 e2) = true <->
  e1 < e2 \/ (e1 = e2 /\ Zpos m1 <= Zpos m2).
Proof.
  unfold SFleb, SFcompare. rewrite Pos.compare_cont_spec. cbn [Pos.switch_Eq].
  destruct (Z.compare_spec e1 e2) as [E|E|E];
    [destruct (Pos.compare_spec m1 m2) as [M|M|M]| |];
    split; intros H; try discriminate; try reflexivity; lia.
Qed.

Lemma SFleb_negative m1 e1 m2 e2 :
  SFleb (S754_finite true m1 e1) (S754_finite true m2 e2) = true <->
  e2 < e1 \/ (e1 = e2 /\ Zpos m2 <= Zpos m1).
Proof.
  unfold SFleb, SFcompare. rewrite Pos.compare_cont_spec. cbn [Pos.switch_Eq].
  destruct (Z.compare_spec e1 e2) as [E|E|E];
    [destruct (Pos.compare_spec m1 m2) as [M|M|M]| |];
    cbn [CompOpp]; split; intros H; try discriminate; try reflexivity; lia.
Qed.

Lemma SFleb_trans x y z :
  SFleb x y = true -> SFleb y z = true -> SFleb x z = true.
Proof.
  destruct x as [sx|sx| |sx mx ex], y as [sy|sy| |sy my ey], z as [sz|sz| |sz mz ez];
    try (unfold SFleb, SFcompare; intros H K;
         try discriminate; try reflexivity;
         repeat match goal with b : bool |- _ => destruct b end;
         try discriminate; reflexivity).
  destruct sx, sy, sz;
    try (unfold SFleb, SFcompare; intros H K; try discriminate; reflexivity).
  - rewrite !SFleb_negative. lia.
  - rewrite !SFleb_positive. lia.
Qed.

Local Close Scope Z_scope.
Local Open Scope float_scope.

Lemma leb_trans a b c :
  (a <=? b) = true -> (b <=? c) = true -> (a <=? c) = true.
Proof. rewrite !leb_spec. apply SFleb_trans. Qed.

End Order.

Module Strongest.

Import Pandas CSVAnalyzer FloatFacts SortFacts Strengths RankingVocabulary Ranking
       Visualizer Actions Charts Files Order.
Local Open Scope string_scope.
Local Open Scope float_scope.

Lemma ranks_before_transitive (x y z : connection) :
  ranks_before x y -> ranks_before y z -> ranks_before x z.
Proof.
  intros H K. unfold ranks_before in *. exact (leb_trans K H).
Qed.

Lemma StronglySorted_app {A} (R : A -> A -> Prop) l1 l2 x y :
  StronglySorted R (l1 ++ l2) -> In x l1 -> In y l2 -> R x y.
Proof.
  induction l1 as [|z l1 IH]; simpl; intros S Hx Hy; [contradiction|].
  inversion S as [|? ? S' F]; subst. destruct Hx as [->|Hx].
  - apply (proj1 (Forall_forall _ _) F). apply in_or_app. now right.
  - now apply IH.
Qed.

Lemma find_connections_sorted a : StronglySorted ranks_before (find_connections a).
Proof.
  apply Sorted_StronglySorted; [exact ranks_before_transitive|].
  apply sorted_by_strength_sorted. apply Forall_forall.
  intros c. apply discovered_strength_not_nan.
Qed.

Lemma in_enumerate_nth {A} (l : list A) s i x :
  nth_error l i = Some x -> In ((s + i)%nat, x) (enumerate_from s l).
Proof.
  revert s i. induction l as [|y l IH]; intros s [|i] H; simpl in *; try discriminate.
  - injection H as ->. left. f_equal. lia.
  - right. replace (s + S i)%nat with (S s + i)%nat by lia. now apply IH.
Qed.

(** X14.  Handed the list [find_connections] returns, [plot_connections]
    details its first five entries, the i-th on the i-th subplot, and
    these are the strongest: every connection left out is at most as
    strong as every connection detailed. *)
Theorem strongest_connections_detailed (df : DataFrame) (format : string) :
  let connections := find_connections (load_data df) in
  (forall i c, nth_error connections i = Some c -> (i < 5)%nat ->
     In (detail (i, c)) (fst (plot_connections connections format))) /\
  (forall c d, In c (firstn 5 connections) -> In d (skipn 5 connections) ->
     (strength_of d <=? strength_of c) = true).
Proof.
  intros connections. split.
  - intros i c H L. rewrite plot_connections_events.
    destruct connections as [|x l] eqn:E; [destruct i; discriminate|].
    rewrite <- E in *. cbn [fst].
    apply in_or_app. right. apply in_or_app. right. apply in_or_app. left.
    apply in_map. apply (@in_enumerate_nth _ _ 0%nat i c).
    rewrite nth_error_firstn. apply Nat.ltb_lt in L. now rewrite L.
  - intros c d Hc Hd.
    assert (S := find_connections_sorted (load_data df)). fold connections in S.
    rewrite <- (firstn_skipn 5 connections) in S.
    exact (@StronglySorted_app _ _ _ _ _ _ S Hc Hd).
Qed.

End Strongest.

(* ================================================================== *)
(** * Runs of the command line *)
(* ================================================================== *)

Module Runs.

Import Pandas CSVAnalyzer Summary Visualizer Actions Charts Files Main.
Local Open Scope string_scope.
Local Open Scope nat_scope.

Lemma snd_next a b :
  snd (a >> b) = match snd a with Some x => Some x | None => snd b end.
Proof. destruct a as [e [x|]]; reflexivity. Qed.

Lemma files_app a b : files (a ++ b) = (files a ++ files b)%list.
Proof. apply flat_map_app. Qed.

Lemma files_next a b : incl (files (fst (a >> b))) (files (fst a) ++ files (fst b))%list.
Proof.
  destruct a as [e [x|]], b as [e' r]; unfold next; cbn [fst snd].
  - apply incl_appl, incl_refl.
  - rewrite files_app. apply incl_refl.
Qed.

Lemma files_draw a : files (fst (draw a)) = written a.
Proof.
  unfold draw, written. cbn [fst]. induction (fst a) as [|e l IH]; [reflexivity|].
  cbn [map flat_map files]. fold (files (map chart l)). rewrite IH.
  destruct e; reflexivity.
Qed.

Lemma snd_draw a : snd (draw a) = option_map ChartError (raised a).
Proof. reflexivity. Qed.

Lemma plot_connections_done connections format :
  raised (plot_connections connections format) = None.
Proof. rewrite plot_connections_events. now destruct connections. Qed.

(** How the [try] block ends once the file is read: only the basic
    plots can break it. *)
Lemma body_outcome args w data :
  read_csv w = Some data ->
  snd (body args w) =
  if visualize args
  then option_map ChartError (raised (create_basic_plots data (format args)))
  else None.
Proof.
  intros E. unfold body. rewrite E. cbv zeta. cbn [get_summary].
  rewrite !snd_next. cbn [say snd].
  destruct (connections args), (visualize args);
    rewrite ?snd_next, ?snd_draw, ?plot_connections_done; cbn [say nothing snd option_map];
    try reflexivity;
    rewrite ?snd_next, ?snd_draw; cbn [say snd];
    destruct (raised (create_basic_plots data (format args))); reflexivity.
Qed.

Lemma body_files args w name :
  In name (files (fst (body args w))) ->
  exists data,
    read_csv w = Some data /\ visualize args = true /\
    ((connections args = true /\
      In name (written (plot_connections (find_connections (load_data data))
                                         (format args)))) \/
     In name (written (create_basic_plots data (format args)))).
Proof.
  unfold body. intros H.
  apply files_next, in_app_iff in H. destruct H as [[]|H].
  destruct (read_csv w) as [data|]; [|destruct H].
  exists data. split; [reflexivity|]. cbv zeta in H. cbn [get_summary] in H.
  apply files_next, in_app_iff in H. destruct H as [[]|H].
  apply files_next, in_app_iff in H. destruct H as [[]|H].
  apply files_next, in_app_iff in H. destruct H as [H|H].
  - destruct (connections args); [|destruct H].
    apply files_next, in_app_iff in H. destruct H as [[]|H].
    apply files_next, in_app_iff in H. destruct H as [[]|H].
    destruct (visualize args); [|destruct H].
    rewrite files_draw in H. auto.
  - destruct (visualize args); [|destruct H]. split; [reflexivity|]. right.
    apply files_next, in_app_iff in H. destruct H as [[]|H].
    apply files_next, in_app_iff in H. destruct H as [H|[]].
    now rewrite files_draw in H.
Qed.

Lemma main_files args w :
  incl (files (fst (main args w))) (files (fst (body args w))).
Proof.
  unfold main. destruct (file_exists w); [|apply incl_nil_l].
  destruct (visualizer_ready w); [|apply incl_nil_l]. cbn [negb].
  destruct (body args w) as [out [x|]]; cbn [fst].
  - rewrite files_app. cbn [files flat_map]. rewrite app_nil_r. apply incl_refl.
  - apply incl_refl.
Qed.

(** X15.  The exit status of a run of [main], the drawing calls taken
    to succeed.  Without the file it prints that the file was not found
    and exits with status 1, nothing else done.  The status is 1
    exactly when the file is missing, or the visualizer cannot be made
    (an exception that nothing catches), or the file cannot be loaded,
    or charts are asked for and the frame has exactly one numeric
    column or exactly one [object] column, which breaks the basic
    plots.  In every other case [main] returns, with status 0. *)
Theorem main_exit_status (args : arguments) (w : world) :
  (file_exists w = false ->
   main args w = ([say_not_found (file args)], exited 1)) /\
  (exit_status (snd (main args w)) = 1 <->
   file_exists w = false \/
   visualizer_ready w = false \/
   read_csv w = None \/
   exists data,
     read_csv w = Some data /\ visualize args = true /\
     (List.length (select_dtypes is_numeric data) = 1 \/
      List.length (select_dtypes is_object data) = 1)) /\
  (exit_status (snd (main args w)) <> 1 ->
   snd (main args w) = returned /\ exit_status (snd (main args w)) = 0).
Proof.
  split; [intros E; unfold main; now rewrite E|].
  unfold main. destruct (file_exists w); cbn [negb];
    [|split; [split; auto|intros H; now elim H]].
  destruct (visualizer_ready w); cbn [negb];
    [|split; [split; auto|intros H; now elim H]].
  destruct (read_csv w) as [data|] eqn:R.
  - assert (B := @body_outcome args w data R). rewrite basic_plots_raised in B.
    destruct (body args w) as [out [x|]]; cbn [snd exit_status] in *.
    + split; [|intros H; now elim H].
      split; [intros _|reflexivity]. right. right. right.
      exists data. split; [reflexivity|].
      destruct (visualize args); [|discriminate]. split; [reflexivity|].
      destruct (Nat.eqb_spec (List.length (select_dtypes is_numeric data)) 1);
        [now left|].
      destruct (Nat.eqb_spec (List.length (select_dtypes is_object data)) 1);
        [now right|discriminate].
    + split; [|now split]. split; [discriminate|].
      intros [H|[H|[H|(d & E & V & H)]]]; try discriminate.
      injection E as <-. rewrite V in B.
      destruct H as [H|H]; rewrite H in B; cbn [Nat.eqb] in B;
        [discriminate|].
      destruct (_ =? 1); discriminate.
  - assert (B : snd (body args w) = Some LoadError).
    { unfold body. rewrite R. reflexivity. }
    destruct (body args w) as [out [x|]]; cbn [snd exit_status] in *; [|discriminate].
    split; [|intros H; now elim H].
    split; [intros _|reflexivity]. right. right. now left.
Qed.

(** X16.  A run of [main] writes a file only when [--visualize] is
    given, the two charts of the connections only when [--connections]
    is given as well, and never a file other than the eight of the
    visualizer. *)
Theorem main_writes_on_request (args : arguments) (w : world) :
  let written_files := files (fst (main args w)) in
  (visualize args = false -> written_files = []) /\
  (connections args = false ->
   ~ In "connection_network.png" written_files /\
   ~ In "connection_details.png" written_files) /\
  incl written_files
       ["distributions.png"; "categorical.png"; "correlation_heatmap.png";
        "pairplot.png"; "distributions.html"; "correlation_heatmap.html";
        "connection_network.png"; "connection_details.png"].
Proof.
  intros written_files.
  assert (K : forall name, In name written_files ->
              exists data,
                read_csv w = Some data /\ visualize args = true /\
                ((connections args = true /\
                  In name ["connection_network.png"; "connection_details.png"]) \/
                 In name ["distributions.png"; "categorical.png";
                          "correlation_heatmap.png"; "pairplot.png";
                          "distributions.html"; "correlation_heatmap.html"])).
  { intros name H. apply main_files, body_files in H.
    destruct H as (data & R & V & H). exists data. split; [exact R|].
    split; [exact V|]. destruct H as [[C H]|H].
    - left. split; [exact C|]. rewrite written_plot_connections in H.
      destruct (mem _ _); [|destruct H]. destruct (find_connections _); [destruct H|].
      exact H.
    - right. apply written_basic_plots in H. revert H.
      destruct (mem _ ["png"; "both"]), (mem _ ["html"; "both"]); simpl; tauto. }
  split; [|split].
  - intros V. destruct written_files as [|x l]; [reflexivity|].
    destruct (K x (or_introl eq_refl)) as (_ & _ & V' & _). congruence.
  - intros C. split; intros H; apply K in H;
      destruct H as (_ & _ & _ & [[C' _]|H]); try congruence;
      simpl in H; intuition discriminate.
  - intros name H. apply K in H. destruct H as (_ & _ & _ & [[_ H]|H]);
      simpl in *; tauto.
Qed.

End Runs.
